(** * NoProb: the saturation model, its gradient, the objective, the outer
      search over (dt, cvert) and the asymptote finder of [NoProb.py].

    Numbers.  The program computes with numpy [float64].  The closed-form
    statements about the model (its value, its partial derivatives) are
    statements of real analysis, so the model is embedded over [R]: every
    arithmetic operation of the source is the corresponding real operation,
    in the order the source writes it.  Where rounding decides a statement,
    the expression is embedded a second time in IEEE binary64, on the
    kernel's floats: the logistic gate, whose range in [float64] is not its
    range over the reals (module [Float64]).  The comparisons on losses in
    the outer search are sensitive to NaN and to the infinities, so losses
    are embedded as [np_float], the reals extended with the IEEE special
    values and their comparison rules.

    Containers.  [aux_parameters] is a Python dict with string keys: a
    [gmap string R]; a missing key is a [KeyError].  [parameters] is indexed by
    position: a [list R]; an index out of range is an [IndexError].  Both
    errors are the [None] of the option monad. *)

From Stdlib Require Import Reals Lra Lia List ZArith Ascii Floats.
From stdpp Require Import base option list gmap strings fin_maps.

Open Scope R_scope.

(** ** The model (NoProb.py, lines 36-108) *)

Module Model.

(** [mod_maxwell]: the relaxation term. *)
Definition mod_maxwell (time : R) (parameters : list R)
    (aux_parameters : gmap string R) : option R :=
  K1 ← parameters !! 0%nat;
  N0 ← parameters !! 1%nat;
  N1 ← parameters !! 2%nat;
  N2 ← parameters !! 3%nat;
  dt ← aux_parameters !! "dt";
  let T := N0 / K1 in
  C3 ← aux_parameters !! "c3";
  Cvert ← aux_parameters !! "cvert";
  r ← aux_parameters !! "r";
  let adjusted_t := time - dt in
  Some (-1 * ((1 / K1) * (1 - exp (-1 * adjusted_t / T)) + adjusted_t / N1)).

(** [s_curve]: the logistic gate. *)
Definition s_curve (time : R) (parameters : list R)
    (aux_parameters : gmap string R) : option R :=
  dt ← aux_parameters !! "dt";
  C3 ← aux_parameters !! "c3";
  Cvert ← aux_parameters !! "cvert";
  r ← aux_parameters !! "r";
  Some (1 / (1 + C3 * exp ((- time + dt) * r))).

(** [steady]: the linear drift. *)
Definition steady (time : R) (parameters : list R)
    (aux_parameters : gmap string R) : option R :=
  N2 ← parameters !! 3%nat;
  dt ← aux_parameters !! "dt";
  C3 ← aux_parameters !! "c3";
  Cvert ← aux_parameters !! "cvert";
  r ← aux_parameters !! "r";
  Some ((time - dt) / N2 + Cvert).

(** [saturation_function]: relaxation times gate plus drift. *)
Definition saturation_function (time : R) (parameters : list R)
    (aux_parameters : gmap string R) : option R :=
  m ← mod_maxwell time parameters aux_parameters;
  s ← s_curve time parameters aux_parameters;
  d ← steady time parameters aux_parameters;
  Some (m * s + d).

(** [get_saturation_gradient]: the four components, in the order of the
    docstring (df_dK1, df_dN0, df_dN1, df_dN2). *)
Definition get_saturation_gradient (t : R) (parameters : list R)
    (aux_parameters : gmap string R) : option (list R) :=
  K1 ← parameters !! 0%nat;
  N0 ← parameters !! 1%nat;
  N1 ← parameters !! 2%nat;
  N2 ← parameters !! 3%nat;
  dt ← aux_parameters !! "dt";
  let T := N0 / K1 in
  C3 ← aux_parameters !! "c3";
  Cvert ← aux_parameters !! "cvert";
  r ← aux_parameters !! "r";
  let df_dk1 :=
    (-1 / (C3 * exp (r * (dt - t))))
    * ((((dt - t) * exp ((- K1 * (dt - t)) / N1)) / (K1 * N1))
       - (1 - exp ((- K1 * (dt - t)) / N1)) / K1 ^ 2) in
  let df_dN0 :=
    - (dt - t) * exp ((K1 * (dt - t)) / N0)
    / ((N0 ^ 2) * (C3 * exp (r * (dt - t)) + 1)) in
  let df_dN1 := (t - dt) / ((N1 ^ 2) * (C3 * exp (r * (dt - t)) + 1)) in
  let df_dN2 := (dt - t) / (N2 ^ 2) in
  Some [df_dk1; df_dN0; df_dN1; df_dN2].

End Model.

(** ** The logistic gate in float64 (NoProb.py, lines 77-84) *)

Module Float64.


(** [1/(1+C3*np.exp(...))] in binary64, from the value [e] that [np.exp]
    returned for the argument above.  [np.exp] is library code: its result
    is taken as given. *)
Definition s_curve (C3 e : float) : float :=
  (1 / (1 + C3 * e))%float.


End Float64.

(** ** The formula of the specification, written from its words *)

Module SpecFormula.

Definition relaxation (K1 N0 N1 dt t : R) : R :=
  - ((1 / K1) * (1 - exp (- (t - dt) / (N0 / K1))) + (t - dt) / N1).

Definition gate (c3 r dt t : R) : R :=
  1 / (1 + c3 * exp (- r * (t - dt))).

Definition drift (N2 dt cvert t : R) : R :=
  (t - dt) / N2 + cvert.

Definition value (K1 N0 N1 N2 dt c3 cvert r t : R) : R :=
  relaxation K1 N0 N1 dt t * gate c3 r dt t + drift N2 dt cvert t.

End SpecFormula.

(** The value of the model as a real number, where it is defined. *)
Definition model_value (t : R) (parameters : list R)
    (aux_parameters : gmap string R) : R :=
  default 0 (Model.saturation_function t parameters aux_parameters).

(** Component [k] of the gradient of the model at time [t], as a real
    number. *)
Definition gradient_component (k : nat) (t : R) (parameters : list R)
    (aux_parameters : gmap string R) : R :=
  nth k (default [] (Model.get_saturation_gradient t parameters
                       aux_parameters)) 0.

(** The auxiliary assignment the model reads: the four keys it looks up. *)
Definition aux_has (aux : gmap string R) (dt c3 cvert r : R) : Prop :=
  aux !! "dt" = Some dt ∧ aux !! "c3" = Some c3 ∧
  aux !! "cvert" = Some cvert ∧ aux !! "r" = Some r.

Definition mk_aux (dt c3 cvert r : R) : gmap string R :=
  <["dt" := dt]> (<["c3" := c3]> (<["cvert" := cvert]> (<["r" := r]> ∅))).


(** ** numpy arrays of reals (one dimension) *)

Module Numpy.

(** Elementwise binary operation with numpy's broadcasting rule for
    one-dimensional arrays: equal lengths, or one operand of length 1;
    any other pair of shapes is a [ValueError]. *)
Definition np_binop (f : R → R → R) (a b : list R) : option (list R) :=
  if decide (length a = length b) then Some (zip_with f a b)
  else match a, b with
       | [x], _ => Some (f x <$> b)
       | _, [y] => Some ((λ x, f x y) <$> a)
       | _, _ => None
       end.

Definition np_add := np_binop Rplus.
Definition np_sub := np_binop Rminus.
Definition np_mul := np_binop Rmult.

(** scalar * array *)
Definition np_scale (c : R) (a : list R) : list R := Rmult c <$> a.

(** array ** n *)
Definition np_pow (a : list R) (n : nat) : list R := (λ x, x ^ n) <$> a.

Definition np_sum (a : list R) : R := foldr Rplus 0 a.

(** A scalar function of the time applied to an array of times.  numpy
    evaluates the body once on the whole array: the dictionary and index
    lookups happen whatever the length of the array, then the arithmetic runs
    elementwise. *)
Definition over_times {A} (f : R → option A) (times : list R)
    : option (list A) :=
  _ ← f 0; mapM f times.

End Numpy.

(** ** The objective and its gradient (NoProb.py, lines 112-140) *)

Module Objective.
Import Model Numpy.

Definition saturation_function_arr (X : list R) (parameters : list R)
    (aux_parameters : gmap string R) : option (list R) :=
  over_times (λ t, saturation_function t parameters aux_parameters) X.

(** [np.array([df_dk1, df_dN0, df_dN1, df_dN2])] on an array of times: four
    rows, one per parameter, each as long as the array of times. *)
Definition get_saturation_gradient_arr (X : list R) (parameters : list R)
    (aux_parameters : gmap string R) : option (list (list R)) :=
  gs ← over_times (λ t, get_saturation_gradient t parameters aux_parameters) X;
  Some ((λ i : nat, (λ g : list R, nth i g 0) <$> (gs : list (list R)))
        <$> [0; 1; 2; 3]%nat).

Definition get_obj_function (X Y : list R) (aux_parameters : gmap string R)
    : list R → option R :=
  λ parameters,
    m ← saturation_function_arr X parameters aux_parameters;
    d ← np_sub Y m;
    Some (np_sum (np_pow d 2)).

(** One entry of [obj_grad]: the body of the loop of [get_gradient]. *)
Definition obj_grad_entry (X Y : list R) (parameters : list R)
    (aux_parameters : gmap string R) (grad : list (list R)) (i : nat)
    : option R :=
  row ← grad !! i;
  a ← np_mul (np_scale (-2) Y) row;
  m ← saturation_function_arr X parameters aux_parameters;
  b ← np_mul (np_scale 2 m) row;
  c ← np_add a b;
  Some (np_sum c).

Definition get_gradient (X Y : list R) (parameters : list R)
    (aux_parameters : gmap string R) : option (list R) :=
  grad ← get_saturation_gradient_arr X parameters aux_parameters;
  mapM (obj_grad_entry X Y parameters aux_parameters grad)
       (seq 0 (length parameters)).

Definition get_gradient_function (X Y : list R)
    (aux_parameters : gmap string R) : list R → option (list R) :=
  λ parameters, get_gradient X Y parameters aux_parameters.

End Objective.

(** The objective and its gradient in the words of the specification: sums
    over the sample index. *)
Module SpecObjective.

Fixpoint sum_upto (n : nat) (f : nat → R) : R :=
  match n with
  | O => 0
  | S k => sum_upto k f + f k
  end.

Definition residual_sum (M : R → R) (X Y : list R) : R :=
  sum_upto (length X) (λ i, (nth i Y 0 - M (nth i X 0)) ^ 2).

Definition gradient_sum (M dM : R → R) (X Y : list R) : R :=
  sum_upto (length X)
    (λ i, -2 * nth i Y 0 * dM (nth i X 0)
          + 2 * M (nth i X 0) * dM (nth i X 0)).

End SpecObjective.

(** ** Outcomes of a procedure: a returned value, [sys.exit(code)], or an
    uncaught exception (KeyError, IndexError, NameError, ValueError,
    EOFError). *)

Inductive outcome (A : Type) : Type :=
  | Returns (a : A)
  | SysExit (code : nat)
  | Uncaught.
Arguments Returns {A} a.
Arguments SysExit {A} code.
Arguments Uncaught {A}.

Global Instance outcome_ret : MRet outcome := λ A, Returns.
Global Instance outcome_bind : MBind outcome := λ A B f m,
  match m with
  | Returns a => f a
  | SysExit c => SysExit c
  | Uncaught => Uncaught
  end.

Definition of_option {A} (o : option A) : outcome A :=
  match o with
  | Some a => Returns a
  | None => Uncaught
  end.

(** ** The asymptote finder (NoProb.py, lines 249-271) *)

Module Asymptote.
Import Model.

(** The loop [for i in range(1, 100)], on the indices still to try. *)
Fixpoint asymtote_loop (parameters : list R) (aux_parameters : gmap string R)
    (dt ddB_dt : R) (indices : list nat) : outcome R :=
  match indices with
  | [] => SysExit 1
  | i :: rest =>
    a ← of_option (saturation_function (dt * INR i) parameters aux_parameters);
    b ← of_option
          (saturation_function (dt * INR i - 1) parameters aux_parameters);
    let dB_asym_guess_1 := a - b in
    c ← of_option
          (saturation_function (dt * INR i + 1) parameters aux_parameters);
    d ← of_option (saturation_function (dt * INR i) parameters aux_parameters);
    let dB_asym_guess_2 := c - d in
    let ddB_asym_guess := dB_asym_guess_1 - dB_asym_guess_2 in
    if Rgt_dec (ddB_dt * 0.01) (Rabs ddB_asym_guess) then
      if Rlt_dec dB_asym_guess_2 0 then
        of_option (saturation_function (dt * INR i) parameters aux_parameters)
      else
        v ← of_option
              (saturation_function (dt * INR i) parameters aux_parameters);
        Returns (v - dt * INR i * dB_asym_guess_2)
    else asymtote_loop parameters aux_parameters dt ddB_dt rest
  end.

Definition getAsymtote_Y (parameters : list R)
    (aux_parameters : gmap string R) : outcome R :=
  dt ← of_option (aux_parameters !! "dt");
  a ← of_option (saturation_function dt parameters aux_parameters);
  b ← of_option (saturation_function (dt - 1) parameters aux_parameters);
  c ← of_option (saturation_function (dt + 1) parameters aux_parameters);
  d ← of_option (saturation_function dt parameters aux_parameters);
  let ddB_dt := Rabs ((a - b) - (c - d)) in
  asymtote_loop parameters aux_parameters dt ddB_dt (seq 1 99).

End Asymptote.

(** The quantities of the asymptote search in the words of the
    specification, for a curve [f]. *)
Module SpecAsymptote.

Definition ref (f : R → R) (dt : R) : R :=
  Rabs ((f dt - f (dt - 1)) - (f (dt + 1) - f dt)).

Definition forward_slope (f : R → R) (dt : R) (i : nat) : R :=
  f (dt * INR i + 1) - f (dt * INR i).

Definition deltadelta (f : R → R) (dt : R) (i : nat) : R :=
  (f (dt * INR i) - f (dt * INR i - 1)) - forward_slope f dt i.

Definition accepted (f : R → R) (dt : R) (i : nat) : Prop :=
  0.01 * ref f dt > Rabs (deltadelta f dt i).

Definition answer (f : R → R) (dt : R) (i : nat) : R :=
  if Rlt_dec (forward_slope f dt i) 0 then f (dt * INR i)
  else f (dt * INR i) - dt * INR i * forward_slope f dt i.

End SpecAsymptote.

(** ** Losses: float64 values under comparison *)

Inductive np_float : Type :=
  | F_nan
  | F_pinf
  | F_ninf
  | F_fin (x : R).

(** [a < b] on floats: false whenever an operand is NaN. *)
Definition np_lt (a b : np_float) : bool :=
  match a, b with
  | F_nan, _ | _, F_nan => false
  | _, F_ninf => false
  | F_ninf, _ => true
  | F_pinf, _ => false
  | F_fin _, F_pinf => true
  | F_fin x, F_fin y => if Rlt_dec x y then true else false
  end.

(** [a == 0]. *)
Definition np_eq0 (a : np_float) : bool :=
  match a with
  | F_fin x => if Req_dec_T x 0 then true else false
  | _ => false
  end.

Definition is_finite (a : np_float) : bool :=
  match a with
  | F_fin _ => true
  | _ => false
  end.

Definition is_nan (a : np_float) : bool :=
  match a with
  | F_nan => true
  | _ => false
  end.


(** ** The outer search (NoProb.py, [__main__], lines 285-335) *)

Module Search.
Import Model Asymptote.

Definition max_itterations : nat := 200.

(** The loop [for i in range(0, max_itterations)] of the down-sampling, on
    the indices still to visit; [guess_dt] and [guess_cvert] grow by
    [append]. *)
Fixpoint pick_guesses (span_dt span_cvert : list R) (index_interval : nat)
    (indices : list nat) (guess_dt guess_cvert : list R)
    : option (list R * list R) :=
  match indices with
  | [] => Some (guess_dt, guess_cvert)
  | i :: rest =>
    let span_index := (i * index_interval)%nat in
    d ← span_dt !! span_index;
    c ← span_cvert !! span_index;
    pick_guesses span_dt span_cvert index_interval rest
                 (guess_dt ++ [d]) (guess_cvert ++ [c])
  end.

(** Lines 285-298: the candidate lists built from the dt window. *)
Definition downsample (span_dt span_cvert : list R)
    : option (list R * list R) :=
  let guess_dt := [] in
  let guess_cvert := [] in
  let span_length := length span_dt in
  if decide (max_itterations < span_length)%nat then
    let max_index := (span_length - 1)%nat in
    let index_interval := (max_index `div` max_itterations)%nat in
    pick_guesses span_dt span_cvert index_interval (seq 0 max_itterations)
                 guess_dt guess_cvert
  else Some (guess_dt, guess_cvert).

(** The variables of the search loop.  [aux_writes] is ghost state: the keys
    of [aux_params] assigned so far, in program order.  [new_params] is
    unbound until the first adoption.  [loss_array] holds the data rows; its
    header row is constant. *)
Record search_state : Type := {
  aux_params : gmap string R;
  aux_writes : list string;
  loss : np_float;
  best_guess_index : nat;
  new_params : option (list R);
  loss_array : list (R * np_float)
}.

(** [aux_params[k] = v]. *)
Definition set_aux (k : string) (v : R) (st : search_state) : search_state :=
  {| aux_params := <[k := v]> (aux_params st);
     aux_writes := aux_writes st ++ [k];
     loss := loss st;
     best_guess_index := best_guess_index st;
     new_params := new_params st;
     loss_array := loss_array st |}.

Definition initial_state (aux : gmap string R) : search_state :=
  {| aux_params := aux;
     aux_writes := [];
     loss := F_fin 0;
     best_guess_index := 0%nat;
     new_params := None;
     loss_array := [] |}.

Section OuterSearch.

(** [scipy_optimize] runs scipy's minimisers on the objective: library code,
    taken as a function of what it is given.  It reads [aux_parameters] and
    returns the fitted parameters and their loss. *)
Variable scipy_optimize :
  list R → list R → gmap string R → list R → list R * np_float.
Variables optimization_X optimization_Y parameter_guess : list R.
Variables guess_dt guess_cvert : list R.

(** The body of [for index in range(0, len(guess_dt))]. *)
Definition search_body (st : search_state) (index : nat)
    : option search_state :=
  dt ← guess_dt !! index;
  let st := set_aux "dt" dt st in
  cvert ← guess_cvert !! index;
  let st := set_aux "cvert" cvert st in
  let '(guess_params, guess_loss) :=
    scipy_optimize optimization_X optimization_Y (aux_params st)
                   parameter_guess in
  let loss_array' := loss_array st ++ [(dt, guess_loss)] in
  if np_eq0 (loss st) || np_lt guess_loss (loss st) then
    Some {| aux_params := aux_params st;
            aux_writes := aux_writes st;
            loss := guess_loss;
            best_guess_index := index;
            new_params := Some guess_params;
            loss_array := loss_array' |}
  else
    Some {| aux_params := aux_params st;
            aux_writes := aux_writes st;
            loss := loss st;
            best_guess_index := best_guess_index st;
            new_params := new_params st;
            loss_array := loss_array' |}.

Fixpoint search_loop (indices : list nat) (st : search_state)
    : option search_state :=
  match indices with
  | [] => Some st
  | index :: rest => st' ← search_body st index; search_loop rest st'
  end.

(** The state after the first [n] iterations of the loop. *)
Definition search_upto (n : nat) (aux : gmap string R)
    : option search_state :=
  search_loop (seq 0 n) (initial_state aux).

Definition outer_search (aux : gmap string R) : option search_state :=
  search_upto (length guess_dt) aux.

(** Lines 329-335: the winning candidate is written back, then the
    asymptote and [bt]. *)
Definition finish (st : search_state) : outcome search_state :=
  dt ← of_option (guess_dt !! best_guess_index st);
  let st := set_aux "dt" dt st in
  cvert ← of_option (guess_cvert !! best_guess_index st);
  let st := set_aux "cvert" cvert st in
  params ← of_option (new_params st);
  asymptote_Y ← getAsymtote_Y params (aux_params st);
  left ← of_option (aux_params st !! "optimization_left_cutoff");
  v ← of_option (saturation_function left params (aux_params st));
  Returns (set_aux "bt" (asymptote_Y - v) st).

End OuterSearch.

(** The search from the dt window on: down-sampling, loop, write-back. *)
Definition run
    (scipy_optimize :
       list R → list R → gmap string R → list R → list R * np_float)
    (optimization_X optimization_Y parameter_guess : list R)
    (span_dt span_cvert : list R) (aux : gmap string R)
    : outcome search_state :=
  '(guess_dt, guess_cvert) ← of_option (downsample span_dt span_cvert);
  st ← of_option (outer_search scipy_optimize optimization_X optimization_Y
                               parameter_guess guess_dt guess_cvert aux);
  finish guess_dt guess_cvert st.

End Search.

(** The search in the words of the specification. *)
Module SpecSearch.

(** The auxiliary parameters a candidate (dt, cvert) is fitted under. *)
Definition candidate_aux (aux : gmap string R) (dt cvert : R)
    : gmap string R :=
  <["cvert" := cvert]> (<["dt" := dt]> aux).

(** The fit of candidate [i]: its parameters and its loss. *)
Definition fit_at
    (scipy_optimize :
       list R → list R → gmap string R → list R → list R * np_float)
    (optimization_X optimization_Y parameter_guess : list R)
    (guess_dt guess_cvert : list R) (aux : gmap string R) (i : nat)
    : option (list R * np_float) :=
  dt ← guess_dt !! i;
  cvert ← guess_cvert !! i;
  Some (scipy_optimize optimization_X optimization_Y
          (candidate_aux aux dt cvert) parameter_guess).

(** The loss of candidate [i]. *)
Definition loss_at
    (scipy_optimize :
       list R → list R → gmap string R → list R → list R * np_float)
    (optimization_X optimization_Y parameter_guess : list R)
    (guess_dt guess_cvert : list R) (aux : gmap string R) (i : nat)
    : option np_float :=
  snd <$> fit_at scipy_optimize optimization_X optimization_Y
            parameter_guess guess_dt guess_cvert aux i.

(** The loop variables after candidate [index] = (dt, cvert), fitted to
    parameters [p] with loss [l], has been treated in state [st]. *)
Definition after_candidate (aux : gmap string R) (st : Search.search_state)
    (index : nat) (dt cvert : R) (p : list R) (l : np_float)
    : Search.search_state :=
  let adopt := np_eq0 (Search.loss st) || np_lt l (Search.loss st) in
  {| Search.aux_params := candidate_aux aux dt cvert;
     Search.aux_writes := Search.aux_writes st ++ ["dt"; "cvert"];
     Search.loss := if adopt then l else Search.loss st;
     Search.best_guess_index :=
       if adopt then index else Search.best_guess_index st;
     Search.new_params := if adopt then Some p else Search.new_params st;
     Search.loss_array := Search.loss_array st ++ [(dt, l)] |}.

(** [k] is the index of a minimum among the first [n] losses, the lowest
    such index; a NaN loss is no number and takes no part in the
    comparison. *)
Definition first_minimum (loss_at : nat → option np_float) (n k : nat)
    : Prop :=
  (k < n)%nat ∧
  ∃ lk, loss_at k = Some lk ∧ is_nan lk = false ∧
    ∀ j lj, (j < n)%nat → loss_at j = Some lj → is_nan lj = false →
      np_lt lj lk = false ∧ ((j < k)%nat → np_lt lk lj = true).

(** The auxiliary entries the search is not to touch. *)
Definition frame_keys : list string :=
  ["c3"; "r"; "dt_min"; "dt_max"; "optimization_left_cutoff";
   "optimization_right_cutoff"; "graph_left_cutoff"; "graph_right_cutoff"].

End SpecSearch.

(** Fits used to run the search on concrete candidates: the loss is read
    off the dt the candidate is fitted under. *)
Module Examples.

(** loss = dt *)
Definition fit_loss_is_dt
    (X Y : list R) (aux : gmap string R) (p : list R) : list R * np_float :=
  (p, F_fin (default 0 (aux !! "dt"))).

(** loss = NaN at dt = 0, 1 elsewhere *)
Definition fit_nan_at_0
    (X Y : list R) (aux : gmap string R) (p : list R) : list R * np_float :=
  (p, if Req_dec_T (default 0 (aux !! "dt")) 0 then F_nan else F_fin 1).

(** loss = 0 at dt = 0, NaN at dt = 1, 1 elsewhere *)
Definition fit_0_then_nan
    (X Y : list R) (aux : gmap string R) (p : list R) : list R * np_float :=
  (p, if Req_dec_T (default 0 (aux !! "dt")) 0 then F_fin 0
      else if Req_dec_T (default 0 (aux !! "dt")) 1 then F_nan
      else F_fin 1).

(** loss = +infinity at dt = 0, NaN at dt = 1, dt - 2 elsewhere *)
Definition fit_inf_nan_then_dt
    (X Y : list R) (aux : gmap string R) (p : list R) : list R * np_float :=
  (p, if Req_dec_T (default 0 (aux !! "dt")) 0 then F_pinf
      else if Req_dec_T (default 0 (aux !! "dt")) 1 then F_nan
      else F_fin (default 0 (aux !! "dt") - 2)).

(** A parser that accepts every string, as the number 1. *)
Definition parse_any (s : string) : option R := Some 1.

(** A parameter file with the eight auxiliary keys. *)
Definition complete_file : list string :=
  ["# parameters"; "dt_min = 1"; "dt_max = 1"; "C3 = 1"; "r = 1";
   "graph_left_cutoff = 1"; "graph_right_cutoff = 1";
   "optimization_left_cutoff = 1"; "optimization_right_cutoff = 1"].

End Examples.

(** ** Reading the parameter file (NoProb.py, lines 149-193) *)

Module Params.

(** Python 2 byte strings: the methods the reader uses. *)

(** The characters [str.strip()] removes: tab, newline, vertical tab, form
    feed, carriage return, space. *)
Definition is_space (c : ascii) : bool :=
  match nat_of_ascii c with
  | 9 | 10 | 11 | 12 | 13 | 32 => true
  | _ => false
  end%nat.

Definition lower_char (c : ascii) : ascii :=
  let n := nat_of_ascii c in
  if (65 <=? n)%nat && (n <=? 90)%nat then ascii_of_nat (n + 32) else c.

Fixpoint lower (s : string) : string :=
  match s with
  | EmptyString => EmptyString
  | String c s' => String (lower_char c) (lower s')
  end.

Fixpoint lstrip (s : string) : string :=
  match s with
  | EmptyString => EmptyString
  | String c s' => if is_space c then lstrip s' else s
  end.

Fixpoint string_rev (s : string) : string :=
  match s with
  | EmptyString => EmptyString
  | String c s' => String.append (string_rev s') (String c EmptyString)
  end.

Definition strip (s : string) : string :=
  string_rev (lstrip (string_rev (lstrip s))).

(** [s.split(sep)] for a one-character separator: never the empty list. *)
Fixpoint split (sep : ascii) (s : string) : list string :=
  match s with
  | EmptyString => [EmptyString]
  | String c s' =>
    if Ascii.eqb c sep then EmptyString :: split sep s'
    else match split sep s' with
         | h :: t => String c h :: t
         | [] => [String c EmptyString]
         end
  end.

Definition startswith (p s : string) : bool := String.prefix p s.

(** [l.index(x)] *)
Fixpoint index (x : string) (l : list string) : option nat :=
  match l with
  | [] => None
  | y :: l' => if decide (x = y) then Some 0%nat else S <$> index x l'
  end.

Definition TUNED_PARAMS : list string := ["k1"; "n0"; "n1"; "n2"].

Definition USER_DEFINED_PARAMS : gset string :=
  list_to_set ["dt_min"; "dt_max"; "c3"; "r"; "graph_left_cutoff";
               "graph_right_cutoff"; "optimization_left_cutoff";
               "optimization_right_cutoff"].

(** A line the reader skips: a comment or a blank line. *)
Definition skipped (line : string) : bool :=
  startswith "#" line || (String.length (strip line) =? 0)%nat.

(** [row = [item.strip() for item in line.split("=")]] *)
Definition row_of (line : string) : list string :=
  strip <$> split "="%char line.

(** [row[0].lower().strip()] *)
Definition key_of (line : string) : option string :=
  r0 ← row_of line !! 0%nat; Some (strip (lower r0)).

Section Reader.

(** [np.float64] on a string: the parsed number, or [None] for the
    [ValueError] of a string that is no number. *)
Variable np_float64 : string → option R.

(** The body of [for line in fp], on the pair ([parameters], [d]). *)
Definition read_line (st : list R * gmap string R) (line : string)
    : outcome (list R * gmap string R) :=
  let '(parameters, d) := st in
  if skipped line then Returns st
  else
    let row := row_of line in
    r0 ← of_option (row !! 0%nat);
    if decide (strip (lower r0) ∈ TUNED_PARAMS) then
      i ← of_option (index (lower (strip r0)) TUNED_PARAMS);
      r1 ← of_option (row !! 1%nat);
      v ← of_option (np_float64 (strip r1));
      Returns (<[i := v]> parameters, d)
    else if decide (strip (lower r0) ∈ USER_DEFINED_PARAMS) then
      r1 ← of_option (row !! 1%nat);
      v ← of_option (np_float64 (strip r1));
      Returns (parameters, <[strip (lower r0) := v]> d)
    else SysExit 1.

Fixpoint read_lines (lines : list string) (st : list R * gmap string R)
    : outcome (list R * gmap string R) :=
  match lines with
  | [] => Returns st
  | line :: rest => st' ← read_line st line; read_lines rest st'
  end.

(** [while user_in not in ["y", "n"]: user_in = raw_input(...)], on the
    lines still to come on standard input. *)
Fixpoint confirm (stdin : list string) : outcome string :=
  match stdin with
  | [] => Uncaught
  | user_in :: rest =>
    if decide (user_in ∈ ["y"; "n"]) then Returns user_in else confirm rest
  end.

Definition read_parameters_from_file (fp : list string) (stdin : list string)
    : outcome (list R * gmap string R) :=
  let parameters := replicate (length TUNED_PARAMS) 0 in
  let d : gmap string R := ∅ in
  '(parameters, d) ← read_lines fp (parameters, d);
  let missing_keys := USER_DEFINED_PARAMS ∖ dom d in
  if decide (0 < size missing_keys)%nat then SysExit 1
  else
    user_in ← confirm stdin;
    if decide (user_in = "y") then Returns (parameters, d) else SysExit 1.

End Reader.

(** The lines of a file the reader does not skip. *)
Definition data_lines (fp : list string) : list string :=
  filter (λ line, skipped line = false) fp.

(** The keys a file presents: those of its data lines. *)
Definition present_keys (fp : list string) : list string :=
  omap key_of (data_lines fp).

(** A key of the tunable or of the auxiliary set. *)
Definition recognised (k : string) : Prop :=
  k ∈ TUNED_PARAMS ∨ k ∈ USER_DEFINED_PARAMS.

(** A line with a second field that parses as a number. *)
Definition has_value (np_float64 : string → option R) (line : string)
    : Prop :=
  ∃ r1 v, row_of line !! 1%nat = Some r1 ∧ np_float64 (strip r1) = Some v.

End Params.


(** ** Loading and trimming the data (NoProb.py, lines 212-247) *)

Module Data.

(** [np.where(cond)] on a one-dimensional array: the indices at which the
    condition holds, in increasing order, counted from [i]. *)
Fixpoint where_from (i : nat) (cond : R → bool) (X : list R) : list nat :=
  match X with
  | [] => []
  | x :: X' =>
    if cond x then i :: where_from (S i) cond X'
    else where_from (S i) cond X'
  end.

Definition np_where (cond : R → bool) (X : list R) : list nat :=
  where_from 0 cond X.

(** [A[indices]]: an index past the end of [A] is an [IndexError]. *)
Definition np_index (A : list R) (indices : list nat) : option (list R) :=
  mapM (λ i, A !! i) indices.

(** [x >= cutoff] and [x <= cutoff] *)
Definition ge_cutoff (cutoff x : R) : bool :=
  if Rge_dec x cutoff then true else false.

Definition le_cutoff (cutoff x : R) : bool :=
  if Rle_dec x cutoff then true else false.

Definition trim_data (X Y : list R) (left_cutoff right_cutoff : R)
    : option (list R * list R) :=
  new_Y ← np_index Y (np_where (ge_cutoff left_cutoff) X);
  new_X ← np_index X (np_where (ge_cutoff left_cutoff) X);
  new_Y' ← np_index new_Y (np_where (le_cutoff right_cutoff) new_X);
  new_X' ← np_index new_X (np_where (le_cutoff right_cutoff) new_X);
  Some (new_X', new_Y').

Section Loader.

(** [np.float64] on a string, as in the parameter reader. *)
Variable np_float64 : string → option R.

(** The loop [for row in reader] of [load_data], on the rows the csv reader
    still has to deliver; a row is the list of its fields. *)
Fixpoint load_rows (rows : list (list string)) (header : bool)
    (time f5 : list R) : option (list R * list R) :=
  match rows with
  | [] => Some (time, f5)
  | row :: rest =>
    if header then load_rows rest false time f5
    else
      r0 ← row !! 0%nat;
      t ← np_float64 r0;
      let time := time ++ [t] in
      r1 ← row !! 1%nat;
      v ← np_float64 r1;
      load_rows rest false time (f5 ++ [v])
  end.

Definition load_data (rows : list (list string)) : option (list R * list R) :=
  let time := [] in
  let f5 := [] in
  let header := true in
  load_rows rows header time f5.

End Loader.

End Data.

(** The trimmed view in the words of the specification: the samples whose
    time lies in the closed range, in their order. *)
Module SpecData.

Definition in_range (left_cutoff right_cutoff : R) (s : R * R) : bool :=
  Data.ge_cutoff left_cutoff (fst s) && Data.le_cutoff right_cutoff (fst s).

Definition samples_in_range (X Y : list R) (left_cutoff right_cutoff : R)
    : list (R * R) :=
  filter (λ s, in_range left_cutoff right_cutoff s = true) (zip X Y).

End SpecData.

(** ** The program from the loaded data on (NoProb.py, lines 279-335) *)

Module Main.
Import Data Search.

Definition main
    (scipy_optimize :
       list R → list R → gmap string R → list R → list R * np_float)
    (raw_X raw_Y parameter_guess : list R) (aux_params : gmap string R)
    : outcome search_state :=
  ol ← of_option (aux_params !! "optimization_left_cutoff");
  or ← of_option (aux_params !! "optimization_right_cutoff");
  '(optimization_X, optimization_Y) ←
    of_option (trim_data raw_X raw_Y ol or);
  gl ← of_option (aux_params !! "graph_left_cutoff");
  gr ← of_option (aux_params !! "graph_right_cutoff");
  '(display_X, display_Y) ← of_option (trim_data raw_X raw_Y gl gr);
  dmin ← of_option (aux_params !! "dt_min");
  dmax ← of_option (aux_params !! "dt_max");
  '(span_dt, span_cvert) ← of_option (trim_data raw_X raw_Y dmin dmax);
  run scipy_optimize optimization_X optimization_Y parameter_guess
      span_dt span_cvert aux_params.

End Main.


(** A complete input on which the program runs to its end: 201 samples at
    the times 100, 101, ..., 300 with the values 0, 1, ..., 200, every cutoff
    window holding all of them, and a fit that returns the parameters
    (1, 1, 1, 1) with loss 1. *)
Module ExampleRun.

Definition fit_ones (X Y : list R) (aux : gmap string R) (p : list R)
    : list R * np_float :=
  ([1; 1; 1; 1], F_fin 1).

Definition raw_X : list R := (λ i, 100 + INR i) <$> seq 0 201.
Definition raw_Y : list R := INR <$> seq 0 201.

Definition aux_params : gmap string R :=
  <["c3" := 0]> (<["r" := 0]> (<["dt_min" := 0]> (<["dt_max" := 400]>
  (<["optimization_left_cutoff" := 0]>
  (<["optimization_right_cutoff" := 400]>
  (<["graph_left_cutoff" := 0]> (<["graph_right_cutoff" := 400]> ∅))))))).

End ExampleRun.

(** * Theorems *)

Import Model.
Lemma mk_aux_has dt c3 cvert r : aux_has (mk_aux dt c3 cvert r) dt c3 cvert r.
Proof. unfold aux_has, mk_aux. repeat split; by simplify_map_eq. Qed.


Lemma saturation_function_value aux dt c3 cvert r K1 N0 N1 N2 t :
  aux_has aux dt c3 cvert r →
  saturation_function t [K1; N0; N1; N2] aux =
  Some (-1 * ((1 / K1) * (1 - exp (-1 * (t - dt) / (N0 / K1))) + (t - dt) / N1)
        * (1 / (1 + c3 * exp ((- t + dt) * r)))
        + ((t - dt) / N2 + cvert)).
Proof.
  intros (Hdt & Hc3 & Hcv & Hr).
  unfold saturation_function, mod_maxwell, s_curve, steady.
  simpl. rewrite Hdt, Hc3, Hcv, Hr. simpl. reflexivity.
Qed.

(** C2: with K1, N0, N1, N2 nonzero, [saturation_function] returns
    relaxation(t) * gate(t) + drift(t) with the three terms as the
    specification writes them. *)
Theorem saturation_function_formula aux dt c3 cvert r K1 N0 N1 N2 t :
  aux_has aux dt c3 cvert r →
  K1 ≠ 0 → N0 ≠ 0 → N1 ≠ 0 → N2 ≠ 0 →
  saturation_function t [K1; N0; N1; N2] aux =
  Some (SpecFormula.relaxation K1 N0 N1 dt t * SpecFormula.gate c3 r dt t
        + SpecFormula.drift N2 dt cvert t).
Proof.
  intros Haux HK1 HN0 HN1 HN2.
  rewrite (saturation_function_value _ _ _ _ _ _ _ _ _ _ Haux).
  unfold SpecFormula.relaxation, SpecFormula.gate, SpecFormula.drift.
  f_equal.
  replace (-1 * (t - dt) / (N0 / K1)) with (- (t - dt) / (N0 / K1)) by lra.
  replace ((- t + dt) * r) with (- r * (t - dt)) by lra.
  lra.
Qed.

Lemma saturation_function_formula_witness :
  saturation_function 0 [1; 1; 1; 1] (mk_aux 1 1 0 0) =
  Some (SpecFormula.relaxation 1 1 1 1 0 * SpecFormula.gate 1 0 1 0
        + SpecFormula.drift 1 1 0 0).
Proof.
  apply (saturation_function_formula _ 1 1 0 0 1 1 1 1 0);
    [apply mk_aux_has | lra | lra | lra | lra].
Defined.
Section Derivatives.
Implicit Types (f g : R → R) (x l : R).

Lemma dlim_ext f g x l :
  (∀ y, f y = g y) → derivable_pt_lim f x l → derivable_pt_lim g x l.
Proof.
  intros E D eps Heps. destruct (D eps Heps) as [delta Hd].
  exists delta. intros h Hh Hlt. rewrite <- !E. by apply Hd.
Qed.

Lemma dlim_val f x l l' :
  derivable_pt_lim f x l → l = l' → derivable_pt_lim f x l'.
Proof. by intros D <-. Qed.

Lemma dlim_const c x : derivable_pt_lim (λ _, c) x 0.
Proof. exact (derivable_pt_lim_const c x). Qed.

Lemma dlim_id x : derivable_pt_lim (λ y, y) x 1.
Proof. exact (derivable_pt_lim_id x). Qed.

Lemma dlim_plus f g x a b :
  derivable_pt_lim f x a → derivable_pt_lim g x b →
  derivable_pt_lim (λ y, f y + g y) x (a + b).
Proof. exact (derivable_pt_lim_plus f g x a b). Qed.

Lemma dlim_minus f g x a b :
  derivable_pt_lim f x a → derivable_pt_lim g x b →
  derivable_pt_lim (λ y, f y - g y) x (a - b).
Proof. exact (derivable_pt_lim_minus f g x a b). Qed.

Lemma dlim_opp f x a :
  derivable_pt_lim f x a → derivable_pt_lim (λ y, - f y) x (- a).
Proof. exact (derivable_pt_lim_opp f x a). Qed.

Lemma dlim_mult f g x a b :
  derivable_pt_lim f x a → derivable_pt_lim g x b →
  derivable_pt_lim (λ y, f y * g y) x (a * g x + f x * b).
Proof. exact (derivable_pt_lim_mult f g x a b). Qed.

Lemma dlim_div f g x a b :
  derivable_pt_lim f x a → derivable_pt_lim g x b → g x ≠ 0 →
  derivable_pt_lim (λ y, f y / g y) x ((a * g x - b * f x) / Rsqr (g x)).
Proof. exact (derivable_pt_lim_div f g x a b). Qed.

Lemma dlim_exp f x a :
  derivable_pt_lim f x a → derivable_pt_lim (λ y, exp (f y)) x (exp (f x) * a).
Proof.
  intros D.
  exact (derivable_pt_lim_comp f exp x a (exp (f x)) D
           (derivable_pt_lim_exp (f x))).
Qed.

End Derivatives.

Ltac dlim_step :=
  first
    [ apply dlim_const
    | apply dlim_id
    | eapply dlim_exp
    | eapply dlim_div
    | eapply dlim_plus
    | eapply dlim_minus
    | eapply dlim_opp
    | eapply dlim_mult ].


Lemma Rdiv_neq_0 a b : a ≠ 0 → b ≠ 0 → a / b ≠ 0.
Proof.
  intros Ha Hb. unfold Rdiv.
  apply Rmult_integral_contrapositive_currified; [done|].
  by apply Rinv_neq_0_compat.
Qed.

Lemma exp_arg_relax K1 N0 a : K1 ≠ 0 → N0 ≠ 0 →
  exp (-1 * a / (N0 / K1)) = exp (K1 * (- a) / N0).
Proof. intros. f_equal. by field. Qed.



Section Partials.
Variables K1 N0 N1 N2 dt c3 cvert r t : R.
Hypotheses (HK1 : K1 ≠ 0) (HN0 : N0 ≠ 0) (HN1 : N1 ≠ 0) (HN2 : N2 ≠ 0).
Hypothesis Hgate : 1 + c3 * exp ((- t + dt) * r) ≠ 0.

Local Ltac finish_field :=
  simpl; unfold Rsqr;
  rewrite ?exp_arg_relax by assumption;
  replace (K1 * - (t - dt) / N0) with (K1 * (dt - t) / N0) by lra;
  replace (r * (dt - t)) with ((- t + dt) * r) by lra;
  field; repeat split; first [assumption | lra].

Lemma dsat_dK1 :
  derivable_pt_lim
    (λ x, -1 * ((1 / x) * (1 - exp (-1 * (t - dt) / (N0 / x))) + (t - dt) / N1)
          * (1 / (1 + c3 * exp ((- t + dt) * r)))
          + ((t - dt) / N2 + cvert)) K1
    (((1 - exp (K1 * (dt - t) / N0)) / K1 ^ 2
      - (t - dt) * exp (K1 * (dt - t) / N0) / (K1 * N0))
     * (1 / (1 + c3 * exp ((- t + dt) * r)))).
Proof.
  eapply dlim_val.
  - repeat dlim_step; [done | done | by apply Rdiv_neq_0].
  - finish_field.
Qed.

Lemma dsat_dN0 :
  derivable_pt_lim
    (λ x, -1 * ((1 / K1) * (1 - exp (-1 * (t - dt) / (x / K1))) + (t - dt) / N1)
          * (1 / (1 + c3 * exp ((- t + dt) * r)))
          + ((t - dt) / N2 + cvert)) N0
    (- (dt - t) * exp ((K1 * (dt - t)) / N0)
     / ((N0 ^ 2) * (c3 * exp (r * (dt - t)) + 1))).
Proof.
  eapply dlim_val.
  - repeat dlim_step; [done | by apply Rdiv_neq_0].
  - finish_field.
Qed.

Lemma dsat_dN1 :
  derivable_pt_lim
    (λ x, -1 * ((1 / K1) * (1 - exp (-1 * (t - dt) / (N0 / K1))) + (t - dt) / x)
          * (1 / (1 + c3 * exp ((- t + dt) * r)))
          + ((t - dt) / N2 + cvert)) N1
    ((t - dt) / ((N1 ^ 2) * (c3 * exp (r * (dt - t)) + 1))).
Proof.
  eapply dlim_val.
  - repeat dlim_step. done.
  - finish_field.
Qed.

Lemma dsat_dN2 :
  derivable_pt_lim
    (λ x, -1 * ((1 / K1) * (1 - exp (-1 * (t - dt) / (N0 / K1))) + (t - dt) / N1)
          * (1 / (1 + c3 * exp ((- t + dt) * r)))
          + ((t - dt) / x + cvert)) N2
    ((dt - t) / (N2 ^ 2)).
Proof.
  eapply dlim_val.
  - repeat dlim_step. done.
  - finish_field.
Qed.

End Partials.

(** ** The gradient of the model against its partial derivatives *)

Lemma get_saturation_gradient_value aux dt c3 cvert r K1 N0 N1 N2 t :
  aux_has aux dt c3 cvert r →
  get_saturation_gradient t [K1; N0; N1; N2] aux =
  Some [ (-1 / (c3 * exp (r * (dt - t))))
         * ((((dt - t) * exp ((- K1 * (dt - t)) / N1)) / (K1 * N1))
            - (1 - exp ((- K1 * (dt - t)) / N1)) / K1 ^ 2);
         - (dt - t) * exp ((K1 * (dt - t)) / N0)
         / ((N0 ^ 2) * (c3 * exp (r * (dt - t)) + 1));
         (t - dt) / ((N1 ^ 2) * (c3 * exp (r * (dt - t)) + 1));
         (dt - t) / (N2 ^ 2) ].
Proof.
  intros (Hdt & Hc3 & Hcv & Hr). unfold get_saturation_gradient.
  simpl. rewrite Hdt, Hc3, Hcv, Hr. reflexivity.
Qed.

Local Abbreviation sat := model_value.

Section GradientExact.
Variables (aux : gmap string R) (dt c3 cvert r K1 N0 N1 N2 t : R).
Hypothesis Haux : aux_has aux dt c3 cvert r.
Hypotheses (HK1 : K1 ≠ 0) (HN0 : N0 ≠ 0) (HN1 : N1 ≠ 0) (HN2 : N2 ≠ 0).
Hypothesis Hgate : 1 + c3 * exp ((- t + dt) * r) ≠ 0.

Local Ltac to_closed_form :=
  eapply dlim_ext;
  [ intros y; symmetry; unfold model_value;
    rewrite (saturation_function_value _ _ _ _ _ _ _ _ _ _ Haux);
    reflexivity | ].

(** The derivative of the model in K1, in closed form. *)
Lemma saturation_dK1 :
  derivable_pt_lim (λ x, sat t [x; N0; N1; N2] aux) K1
    (((1 - exp (K1 * (dt - t) / N0)) / K1 ^ 2
      - (t - dt) * exp (K1 * (dt - t) / N0) / (K1 * N0))
     * (1 / (1 + c3 * exp ((- t + dt) * r)))).
Proof. to_closed_form. by apply dsat_dK1. Qed.

(** The components df_dN0, df_dN1 and df_dN2 of [get_saturation_gradient]
    are the partial derivatives of [saturation_function]. *)
Lemma gradient_N_components_exact :
  ∃ g0 g1 g2 g3,
    get_saturation_gradient t [K1; N0; N1; N2] aux = Some [g0; g1; g2; g3] ∧
    derivable_pt_lim (λ x, sat t [K1; x; N1; N2] aux) N0 g1 ∧
    derivable_pt_lim (λ x, sat t [K1; N0; x; N2] aux) N1 g2 ∧
    derivable_pt_lim (λ x, sat t [K1; N0; N1; x] aux) N2 g3.
Proof.
  rewrite (get_saturation_gradient_value _ _ _ _ _ _ _ _ _ _ Haux).
  do 4 eexists. split; [reflexivity|]. repeat split.
  - to_closed_form. by apply dsat_dN0.
  - to_closed_form. by apply dsat_dN1.
  - to_closed_form. by apply dsat_dN2.
Qed.

End GradientExact.

Lemma exp_1_lt_4 : exp 1 < 4.
Proof. pose proof exp_le_3. lra. Qed.

Lemma exp_m1_bounds : / 3 <= exp (-1) ∧ exp (-1) < 1.
Proof.
  split.
  - replace (-1) with (- (1)) by lra. rewrite exp_Ropp.
    pose proof exp_le_3. pose proof (exp_pos 1).
    apply Rinv_le_contravar; lra.
  - rewrite <- exp_0. apply exp_increasing. lra.
Qed.

(** C1: at t = 0, (K1, N0, N1, N2) = (1, 1, 1, 1), dt = 1, c3 = 1,
    cvert = 0, r = 0 the first component of [get_saturation_gradient] is
    1 - 2 exp(-1), while the partial derivative of [saturation_function] in
    K1 is 1/2: the df_dK1 component is not the derivative. *)
Theorem gradient_K1_component_differs :
  ∃ g0 g1 g2 g3,
    get_saturation_gradient 0 [1; 1; 1; 1] (mk_aux 1 1 0 0)
      = Some [g0; g1; g2; g3] ∧
    g0 = 1 - 2 * exp (-1) ∧
    derivable_pt_lim (λ x, sat 0 [x; 1; 1; 1] (mk_aux 1 1 0 0)) 1 (1 / 2) ∧
    g0 ≠ 1 / 2.
Proof.
  rewrite (get_saturation_gradient_value _ _ _ _ _ _ _ _ _ _
             (mk_aux_has 1 1 0 0)).
  do 4 eexists. split; [reflexivity|].
  assert (E : (-1 / (1 * exp (0 * (1 - 0))))
         * ((((1 - 0) * exp ((- (1) * (1 - 0)) / 1)) / (1 * 1))
            - (1 - exp ((- (1) * (1 - 0)) / 1)) / 1 ^ 2) = 1 - 2 * exp (-1)).
  { replace (0 * (1 - 0)) with 0 by lra. rewrite exp_0.
    replace (- (1) * (1 - 0) / 1) with (-1) by lra. lra. }
  split; [exact E|]. split.
  - eapply dlim_val.
    + apply (saturation_dK1 _ 1 1 0 0 1 1 1 1 0 (mk_aux_has 1 1 0 0));
        try lra.
      replace ((- 0 + 1) * 0) with 0 by lra. rewrite exp_0. lra.
    + replace ((- 0 + 1) * 0) with 0 by lra. rewrite exp_0.
      replace (1 * (1 - 0) / 1) with 1 by lra. lra.
  - rewrite E. pose proof exp_m1_bounds. lra.
Qed.

(** ** The logistic gate *)



(** *** The gate in float64 *)




(** ** The objective and its gradient *)

Section ObjectiveLemmas.
Import Numpy Objective SpecObjective.

Lemma over_times_Some {A} (f : R → option A) (g : R → A) (X : list R) :
  (∀ t, f t = Some (g t)) → over_times f X = Some (g <$> X).
Proof.
  intros H. unfold over_times. rewrite H. simpl.
  induction X as [|x X IH]; [done|].
  simpl. rewrite H. simpl. by rewrite IH.
Qed.

Lemma np_binop_same_length f (a b : list R) :
  length a = length b → np_binop f a b = Some (zip_with f a b).
Proof. intros H. unfold np_binop. by case_decide. Qed.

Lemma sum_upto_ext n f g :
  (∀ i, (i < n)%nat → f i = g i) → sum_upto n f = sum_upto n g.
Proof.
  induction n as [|n IH]; intros H; [done|].
  simpl. rewrite IH by (intros; apply H; lia). by rewrite H by lia.
Qed.

Lemma sum_upto_shift n f :
  sum_upto (S n) f = f 0%nat + sum_upto n (λ i, f (S i)).
Proof.
  induction n as [|n IH]; [simpl; lra|].
  change (sum_upto (S (S n)) f) with (sum_upto (S n) f + f (S n)).
  rewrite IH. simpl. lra.
Qed.

Lemma np_sum_sum_upto (l : list R) :
  np_sum l = sum_upto (length l) (λ i, nth i l 0).
Proof.
  induction l as [|x l IH]; [done|].
  change (length (x :: l)) with (S (length l)).
  rewrite sum_upto_shift. simpl. by rewrite IH.
Qed.

Lemma nth_zip_with (f : R → R → R) (a b : list R) i :
  length a = length b → (i < length a)%nat →
  nth i (zip_with f a b) 0 = f (nth i a 0) (nth i b 0).
Proof.
  revert b i. induction a as [|x a IH]; intros [|y b] i Hl Hi;
    simpl in *; try lia.
  destruct i; [done|]. apply IH; lia.
Qed.

Lemma nth_fmap (f : R → R) (a : list R) i :
  (i < length a)%nat → nth i (f <$> a) 0 = f (nth i a 0).
Proof.
  revert i. induction a as [|x a IH]; intros i Hi; simpl in *; [lia|].
  destruct i; [done|]. apply IH; lia.
Qed.

Lemma saturation_function_arr_value aux dt c3 cvert r K1 N0 N1 N2 X :
  aux_has aux dt c3 cvert r →
  saturation_function_arr X [K1; N0; N1; N2] aux =
  Some ((λ t, model_value t [K1; N0; N1; N2] aux) <$> X).
Proof.
  intros Haux. apply over_times_Some. intros t. unfold model_value.
  by rewrite (saturation_function_value _ _ _ _ _ _ _ _ _ _ Haux).
Qed.

(** [get_obj_function] returns the sum of squared residuals. *)
Lemma get_obj_function_value aux dt c3 cvert r K1 N0 N1 N2 X Y :
  aux_has aux dt c3 cvert r → length X = length Y →
  get_obj_function X Y aux [K1; N0; N1; N2] =
  Some (residual_sum (λ t, model_value t [K1; N0; N1; N2] aux) X Y).
Proof.
  intros Haux Hlen. unfold get_obj_function.
  rewrite (saturation_function_arr_value _ _ _ _ _ _ _ _ _ _ Haux). simpl.
  unfold np_sub. rewrite np_binop_same_length by by rewrite length_fmap.
  simpl. f_equal. rewrite np_sum_sum_upto. unfold residual_sum, np_pow.
  rewrite length_fmap, length_zip_with, length_fmap, <- Hlen, Nat.min_id.
  apply sum_upto_ext. intros i Hi.
  rewrite nth_fmap by (rewrite length_zip_with, length_fmap; lia).
  rewrite nth_zip_with by (rewrite ?length_fmap; lia).
  by rewrite nth_fmap by lia.
Qed.

Lemma get_saturation_gradient_arr_value aux dt c3 cvert r K1 N0 N1 N2 X :
  aux_has aux dt c3 cvert r →
  get_saturation_gradient_arr X [K1; N0; N1; N2] aux =
  Some ((λ k, (λ t, gradient_component k t [K1; N0; N1; N2] aux) <$> X)
        <$> [0; 1; 2; 3]%nat).
Proof.
  intros Haux. unfold get_saturation_gradient_arr.
  rewrite (over_times_Some _
    (λ t, default [] (get_saturation_gradient t [K1; N0; N1; N2] aux))).
  2:{ intros t.
      by rewrite (get_saturation_gradient_value _ _ _ _ _ _ _ _ _ _ Haux). }
  simpl. unfold gradient_component.
  by rewrite <- !list_fmap_compose.
Qed.

Lemma obj_grad_entry_value aux dt c3 cvert r K1 N0 N1 N2 X Y grad k :
  aux_has aux dt c3 cvert r → length X = length Y →
  grad !! k
    = Some ((λ t, gradient_component k t [K1; N0; N1; N2] aux) <$> X) →
  obj_grad_entry X Y [K1; N0; N1; N2] aux grad k =
  Some (gradient_sum (λ t, model_value t [K1; N0; N1; N2] aux)
          (λ t, gradient_component k t [K1; N0; N1; N2] aux) X Y).
Proof.
  intros Haux Hlen Hrow. unfold obj_grad_entry. rewrite Hrow. simpl.
  unfold np_mul, np_add, np_scale.
  rewrite np_binop_same_length by (rewrite !length_fmap; lia). simpl.
  rewrite (saturation_function_arr_value _ _ _ _ _ _ _ _ _ _ Haux). simpl.
  rewrite np_binop_same_length by (rewrite !length_fmap; lia). simpl.
  rewrite np_binop_same_length
    by (rewrite !length_zip_with, !length_fmap; lia).
  simpl. f_equal. rewrite np_sum_sum_upto. unfold gradient_sum.
  rewrite !length_zip_with, !length_fmap, <- Hlen, !Nat.min_id.
  apply sum_upto_ext. intros i Hi.
  rewrite nth_zip_with
    by (rewrite ?length_zip_with, ?length_fmap; lia).
  rewrite !nth_zip_with by (rewrite ?length_fmap; lia).
  rewrite !nth_fmap by (rewrite ?length_fmap; lia).
  reflexivity.
Qed.

(** [get_gradient] returns, for each tunable parameter, the sum over the
    samples of -2 Y_i g + 2 M(X_i) g, with g the component of
    [get_saturation_gradient] for that parameter. *)
Lemma get_gradient_value aux dt c3 cvert r K1 N0 N1 N2 X Y :
  aux_has aux dt c3 cvert r → length X = length Y →
  get_gradient_function X Y aux [K1; N0; N1; N2] =
  Some ((λ k, gradient_sum (λ t, model_value t [K1; N0; N1; N2] aux)
                (λ t, gradient_component k t [K1; N0; N1; N2] aux) X Y)
        <$> [0; 1; 2; 3]%nat).
Proof.
  intros Haux Hlen. unfold get_gradient_function, get_gradient.
  rewrite (get_saturation_gradient_arr_value _ _ _ _ _ _ _ _ _ _ Haux).
  simpl.
  rewrite !(obj_grad_entry_value _ _ _ _ _ _ _ _ _ _ _ _ _ Haux Hlen)
    by reflexivity.
  reflexivity.
Qed.

(** The derivative of the sum of squared residuals in one parameter [p],
    from the derivative of the model at each sample time. *)
Lemma residual_sum_derivative (M : R → R → R) (dM : R → R) (p0 : R) X Y :
  (∀ t, derivable_pt_lim (λ p, M p t) p0 (dM t)) →
  derivable_pt_lim (λ p, residual_sum (M p) X Y) p0
                   (gradient_sum (M p0) dM X Y).
Proof.
  intros HM. unfold residual_sum, gradient_sum.
  induction (length X) as [|n IH].
  - simpl. apply dlim_const.
  - simpl. apply dlim_plus; [exact IH|].
    eapply dlim_val.
    + apply dlim_mult; [|apply dlim_mult; [|apply dlim_const]];
        (apply dlim_minus; [apply dlim_const | apply HM]).
    + simpl. lra.
Qed.

End ObjectiveLemmas.

Section ObjectiveGradient.
Import Numpy Objective SpecObjective.

Lemma gate_denominator_nonzero c3 x : 0 <= c3 → 1 + c3 * exp x ≠ 0.
Proof. intros. pose proof (exp_pos x). nra. Qed.

Section Exact.
Variables (aux : gmap string R) (dt c3 cvert r K1 N0 N1 N2 : R).
Variables X Y : list R.
Hypothesis Haux : aux_has aux dt c3 cvert r.
Hypotheses (HK1 : K1 ≠ 0) (HN0 : N0 ≠ 0) (HN1 : N1 ≠ 0) (HN2 : N2 ≠ 0).
Hypothesis Hc3 : 0 <= c3.
Hypothesis Hlen : length X = length Y.

Local Ltac objective_closed_form :=
  eapply dlim_ext;
  [ intros y; symmetry;
    rewrite (get_obj_function_value _ _ _ _ _ _ _ _ _ _ _ Haux Hlen);
    reflexivity | ].

Local Ltac component_from H :=
  unfold gradient_component; rewrite H; simpl; assumption.

(** The entries of [get_gradient] for N0, N1 and N2 are the partial
    derivatives of the objective. *)
Lemma objective_gradient_N_exact :
  ∃ g0 g1 g2 g3,
    get_gradient_function X Y aux [K1; N0; N1; N2] = Some [g0; g1; g2; g3] ∧
    derivable_pt_lim
      (λ x, default 0 (get_obj_function X Y aux [K1; x; N1; N2])) N0 g1 ∧
    derivable_pt_lim
      (λ x, default 0 (get_obj_function X Y aux [K1; N0; x; N2])) N1 g2 ∧
    derivable_pt_lim
      (λ x, default 0 (get_obj_function X Y aux [K1; N0; N1; x])) N2 g3.
Proof.
  rewrite (get_gradient_value _ _ _ _ _ _ _ _ _ _ _ Haux Hlen).
  do 4 eexists. split; [reflexivity|].
  assert (G : ∀ t, ∃ g0 g1 g2 g3,
    get_saturation_gradient t [K1; N0; N1; N2] aux = Some [g0; g1; g2; g3] ∧
    derivable_pt_lim (λ x, model_value t [K1; x; N1; N2] aux) N0 g1 ∧
    derivable_pt_lim (λ x, model_value t [K1; N0; x; N2] aux) N1 g2 ∧
    derivable_pt_lim (λ x, model_value t [K1; N0; N1; x] aux) N2 g3).
  { intros t. apply (gradient_N_components_exact _ dt c3 cvert r);
      try assumption. by apply gate_denominator_nonzero. }
  repeat split; objective_closed_form.
  - apply (residual_sum_derivative
             (λ p t, model_value t [K1; p; N1; N2] aux)).
    intros t. destruct (G t) as (? & ? & ? & ? & E & D0 & D1 & D2).
    component_from E.
  - apply (residual_sum_derivative
             (λ p t, model_value t [K1; N0; p; N2] aux)).
    intros t. destruct (G t) as (? & ? & ? & ? & E & D0 & D1 & D2).
    component_from E.
  - apply (residual_sum_derivative
             (λ p t, model_value t [K1; N0; N1; p] aux)).
    intros t. destruct (G t) as (? & ? & ? & ? & E & D0 & D1 & D2).
    component_from E.
Qed.

(** The partial derivative of the objective in K1. *)
Lemma objective_dK1 :
  derivable_pt_lim
    (λ x, default 0 (get_obj_function X Y aux [x; N0; N1; N2])) K1
    (gradient_sum (λ t, model_value t [K1; N0; N1; N2] aux)
       (λ t, ((1 - exp (K1 * (dt - t) / N0)) / K1 ^ 2
              - (t - dt) * exp (K1 * (dt - t) / N0) / (K1 * N0))
             * (1 / (1 + c3 * exp ((- t + dt) * r)))) X Y).
Proof.
  objective_closed_form.
  apply (residual_sum_derivative
           (λ p t, model_value t [p; N0; N1; N2] aux)).
  intros t. apply (saturation_dK1 aux dt c3 cvert r); try assumption.
  by apply gate_denominator_nonzero.
Qed.

End Exact.

Lemma exp_1_exp_m1 : exp 1 * exp (-1) = 1.
Proof. rewrite <- exp_plus. replace (1 + -1) with 0 by lra. apply exp_0. Qed.

(** C7: on the data X = [0], Y = [0] with (K1, N0, N1, N2) = (1, 1, 1, 1),
    dt = 1, c3 = 1, cvert = 1, r = 0, the K1 entry returned by the closure of
    [get_gradient_function] is exp(1) - 2, while the partial derivative of
    the objective of [get_obj_function] in K1 is exp(1) / 2. *)
Theorem objective_gradient_K1_differs :
  ∃ g0 g1 g2 g3,
    get_gradient_function [0] [0] (mk_aux 1 1 1 0) [1; 1; 1; 1]
      = Some [g0; g1; g2; g3] ∧
    g0 = exp 1 - 2 ∧
    derivable_pt_lim
      (λ x, default 0 (get_obj_function [0] [0] (mk_aux 1 1 1 0)
                         [x; 1; 1; 1])) 1 (exp 1 / 2) ∧
    g0 ≠ exp 1 / 2.
Proof.
  pose proof (mk_aux_has 1 1 1 0) as Haux.
  assert (M : model_value 0 [1; 1; 1; 1] (mk_aux 1 1 1 0) = exp 1 / 2).
  { unfold model_value.
    rewrite (saturation_function_value _ _ _ _ _ _ _ _ _ _ Haux). simpl.
    replace ((- 0 + 1) * 0) with 0 by lra. rewrite exp_0.
    replace (-1 * (0 - 1) / (1 / 1)) with 1 by lra. lra. }
  assert (G : gradient_component 0 0 [1; 1; 1; 1] (mk_aux 1 1 1 0)
              = 1 - 2 * exp (-1)).
  { unfold gradient_component.
    rewrite (get_saturation_gradient_value _ _ _ _ _ _ _ _ _ _ Haux). simpl.
    replace (0 * (1 - 0)) with 0 by lra. rewrite exp_0.
    replace (- (1) * (1 - 0) / 1) with (-1) by lra. lra. }
  rewrite (get_gradient_value _ _ _ _ _ _ _ _ _ _ _ Haux eq_refl).
  do 4 eexists. split; [reflexivity|].
  assert (E : gradient_sum (λ t, model_value t [1; 1; 1; 1] (mk_aux 1 1 1 0))
                (λ t, gradient_component 0 t [1; 1; 1; 1] (mk_aux 1 1 1 0))
                [0] [0] = exp 1 - 2).
  { unfold gradient_sum. simpl. rewrite M, G.
    pose proof exp_1_exp_m1. lra. }
  split; [exact E|]. split.
  - eapply dlim_val.
    + apply (objective_dK1 _ 1 1 1 0 1 1 1 1 [0] [0] Haux); try lra.
      reflexivity.
    + unfold gradient_sum. simpl. rewrite M.
      replace ((- 0 + 1) * 0) with 0 by lra. rewrite exp_0.
      replace (1 * (1 - 0) / 1) with 1 by lra. lra.
  - rewrite E. pose proof exp_1_lt_4. lra.
Qed.

End ObjectiveGradient.

(** ** The asymptote finder *)

Section AsymptoteFinder.
Import Asymptote SpecAsymptote.

Variables (aux : gmap string R) (dt c3 cvert r K1 N0 N1 N2 : R).
Hypothesis Haux : aux_has aux dt c3 cvert r.

Local Abbreviation p := [K1; N0; N1; N2].
Local Abbreviation f := (λ t, model_value t [K1; N0; N1; N2] aux).

Lemma saturation_function_defined t :
  saturation_function t p aux = Some (model_value t p aux).
Proof.
  unfold model_value.
  by rewrite (saturation_function_value _ _ _ _ _ _ _ _ _ _ Haux).
Qed.

Lemma accepted_dec i : {accepted f dt i} + {¬ accepted f dt i}.
Proof. unfold accepted. apply Rgt_dec. Qed.

(** One turn of the loop: accepted, the answer; otherwise the rest. *)
Lemma asymtote_loop_cons i rest :
  asymtote_loop p aux dt (ref f dt) (i :: rest) =
  if accepted_dec i then Returns (answer f dt i)
  else asymtote_loop p aux dt (ref f dt) rest.
Proof.
  simpl. rewrite !saturation_function_defined. simpl.
  rewrite (Rmult_comm (ref f dt) 0.01).
  destruct (accepted_dec i) as [Ha | Hn];
    unfold accepted, answer, deltadelta, forward_slope in *;
    destruct (Rgt_dec _ _); try done.
  destruct (Rlt_dec _ _); done.
Qed.

Lemma asymtote_loop_none indices :
  Forall (λ i, ¬ accepted f dt i) indices →
  asymtote_loop p aux dt (ref f dt) indices = SysExit 1.
Proof.
  induction 1 as [|i rest Hi _ IH]; [done|].
  rewrite asymtote_loop_cons. by destruct (accepted_dec i).
Qed.

Lemma asymtote_loop_first before i after :
  Forall (λ j, ¬ accepted f dt j) before → accepted f dt i →
  asymtote_loop p aux dt (ref f dt) (before ++ i :: after)
  = Returns (answer f dt i).
Proof.
  intros Hb Hi. induction Hb as [|j before Hj _ IH].
  - simpl app. rewrite asymtote_loop_cons. by destruct (accepted_dec i).
  - change ((j :: before) ++ i :: after) with (j :: (before ++ i :: after)).
    rewrite asymtote_loop_cons. by destruct (accepted_dec j).
Qed.

Lemma getAsymtote_Y_loop :
  getAsymtote_Y p aux = asymtote_loop p aux dt (ref f dt) (seq 1 99).
Proof.
  unfold getAsymtote_Y. destruct Haux as (Hdt & _). rewrite Hdt.
  cbn [mbind outcome_bind of_option].
  rewrite !saturation_function_defined. reflexivity.
Qed.

Lemma seq_split_at i :
  (1 ≤ i < 100)%nat →
  seq 1 99 = seq 1 (i - 1) ++ i :: seq (S i) (99 - i).
Proof.
  intros Hi. replace 99%nat with ((i - 1) + S (99 - i))%nat at 1 by lia.
  rewrite seq_app. simpl. do 3 f_equal; lia.
Qed.

Lemma rejected_or_accepted j : {¬ accepted f dt j} + {accepted f dt j}.
Proof. destruct (accepted_dec j); [by right | by left]. Qed.

Lemma first_accepted_exists :
  (∃ i, (1 ≤ i < 100)%nat ∧ accepted f dt i) →
  ∃ i, (1 ≤ i < 100)%nat ∧ accepted f dt i ∧
       ∀ j, (1 ≤ j < i)%nat → ¬ accepted f dt j.
Proof.
  intros (i & Hi & Ha). revert Hi Ha.
  induction i as [i IH] using lt_wf_ind. intros Hi Ha.
  destruct (Forall_Exists_dec _ _ rejected_or_accepted (seq 1 (i - 1))) as [Hall | Hex].
  - exists i. repeat split; try lia; try done.
    intros j Hj. rewrite Forall_forall in Hall. apply Hall.
    apply elem_of_seq. lia.
  - apply Exists_exists in Hex as (j & Hin & Hj).
    apply elem_of_seq in Hin.
    apply (IH j); [lia | lia | done].
Qed.

(** C6: [getAsymtote_Y] returns a value exactly when some i in [1,100)
    passes the threshold 0.01 * ref > |deltadelta(i)|; at the first such i it
    returns f(dt*i) when the forward slope there is negative and
    f(dt*i) - dt*i*slope otherwise; when no i passes, it exits with
    [sys.exit(1)]. *)
Theorem getAsymtote_Y_spec :
  ((∃ v, getAsymtote_Y p aux = Returns v) ↔
   (∃ i, (1 ≤ i < 100)%nat ∧ accepted f dt i)) ∧
  (∀ i, (1 ≤ i < 100)%nat → accepted f dt i →
        (∀ j, (1 ≤ j < i)%nat → ¬ accepted f dt j) →
        getAsymtote_Y p aux = Returns (answer f dt i)) ∧
  ((∀ i, (1 ≤ i < 100)%nat → ¬ accepted f dt i) →
   getAsymtote_Y p aux = SysExit 1).
Proof.
  assert (First : ∀ i, (1 ≤ i < 100)%nat → accepted f dt i →
        (∀ j, (1 ≤ j < i)%nat → ¬ accepted f dt j) →
        getAsymtote_Y p aux = Returns (answer f dt i)).
  { intros i Hi Ha Hfirst. rewrite getAsymtote_Y_loop, (seq_split_at i Hi).
    apply asymtote_loop_first; [|done].
    apply Forall_forall. intros j Hj. apply elem_of_seq in Hj.
    apply Hfirst. lia. }
  assert (None : (∀ i, (1 ≤ i < 100)%nat → ¬ accepted f dt i) →
                 getAsymtote_Y p aux = SysExit 1).
  { intros Hnone. rewrite getAsymtote_Y_loop. apply asymtote_loop_none.
    apply Forall_forall. intros j Hj. apply elem_of_seq in Hj.
    apply Hnone. lia. }
  split; [|by split].
  split.
  - intros (v & Hv).
    destruct (Forall_Exists_dec _ _ rejected_or_accepted (seq 1 99)) as [Hall | Hex].
    + rewrite getAsymtote_Y_loop, asymtote_loop_none in Hv by done.
      discriminate.
    + apply Exists_exists in Hex as (j & Hin & Hj).
      apply elem_of_seq in Hin. exists j. split; [lia | done].
  - intros Hex. destruct (first_accepted_exists Hex) as (i & Hi & Ha & Hf).
    eexists. by apply First.
Qed.

End AsymptoteFinder.

Lemma getAsymtote_Y_spec_witness :
  let f := λ t, model_value t [1; 1; 1; 1] (mk_aux 1 1 0 0) in
  ((∃ v, Asymptote.getAsymtote_Y [1; 1; 1; 1] (mk_aux 1 1 0 0) = Returns v) ↔
   (∃ i, (1 ≤ i < 100)%nat ∧ SpecAsymptote.accepted f 1 i)) ∧
  (∀ i, (1 ≤ i < 100)%nat → SpecAsymptote.accepted f 1 i →
        (∀ j, (1 ≤ j < i)%nat → ¬ SpecAsymptote.accepted f 1 j) →
        Asymptote.getAsymtote_Y [1; 1; 1; 1] (mk_aux 1 1 0 0)
        = Returns (SpecAsymptote.answer f 1 i)) ∧
  ((∀ i, (1 ≤ i < 100)%nat → ¬ SpecAsymptote.accepted f 1 i) →
   Asymptote.getAsymtote_Y [1; 1; 1; 1] (mk_aux 1 1 0 0) = SysExit 1).
Proof.
  exact (getAsymtote_Y_spec (mk_aux 1 1 0 0) 1 1 0 0 1 1 1 1
           (mk_aux_has 1 1 0 0)).
Defined.

(** ** Down-sampling of the candidate window *)

Section Downsampling.
Import Search.

Lemma lookup_nth_lt (l : list R) i :
  (i < length l)%nat → l !! i = Some (nth i l 0).
Proof.
  intros Hi. destruct (nth_lookup_or_length l i 0) as [E | Hge]; [done | lia].
Qed.

Lemma pick_guesses_value (span_dt span_cvert : list R) k indices gd gc :
  Forall (λ i, (i * k < length span_dt)%nat) indices →
  length span_cvert = length span_dt →
  pick_guesses span_dt span_cvert k indices gd gc =
  Some (gd ++ ((λ i, nth (i * k) span_dt 0) <$> indices),
        gc ++ ((λ i, nth (i * k) span_cvert 0) <$> indices)).
Proof.
  intros Hall Hlen. revert gd gc.
  induction Hall as [|i rest Hi _ IH]; intros gd gc.
  - simpl. by rewrite !app_nil_r.
  - simpl. rewrite (lookup_nth_lt span_dt) by done.
    rewrite (lookup_nth_lt span_cvert) by lia. simpl.
    rewrite IH. by rewrite <- !app_assoc.
Qed.

(** A window of at most 200 samples yields no candidate at all. *)
Lemma downsample_small span_dt span_cvert :
  (length span_dt ≤ max_itterations)%nat →
  downsample span_dt span_cvert = Some ([], []).
Proof. intros H. unfold downsample. case_decide; [lia | done]. Qed.

(** A window of more than 200 samples yields the 200 samples at the index
    positions i * floor((n-1)/200), i = 0..199. *)
Lemma downsample_large span_dt span_cvert :
  (max_itterations < length span_dt)%nat →
  length span_cvert = length span_dt →
  let stride := ((length span_dt - 1) `div` max_itterations)%nat in
  downsample span_dt span_cvert =
  Some ((λ i, nth (i * stride) span_dt 0) <$> seq 0 max_itterations,
        (λ i, nth (i * stride) span_cvert 0) <$> seq 0 max_itterations).
Proof.
  intros Hn Hlen stride. unfold downsample. case_decide; [|lia].
  rewrite pick_guesses_value; [done | | done].
  apply Forall_forall. intros i Hi. apply elem_of_seq in Hi.
  fold stride. unfold max_itterations in *.
  assert (200 * stride ≤ length span_dt - 1)%nat
    by (apply Nat.Div0.mul_div_le).
  nia.
Qed.

Lemma pick_guesses_length (span_dt span_cvert : list R) k indices gd gc
    gd' gc' :
  pick_guesses span_dt span_cvert k indices gd gc = Some (gd', gc') →
  length gd' = (length gd + length indices)%nat ∧
  length gc' = (length gc + length indices)%nat.
Proof.
  revert gd gc. induction indices as [|i rest IH]; intros gd gc E.
  - injection E as <- <-. simpl. lia.
  - cbn [pick_guesses] in E.
    destruct (span_dt !! _) as [d|]; [|done].
    destruct (span_cvert !! _) as [c|]; [|done].
    apply IH in E. rewrite !length_app in E. simpl in *. lia.
Qed.

(** In all cases at most 200 candidates are produced, as many values of
    cvert as of dt. *)
Lemma downsample_at_most_200 span_dt span_cvert gd gc :
  downsample span_dt span_cvert = Some (gd, gc) →
  (length gd ≤ max_itterations)%nat ∧ length gc = length gd.
Proof.
  unfold downsample. case_decide; intros E.
  - apply pick_guesses_length in E. rewrite length_seq in E.
    simpl length in E. lia.
  - injection E as <- <-. simpl. split; [lia | done].
Qed.

(** C3: a candidate window of 3 samples (3 <= 200) yields no candidate:
    the lists of guesses are empty and the outer search loop evaluates
    nothing, where the claim has every point of the window evaluated; the
    write-back after the loop then indexes the empty list of guesses and the
    run ends with an uncaught IndexError. *)
Theorem downsample_three_samples_no_candidate :
  downsample [1; 2; 3] [10; 20; 30] = Some ([], []) ∧
  ∀ scipy_optimize X Y guess aux,
    outer_search scipy_optimize X Y guess [] [] aux
    = Some (initial_state aux) ∧
    loss_array (initial_state aux) = [] ∧
    run scipy_optimize X Y guess [1; 2; 3] [10; 20; 30] aux = Uncaught.
Proof.
  assert (E : downsample [1; 2; 3] [10; 20; 30] = Some ([], [])).
  { apply downsample_small. unfold max_itterations. simpl. lia. }
  split; [exact E|]. intros fit X Y guess aux.
  repeat split.
Qed.

End Downsampling.

(** ** Comparison of losses *)

Section LossOrder.
Implicit Types a b c : np_float.

Lemma np_lt_fin x y : np_lt (F_fin x) (F_fin y) = true ↔ x < y.
Proof. simpl. destruct (Rlt_dec x y); split; intros; done || lra. Qed.

Lemma np_lt_fin_false x y : np_lt (F_fin x) (F_fin y) = false ↔ ¬ x < y.
Proof. simpl. destruct (Rlt_dec x y); split; intros; done. Qed.

Lemma np_eq0_fin x : np_eq0 (F_fin x) = true ↔ x = 0.
Proof. simpl. destruct (Req_dec_T x 0); split; intros; done. Qed.

Lemma np_eq0_fin_false x : np_eq0 (F_fin x) = false ↔ x ≠ 0.
Proof. simpl. destruct (Req_dec_T x 0); split; intros; done. Qed.

Lemma np_lt_nan_l a : np_lt F_nan a = false.
Proof. by destruct a. Qed.

Lemma np_lt_nan_r a : np_lt a F_nan = false.
Proof. by destruct a. Qed.

Lemma np_lt_irrefl a : np_lt a a = false.
Proof. destruct a; try done. apply np_lt_fin_false. lra. Qed.

Lemma np_lt_trans a b c :
  np_lt a b = true → np_lt b c = true → np_lt a c = true.
Proof.
  destruct a, b, c; try done.
  rewrite !np_lt_fin. lra.
Qed.

(** [b <= a] and [c < b] give [c < a] when [a] is a number. *)
Lemma np_lt_le_trans a b c :
  is_nan a = false → np_lt a b = false → np_lt c b = true →
  np_lt c a = true.
Proof.
  destruct a, b, c; try done.
  rewrite np_lt_fin_false, !np_lt_fin. lra.
Qed.

End LossOrder.

(** ** The outer search loop *)

Lemma concat_replicate_end {A} n (l : list A) :
  concat (replicate n l) ++ l = l ++ concat (replicate n l).
Proof.
  induction n as [|n IH]; simpl; [by rewrite app_nil_r|].
  by rewrite <- app_assoc, IH.
Qed.

Section SearchLoop.
Import Search SpecSearch.

Variable scipy_optimize :
  list R → list R → gmap string R → list R → list R * np_float.
Variables X Y guess : list R.
Variables gd gc : list R.
Variable aux0 : gmap string R.
Hypothesis Hlen : length gd = length gc.

Local Abbreviation upto := (search_upto scipy_optimize X Y guess gd gc).
Local Abbreviation body := (search_body scipy_optimize X Y guess gd gc).
Local Abbreviation loop := (search_loop scipy_optimize X Y guess gd gc).
Local Abbreviation fit := (fit_at scipy_optimize X Y guess gd gc aux0).

(** The entries other than dt and cvert are those of the start. *)
Local Abbreviation framed st :=
  (∀ k : string, k ≠ "dt" → k ≠ "cvert" → aux_params st !! k = aux0 !! k).

Lemma search_loop_app l1 l2 st :
  loop (l1 ++ l2) st = st' ← loop l1 st; loop l2 st'.
Proof.
  revert st. induction l1 as [|i l1 IH]; intros st; [done|].
  simpl. destruct (body st i) as [st1|]; [|done]. simpl. apply IH.
Qed.

Lemma search_upto_S n :
  upto (S n) aux0 = st ← upto n aux0; body st n.
Proof.
  unfold search_upto. rewrite seq_S, search_loop_app. simpl.
  destruct (loop (seq 0 n) (initial_state aux0)) as [st|]; [|done].
  simpl. by destruct (body st n).
Qed.

Lemma candidate_aux_framed (m : gmap string R) d c :
  (∀ k : string, k ≠ "dt" → k ≠ "cvert" → m !! k = aux0 !! k) →
  <["cvert" := c]> (<["dt" := d]> m) = candidate_aux aux0 d c.
Proof.
  intros Hm. apply map_eq. intros k. unfold candidate_aux.
  destruct (decide (k = "cvert")) as [->|Hc]; [by simplify_map_eq|].
  destruct (decide (k = "dt")) as [->|Hd]; [by simplify_map_eq|].
  rewrite !lookup_insert_ne by done. by apply Hm.
Qed.

Lemma candidate_aux_frame d c (k : string) :
  k ≠ "dt" → k ≠ "cvert" → candidate_aux aux0 d c !! k = aux0 !! k.
Proof. intros. unfold candidate_aux. by rewrite !lookup_insert_ne. Qed.

Lemma search_body_value st n d c p l :
  gd !! n = Some d → gc !! n = Some c → framed st →
  scipy_optimize X Y (candidate_aux aux0 d c) guess = (p, l) →
  body st n = Some (after_candidate aux0 st n d c p l).
Proof.
  intros Hd Hc Hf Hfit. unfold search_body. rewrite Hd. simpl.
  rewrite Hc. simpl. rewrite (candidate_aux_framed _ _ _ Hf), Hfit.
  unfold after_candidate.
  rewrite <- app_assoc. simpl.
  by destruct (np_eq0 (loss st) || np_lt l (loss st)).
Qed.

(** Every iteration in range runs: the state after [n] iterations exists,
    and iteration [n] takes it to [after_candidate]. *)
Lemma search_upto_defined n :
  (n ≤ length gd)%nat →
  ∃ st, upto n aux0 = Some st ∧ framed st ∧
        aux_writes st = concat (replicate n ["dt"; "cvert"]) ∧
        length (loss_array st) = n.
Proof.
  induction n as [|n IH]; intros Hn.
  - exists (initial_state aux0). done.
  - destruct IH as (st & Hst & Hf & Hw & Hl); [lia|].
    destruct (lookup_lt_is_Some_2 gd n) as [d Hd]; [lia|].
    destruct (lookup_lt_is_Some_2 gc n) as [c Hc]; [lia|].
    destruct (scipy_optimize X Y (candidate_aux aux0 d c) guess)
      as [p l] eqn:Hfit.
    exists (after_candidate aux0 st n d c p l).
    rewrite search_upto_S, Hst. simpl.
    split; [by apply search_body_value|].
    split; [intros k ? ?; by apply candidate_aux_frame|].
    split.
    + cbn [aux_writes after_candidate]. rewrite Hw.
      apply (concat_replicate_end n ["dt"; "cvert"]).
    + simpl. rewrite length_app, Hl. simpl. lia.
Qed.

Lemma search_upto_step n st :
  (n < length gd)%nat → upto n aux0 = Some st →
  ∃ d c p l,
    gd !! n = Some d ∧ gc !! n = Some c ∧ fit n = Some (p, l) ∧
    upto (S n) aux0 = Some (after_candidate aux0 st n d c p l).
Proof.
  intros Hn Hst.
  destruct (search_upto_defined n) as (st' & Hst' & Hf & _); [lia|].
  rewrite Hst in Hst'. injection Hst' as <-.
  destruct (lookup_lt_is_Some_2 gd n) as [d Hd]; [lia|].
  destruct (lookup_lt_is_Some_2 gc n) as [c Hc]; [lia|].
  destruct (scipy_optimize X Y (candidate_aux aux0 d c) guess)
    as [p l] eqn:Hfit.
  exists d, c, p, l. repeat split; try done.
  - unfold fit_at. rewrite Hd, Hc. simpl. by rewrite Hfit.
  - rewrite search_upto_S, Hst. simpl. by apply search_body_value.
Qed.

(** The loop leaves every entry other than dt and cvert as it was, and
    assigns dt and cvert once per iteration. *)
Lemma search_frame n :
  (n ≤ length gd)%nat →
  ∃ st, upto n aux0 = Some st ∧
        aux_writes st = concat (replicate n ["dt"; "cvert"]) ∧
        (∀ k : string, k ≠ "dt" → k ≠ "cvert" →
                       aux_params st !! k = aux0 !! k) ∧
        Forall (λ k, aux_params st !! k = aux0 !! k) frame_keys.
Proof.
  intros Hn. destruct (search_upto_defined n Hn) as (st & Hst & Hf & Hw & _).
  exists st. repeat split; try done.
  unfold frame_keys. repeat constructor; by apply Hf.
Qed.

(** The write-back after the loop assigns dt, cvert and bt only. *)
Lemma finish_frame st st' :
  finish gd gc st = Returns st' →
  aux_writes st' = aux_writes st ++ ["dt"; "cvert"; "bt"] ∧
  ∀ k : string, k ≠ "dt" → k ≠ "cvert" → k ≠ "bt" →
                aux_params st' !! k = aux_params st !! k.
Proof.
  unfold finish. intros H.
  destruct (gd !! best_guess_index st) as [d|]; [|done].
  cbn [mbind outcome_bind of_option] in H.
  destruct (gc !! best_guess_index _) as [c|]; [|done].
  cbn [mbind outcome_bind of_option] in H.
  destruct (new_params _) as [params|]; [|done].
  cbn [mbind outcome_bind of_option] in H.
  destruct (Asymptote.getAsymtote_Y _ _) as [y| |]; [|done|done].
  cbn [mbind outcome_bind of_option] in H.
  destruct (_ !! "optimization_left_cutoff") as [left|]; [|done].
  cbn [mbind outcome_bind of_option] in H.
  destruct (saturation_function _ _ _) as [v|]; [|done].
  cbn [mbind outcome_bind of_option] in H.
  injection H as <-. simpl. split.
  - by rewrite <- !app_assoc.
  - intros k ? ? ?. by rewrite !lookup_insert_ne.
Qed.

Local Abbreviation loss_at :=
  (SpecSearch.loss_at scipy_optimize X Y guess gd gc aux0).

Lemma loss_at_fit i l : loss_at i = Some l ↔ ∃ p, fit i = Some (p, l).
Proof.
  unfold SpecSearch.loss_at. destruct (fit i) as [[p l']|]; simpl; split.
  - intros [= <-]. by exists p.
  - by intros (p' & [= _ <-]).
  - done.
  - by intros (? & ?).
Qed.

(** C4 (amended): each iteration adopts its candidate exactly when the
    retained loss equals 0 or the candidate's loss is strictly less than the
    retained loss, so the first iteration's result is adopted whatever it
    is: both without any condition on the losses.  And when the first
    candidate's loss is not NaN and no candidate evaluated before the latest
    one has a loss of exactly zero, the retained best is the one of minimum
    loss among the candidates evaluated so far, the one of lowest index
    among equals. *)
Theorem best_is_first_minimum n :
  (1 ≤ n ≤ length gd)%nat →
  (∀ m st, (m < length gd)%nat → upto m aux0 = Some st →
     ∃ d c p l,
       gd !! m = Some d ∧ gc !! m = Some c ∧ fit m = Some (p, l) ∧
       upto (S m) aux0 = Some (after_candidate aux0 st m d c p l)) ∧
  (∃ st1 p0 l0,
     fit 0 = Some (p0, l0) ∧ upto 1 aux0 = Some st1 ∧
     best_guess_index st1 = 0%nat ∧ loss st1 = l0 ∧
     new_params st1 = Some p0) ∧
  ((∀ l, loss_at 0 = Some l → is_nan l = false) →
   (∀ i l, (S i < n)%nat → loss_at i = Some l → np_eq0 l = false) →
   ∃ st pk,
     upto n aux0 = Some st ∧
     fit (best_guess_index st) = Some (pk, loss st) ∧
     new_params st = Some pk ∧
     first_minimum loss_at n (best_guess_index st)).
Proof.
  intros Hn.
  assert (First : ∃ st1 p0 l0,
     fit 0 = Some (p0, l0) ∧ upto 1 aux0 = Some st1 ∧
     best_guess_index st1 = 0%nat ∧ loss st1 = l0 ∧
     new_params st1 = Some p0).
  { destruct (search_upto_step 0 (initial_state aux0))
      as (d & c & p & l & Hd & Hc & Hfit & Hst); [lia | done |].
    exists (after_candidate aux0 (initial_state aux0) 0 d c p l), p, l.
    repeat split; try done; simpl;
      (destruct (Req_dec_T 0 0) as [_|Hne]; [done | by destruct Hne]). }
  split; [intros m st; apply search_upto_step|].
  split; [exact First|].
  intros Hfirst Hgood.
  destruct Hn as [Hn1 Hn2]. revert Hn2 Hgood.
  induction n as [|n IH]; [lia|]. intros Hn2 Hgood.
  destruct (decide (n = 0%nat)) as [->|Hn0].
  { destruct First as (st1 & p0 & l0 & Hfit & Hst & Hb & Hl & Hp).
    assert (loss_at 0 = Some l0) as Hl0 by (apply loss_at_fit; by exists p0).
    exists st1, p0. rewrite Hb, Hl. repeat split; try done.
    exists l0. split; [done|]. split; [by apply Hfirst|].
    intros j lj Hj Hlj _. assert (j = 0%nat) as -> by lia.
    rewrite Hl0 in Hlj. injection Hlj as <-.
    split; [apply np_lt_irrefl | lia]. }
  destruct IH as (st & pk & Hst & Hk & Hpk & Hklt & lk & Hlk & Hknan & Hmin);
    [lia | lia | intros i l Hi Hl; apply (Hgood i l); [lia | done] |].
  assert (lk = loss st) as ->.
  { apply loss_at_fit in Hlk as (p' & Hp'). rewrite Hk in Hp'.
    by injection Hp'. }
  destruct (search_upto_step n st) as (d & c & p & l & Hd & Hc & Hfit & Hst');
    [lia | done |].
  assert (loss_at n = Some l) as Hl by (apply loss_at_fit; by exists p).
  assert (Hk0 : np_eq0 (loss st) = false)
    by (apply (Hgood (best_guess_index st)); [lia | done]).
  destruct (np_lt l (loss st)) eqn:Hlt.
  - (* adopted: the candidate is strictly below every number before it *)
    exists (after_candidate aux0 st n d c p l), p. split; [exact Hst'|].
    unfold after_candidate. simpl. rewrite Hk0, Hlt. simpl.
    repeat split; [done | lia |].
    exists l. split; [done|]. split; [by destruct l|].
    intros j lj Hj Hlj Hjnan.
    destruct (decide (j = n)) as [->|Hjn].
    + rewrite Hl in Hlj. injection Hlj as <-.
      split; [apply np_lt_irrefl | lia].
    + destruct (Hmin j lj) as [Hge _]; [lia | done | done |].
      split; [|intros _; by apply (np_lt_le_trans _ (loss st))].
      destruct (np_lt lj l) eqn:E; [|done].
      by rewrite (np_lt_trans _ _ _ E Hlt) in Hge.
  - (* kept *)
    exists (after_candidate aux0 st n d c p l), pk. split; [exact Hst'|].
    unfold after_candidate. simpl. rewrite Hk0, Hlt. simpl.
    repeat split; [done | done | lia |].
    exists (loss st). split; [done|]. split; [done|].
    intros j lj Hj Hlj Hjnan.
    destruct (decide (j = n)) as [->|Hjn].
    + rewrite Hl in Hlj. injection Hlj as <-. split; [done | lia].
    + apply Hmin; [lia | done | done].
Qed.

(** *** What the loop retains, whatever the losses are *)

Lemma loss_at_lt i l : loss_at i = Some l → (i < length gd)%nat.
Proof.
  intros Hl. apply loss_at_fit in Hl as (p & Hp). unfold fit_at in Hp.
  destruct (gd !! i) eqn:E; [|done].
  apply lookup_lt_is_Some_1. by eexists.
Qed.

Lemma upto_exists n : (n ≤ length gd)%nat → ∃ st, upto n aux0 = Some st.
Proof.
  intros Hn. destruct (search_upto_defined n Hn) as (st & Hst & _).
  by exists st.
Qed.

(** One iteration: the candidate is adopted when the guard holds, and the
    retained triple is left alone when it does not. *)
Lemma upto_step_loss n st :
  (n < length gd)%nat → upto n aux0 = Some st →
  ∃ p l st',
    fit n = Some (p, l) ∧ loss_at n = Some l ∧ upto (S n) aux0 = Some st' ∧
    ((np_eq0 (loss st) || np_lt l (loss st) = true ∧
      loss st' = l ∧ best_guess_index st' = n ∧ new_params st' = Some p) ∨
     (np_eq0 (loss st) || np_lt l (loss st) = false ∧
      loss st' = loss st ∧ best_guess_index st' = best_guess_index st ∧
      new_params st' = new_params st)).
Proof.
  intros Hn Hst.
  destruct (search_upto_step n st Hn Hst)
    as (d & c & p & l & Hd & Hc & Hfit & Hst').
  exists p, l, (after_candidate aux0 st n d c p l).
  split; [done|]. split; [apply loss_at_fit; by exists p|].
  split; [done|]. unfold after_candidate. cbn.
  destruct (np_eq0 (loss st) || np_lt l (loss st)); [by left | by right].
Qed.

(** After at least one iteration the retained loss is the loss of the
    retained candidate; a retained loss of exactly zero is that of the
    latest candidate, since the next iteration replaces it. *)
Lemma retained_after n : ∀ st,
  (1 ≤ n ≤ length gd)%nat → upto n aux0 = Some st →
  (best_guess_index st < n)%nat ∧
  (∃ pk, fit (best_guess_index st) = Some (pk, loss st) ∧
         new_params st = Some pk) ∧
  (np_eq0 (loss st) = true → best_guess_index st = (n - 1)%nat).
Proof.
  induction n as [|n IH]; intros st' [Hn1 Hn2] Hst'; [lia|].
  destruct (upto_exists n) as [st Hst]; [lia|].
  destruct (upto_step_loss n st) as (p & l & st1 & Hfit & Hl & Hst1 & Hcase);
    [lia | done |].
  rewrite Hst' in Hst1. injection Hst1 as <-.
  destruct Hcase as [(Hg & -> & -> & ->) | (Hg & HL & HB & HP)].
  - split; [lia|]. split; [by exists p|]. intros _. lia.
  - destruct (decide (n = 0%nat)) as [->|Hn0].
    { injection Hst as <-. cbn in Hg.
      destruct (Req_dec_T 0 0) as [_|Hne]; [done | by destruct Hne]. }
    destruct (IH st) as (Hb & Hret & _); [lia | done |].
    rewrite HL, HB, HP. split; [lia|]. split; [done|].
    intros Hz. rewrite Hz in Hg. done.
Qed.

(** A retained loss that no later candidate passes the guard against is
    still retained later. *)
Lemma retained_sticks d : ∀ k st st',
  (k + d ≤ length gd)%nat → upto k aux0 = Some st →
  (∀ j l, (k ≤ j < k + d)%nat → loss_at j = Some l →
          np_eq0 (loss st) || np_lt l (loss st) = false) →
  upto (k + d) aux0 = Some st' → loss st' = loss st.
Proof.
  induction d as [|d IH]; intros k st st' Hk Hst Hkeep Hst'.
  - rewrite Nat.add_0_r in Hst'. rewrite Hst in Hst'. by injection Hst' as <-.
  - destruct (upto_exists (k + d)) as [st1 Hst1]; [lia|].
    assert (loss st1 = loss st) as H1.
    { apply (IH k st st1); [lia | done | | done].
      intros j l Hj. apply Hkeep. lia. }
    destruct (upto_step_loss (k + d) st1)
      as (p & l & st2 & Hfit & Hl & Hst2 & Hcase); [lia | done |].
    rewrite Nat.add_succ_r, Hst2 in Hst'. injection Hst' as <-.
    specialize (Hkeep (k + d)%nat l ltac:(lia) Hl). rewrite <- H1 in Hkeep.
    destruct Hcase as [(Hg & _) | (_ & HL & _)]; [congruence|].
    by rewrite HL.
Qed.

(** Among the candidates from [k] on, one has a finite loss or none has. *)
Lemma finite_from k d :
  (∃ j l, (k ≤ j < k + d)%nat ∧ loss_at j = Some l ∧ is_finite l = true) ∨
  (∀ j l, (k ≤ j < k + d)%nat → loss_at j = Some l → is_finite l = false).
Proof.
  induction d as [|d [(j & l & Hj & Hl & Hf) | Hnone]].
  - right. intros j l Hj. lia.
  - left. exists j, l. split; [lia | done].
  - destruct (loss_at (k + d)) as [l|] eqn:Hl.
    + destruct (is_finite l) eqn:Hf.
      * left. exists (k + d)%nat, l. split; [lia | done].
      * right. intros j lj Hj Hlj.
        destruct (decide (j = (k + d)%nat)) as [->|Hne];
          [congruence | apply (Hnone j); [lia | done]].
    + right. intros j lj Hj Hlj.
      destruct (decide (j = (k + d)%nat)) as [->|Hne];
        [congruence | apply (Hnone j); [lia | done]].
Qed.

Lemma guard_nan l : np_eq0 F_nan || np_lt l F_nan = false.
Proof. by destruct l. Qed.

Lemma guard_pinf l :
  is_finite l = false → l ≠ F_ninf → np_eq0 F_pinf || np_lt l F_pinf = false.
Proof. by destruct l. Qed.

Lemma guard_zero_candidate l L :
  np_eq0 l = true → is_nan L = false → L ≠ F_ninf →
  (∀ x, L = F_fin x → 0 <= x) →
  np_eq0 L || np_lt l L = true.
Proof.
  intros Hz Hnan Hninf Hpos. destruct l as [| | |x]; try done.
  cbn in Hz. destruct (Req_dec_T x 0) as [->|]; [|done].
  destruct L as [| | |y]; try done. cbn.
  specialize (Hpos y eq_refl).
  destruct (Req_dec_T y 0); [done|]. destruct (Rlt_dec 0 y); [done | lra].
Qed.

(** C5 (amended): on a run whose losses are NaN, plus infinity or numbers
    that are not negative, and in which one candidate at least has a finite
    loss, the search returns, with no error, the retained candidate with its
    loss, and this finally selected loss is finite exactly when the first
    candidate's loss is not NaN and every candidate of loss exactly zero
    that has a successor is followed at once by a candidate whose loss is
    not NaN and, then or later, by a candidate of finite loss. *)
Theorem finite_loss_selected :
  (∀ i l, loss_at i = Some l → l ≠ F_ninf ∧ ∀ x, l = F_fin x → 0 <= x) →
  (∃ j l, loss_at j = Some l ∧ is_finite l = true) →
  ∃ st pk,
    outer_search scipy_optimize X Y guess gd gc aux0 = Some st ∧
    fit (best_guess_index st) = Some (pk, loss st) ∧
    new_params st = Some pk ∧
    (is_finite (loss st) = true ↔
     (∀ l, loss_at 0 = Some l → is_nan l = false) ∧
     (∀ i l l', loss_at i = Some l → np_eq0 l = true →
        loss_at (S i) = Some l' →
        is_nan l' = false ∧
        ∃ j lj, (S i ≤ j)%nat ∧ loss_at j = Some lj ∧
                is_finite lj = true)).
Proof.
  intros Hrange (j0 & l0 & Hj0 & Hfin0).
  pose proof (loss_at_lt _ _ Hj0) as Hj0len.
  destruct (upto_exists (length gd)) as [st Hst]; [lia|].
  destruct (retained_after (length gd) st) as (Hb & (pk & Hk & Hpk) & _);
    [lia | done |].
  exists st, pk. do 3 (split; [done|]). split.
  - (* a finite selection forces the two conditions *)
    intros Hfin. split.
    + intros l Hl. destruct (is_nan l) eqn:Hnan; [exfalso | done].
      destruct (upto_step_loss 0 (initial_state aux0))
        as (p & l1 & st1 & _ & Hl1 & Hst1 & Hcase); [lia | done |].
      rewrite Hl in Hl1. injection Hl1 as <-.
      destruct Hcase as [(_ & HL & _) | (Hg & _)]; cycle 1.
      { cbn in Hg. destruct (Req_dec_T 0 0) as [_|Hne]; [done|].
        by destruct Hne. }
      assert (loss st = loss st1) as E.
      { apply (retained_sticks (length gd - 1) 1 st1 st); [lia | done | |].
        - intros j lj _ _. rewrite HL. destruct l; try done. apply guard_nan.
        - by replace (1 + (length gd - 1))%nat with (length gd) by lia. }
      rewrite E, HL in Hfin. by destruct l.
    + intros i l l' Hl Hz Hl'.
      pose proof (loss_at_lt _ _ Hl') as Hi.
      destruct (upto_exists i) as [sti Hsti]; [lia|].
      (* the zero loss is adopted *)
      destruct (upto_step_loss i sti)
        as (p & l1 & st1 & _ & Hl1 & Hst1 & Hcase); [lia | done |].
      rewrite Hl in Hl1. injection Hl1 as <-.
      assert (loss st1 = l) as HL1.
      { destruct Hcase as [(_ & HL & _) | (Hg & HL & _)]; [done | exfalso].
        destruct (decide (i = 0%nat)) as [->|Hi0].
        { injection Hsti as <-. cbn in Hg.
          destruct (Req_dec_T 0 0) as [_|Hne]; [done|]. by destruct Hne. }
        destruct (retained_after i sti) as (_ & (pi & Hfi & _) & _);
          [lia | done |].
        assert (loss_at (best_guess_index sti) = Some (loss sti)) as Hli
          by (apply loss_at_fit; by exists pi).
        destruct (Hrange _ _ Hli) as [Hninf Hpos].
        destruct (is_nan (loss sti)) eqn:Hnan.
        - assert (loss st = loss sti) as E.
          { apply (retained_sticks (length gd - i) i sti st);
              [lia | done | |].
            - intros j lj _ _. destruct (loss sti); try done.
              apply guard_nan.
            - by replace (i + (length gd - i))%nat with (length gd) by lia. }
          rewrite E in Hfin. by destruct (loss sti).
        - rewrite (guard_zero_candidate l (loss sti)) in Hg; done. }
      (* its successor is adopted whatever it is *)
      destruct (upto_step_loss (S i) st1)
        as (p' & l1' & st2 & _ & Hl1' & Hst2 & Hcase'); [lia | done |].
      rewrite Hl' in Hl1'. injection Hl1' as <-.
      assert (loss st2 = l') as HL2.
      { destruct Hcase' as [(_ & HL & _) | (Hg & _)]; [done|].
        rewrite HL1, Hz in Hg. done. }
      assert (is_nan l' = false) as Hnan'.
      { destruct (is_nan l') eqn:Hnan; [exfalso | done].
        assert (loss st = loss st2) as E.
        { apply (retained_sticks (length gd - S (S i)) (S (S i)) st2 st);
            [lia | done | |].
          - intros j lj _ _. rewrite HL2. destruct l'; try done.
            apply guard_nan.
          - by replace (S (S i) + (length gd - S (S i)))%nat
              with (length gd) by lia. }
        rewrite E, HL2 in Hfin. by destruct l'. }
      split; [done|].
      destruct (finite_from (S i) (length gd - S i))
        as [(j & lj & Hj & Hlj & Hfj) | Hnone].
      { exists j, lj. split; [lia | done]. }
      exfalso.
      assert (l' = F_pinf) as ->.
      { pose proof (Hnone (S i) l' ltac:(lia) Hl') as Hnf.
        destruct (Hrange _ _ Hl') as [Hninf _]. by destruct l'. }
      assert (loss st = loss st2) as E.
      { apply (retained_sticks (length gd - S (S i)) (S (S i)) st2 st);
          [lia | done | |].
        - intros j lj Hj Hlj. rewrite HL2. apply guard_pinf.
          + apply (Hnone j); [lia | done].
          + by destruct (Hrange _ _ Hlj).
        - by replace (S (S i) + (length gd - S (S i)))%nat
            with (length gd) by lia. }
      rewrite E, HL2 in Hfin. done.
  - (* the two conditions give a finite selection *)
    intros [Hfirst Hzero].
    assert (Inv : ∀ n stn, (1 ≤ n ≤ length gd)%nat →
      upto n aux0 = Some stn →
      is_nan (loss stn) = false ∧
      (is_finite (loss stn) = true ∨
       ∃ j l, (n ≤ j)%nat ∧ loss_at j = Some l ∧ is_finite l = true)).
    { induction n as [|n IH]; intros stn [Hn1 Hn2] Hstn; [lia|].
      destruct (upto_exists n) as [stp Hstp]; [lia|].
      destruct (upto_step_loss n stp)
        as (p & l & st1 & _ & Hl & Hst1 & Hcase); [lia | done |].
      rewrite Hstn in Hst1. injection Hst1 as <-.
      destruct (decide (n = 0%nat)) as [->|Hn0].
      { injection Hstp as <-.
        destruct Hcase as [(_ & HL & _) | (Hg & _)]; cycle 1.
        { cbn in Hg. destruct (Req_dec_T 0 0) as [_|Hne]; [done|].
          by destruct Hne. }
        rewrite HL. split; [by apply Hfirst|].
        destruct (is_finite l) eqn:Hf; [by left | right].
        exists j0, l0. split; [|done].
        destruct (decide (j0 = 0%nat)) as [->|]; [congruence | lia]. }
      destruct (IH stp) as [Hnan Hlater]; [lia | done |].
      destruct (retained_after n stp) as (Hbp & (pp & Hfp & _) & Hzp);
        [lia | done |].
      assert (loss_at (best_guess_index stp) = Some (loss stp)) as Hlp
        by (apply loss_at_fit; by exists pp).
      destruct (Hrange _ _ Hl) as [Hlninf _].
      destruct (Hrange _ _ Hlp) as [Hpninf _].
      destruct Hcase as [(Hg & HL & _) | (Hg & HL & _)]; rewrite HL.
      - destruct (np_eq0 (loss stp)) eqn:Hz.
        + (* the retained zero is that of the candidate just before *)
          rewrite (Hzp eq_refl) in Hlp.
          destruct (Hzero (n - 1)%nat (loss stp) l) as (Hlnan & j & lj & Hj
                                                         & Hlj & Hfj);
            [done | done | by replace (S (n - 1)) with n by lia |].
          split; [done|].
          destruct (is_finite l) eqn:Hf; [by left | right].
          exists j, lj. split; [|done].
          destruct (decide (j = n)) as [->|]; [congruence | lia].
        + cbn in Hg. split; [by destruct l|]. left.
          destruct l; try done. by destruct (loss stp).
      - split; [done|].
        destruct Hlater as [Hf | (j & lj & Hj & Hlj & Hfj)]; [by left|].
        destruct (decide (j = n)) as [->|Hne].
        + rewrite Hl in Hlj. injection Hlj as <-. left.
          destruct (loss stp) as [| | |y] eqn:E; try done.
          apply orb_false_elim in Hg as [_ Hg]. by destruct l.
        + right. exists j, lj. split; [lia | done]. }
    destruct (Inv (length gd) st) as [_ [Hf | (j & l & Hj & Hl & _)]];
      [lia | done | done |].
    apply loss_at_lt in Hl. lia.
Qed.

End SearchLoop.

(** ** Runs of the search on concrete candidates *)

Section SearchRuns.
Import Search SpecSearch Examples.

Lemma candidate_aux_dt aux d c : candidate_aux aux d c !! "dt" = Some d.
Proof.
  unfold candidate_aux. rewrite lookup_insert_ne by done.
  apply lookup_insert_eq.
Qed.

Lemma after_candidate_adopt aux st i d c p l :
  np_eq0 (loss st) || np_lt l (loss st) = true →
  loss (after_candidate aux st i d c p l) = l ∧
  best_guess_index (after_candidate aux st i d c p l) = i ∧
  new_params (after_candidate aux st i d c p l) = Some p.
Proof. intros H. unfold after_candidate. simpl. by rewrite H. Qed.

Lemma after_candidate_keep aux st i d c p l :
  np_eq0 (loss st) || np_lt l (loss st) = false →
  loss (after_candidate aux st i d c p l) = loss st ∧
  best_guess_index (after_candidate aux st i d c p l) = best_guess_index st ∧
  new_params (after_candidate aux st i d c p l) = new_params st.
Proof. intros H. unfold after_candidate. simpl. by rewrite H. Qed.

(** One iteration on concrete candidates: the state after it, with the
    candidate and its fit read off the lists. *)
Lemma search_upto_next fit0 X Y guess gd gc aux n st d c :
  length gd = length gc →
  search_upto fit0 X Y guess gd gc n aux = Some st →
  gd !! n = Some d → gc !! n = Some c →
  search_upto fit0 X Y guess gd gc (S n) aux =
  Some (after_candidate aux st n d c
          (fst (fit0 X Y (candidate_aux aux d c) guess))
          (snd (fit0 X Y (candidate_aux aux d c) guess))).
Proof.
  intros Hlen Hst Hd Hc.
  destruct (search_upto_step fit0 X Y guess gd gc aux Hlen n st)
    as (d' & c' & p & l & Hd' & Hc' & Hfit & Hst').
  { apply lookup_lt_is_Some_1. by eexists. }
  { done. }
  rewrite Hd in Hd'. rewrite Hc in Hc'. injection Hd' as <-.
  injection Hc' as <-. unfold fit_at in Hfit. rewrite Hd, Hc in Hfit.
  simpl in Hfit. injection Hfit as Hfit. by rewrite Hfit.
Qed.

Lemma loss_at_value fit0 X Y guess gd gc aux n d c :
  gd !! n = Some d → gc !! n = Some c →
  loss_at fit0 X Y guess gd gc aux n =
  Some (snd (fit0 X Y (candidate_aux aux d c) guess)).
Proof. intros Hd Hc. unfold loss_at, fit_at. by rewrite Hd, Hc. Qed.

Lemma fit_loss_is_dt_value X Y aux d c p :
  fit_loss_is_dt X Y (candidate_aux aux d c) p = (p, F_fin d).
Proof. unfold fit_loss_is_dt. by rewrite candidate_aux_dt. Qed.

Lemma fit_nan_at_0_value_0 X Y aux c p :
  fit_nan_at_0 X Y (candidate_aux aux 0 c) p = (p, F_nan).
Proof.
  unfold fit_nan_at_0. rewrite candidate_aux_dt. simpl.
  by destruct (Req_dec_T 0 0).
Qed.

Lemma fit_nan_at_0_value_1 X Y aux c p :
  fit_nan_at_0 X Y (candidate_aux aux 1 c) p = (p, F_fin 1).
Proof.
  unfold fit_nan_at_0. rewrite candidate_aux_dt. simpl.
  destruct (Req_dec_T 1 0); [lra | done].
Qed.

(** The run on the losses 0 then 1: the second candidate is retained. *)
Lemma run_losses_0_1 :
  ∃ st,
    search_upto fit_loss_is_dt [] [] [] [0; 1] [0; 0] 2 ∅ = Some st ∧
    best_guess_index st = 1%nat ∧ loss st = F_fin 1.
Proof.
  pose proof (search_upto_next fit_loss_is_dt [] [] [] [0; 1] [0; 0] ∅
                0 (initial_state ∅) 0 0 eq_refl eq_refl eq_refl eq_refl)
    as H1.
  rewrite fit_loss_is_dt_value in H1. simpl fst in H1. simpl snd in H1.
  pose proof (search_upto_next fit_loss_is_dt [] [] [] [0; 1] [0; 0] ∅
                1 _ 1 0 eq_refl H1 eq_refl eq_refl) as H2.
  rewrite fit_loss_is_dt_value in H2. simpl fst in H2. simpl snd in H2.
  assert (E0 : np_eq0 (F_fin 0) = true) by by apply np_eq0_fin.
  destruct (after_candidate_adopt ∅ (initial_state ∅) 0 0 0 [] (F_fin 0))
    as (L1 & B1 & P1); [simpl loss; by rewrite E0|].
  destruct (after_candidate_adopt ∅
              (after_candidate ∅ (initial_state ∅) 0 0 0 [] (F_fin 0))
              1 1 0 [] (F_fin 1)) as (L2 & B2 & P2).
  { rewrite L1. by rewrite E0. }
  eexists. split; [exact H2|]. by rewrite B2, L2.
Qed.

(** The run on the losses NaN then 1: the first candidate is retained. *)
Lemma run_losses_nan_1 :
  ∃ st,
    search_upto fit_nan_at_0 [] [] [] [0; 1] [0; 0] 2 ∅ = Some st ∧
    best_guess_index st = 0%nat ∧ loss st = F_nan.
Proof.
  assert (E0 : np_eq0 (F_fin 0) = true) by by apply np_eq0_fin.
  pose proof (search_upto_next fit_nan_at_0 [] [] [] [0; 1] [0; 0] ∅
                0 (initial_state ∅) 0 0 eq_refl eq_refl eq_refl eq_refl)
    as H1.
  rewrite fit_nan_at_0_value_0 in H1. simpl fst in H1. simpl snd in H1.
  pose proof (search_upto_next fit_nan_at_0 [] [] [] [0; 1] [0; 0] ∅
                1 _ 1 0 eq_refl H1 eq_refl eq_refl) as H2.
  rewrite fit_nan_at_0_value_1 in H2. simpl fst in H2. simpl snd in H2.
  destruct (after_candidate_adopt ∅ (initial_state ∅) 0 0 0 [] F_nan)
    as (L1 & B1 & P1); [simpl loss; by rewrite E0|].
  destruct (after_candidate_keep ∅
              (after_candidate ∅ (initial_state ∅) 0 0 0 [] F_nan)
              1 1 0 [] (F_fin 1)) as (L2 & B2 & P2).
  { by rewrite L1. }
  eexists. split; [exact H2|]. by rewrite B2, L2, B1, L1.
Qed.

(** C4 as stated fails: with losses 0 then 1 the second candidate replaces
    the first, so after two iterations the retained best (index 1, loss 1)
    is not the minimum of the losses seen (index 0, loss 0); and with losses
    NaN then 1 the first candidate is adopted and kept, so the retained best
    (index 0, loss NaN) is not the minimum either (index 1, loss 1). *)
Lemma retained_best_not_minimum :
  (∃ st,
     search_upto fit_loss_is_dt [] [] [] [0; 1] [0; 0] 2 ∅ = Some st ∧
     best_guess_index st = 1%nat ∧ loss st = F_fin 1 ∧
     loss_at fit_loss_is_dt [] [] [] [0; 1] [0; 0] ∅ 0 = Some (F_fin 0) ∧
     ¬ first_minimum (loss_at fit_loss_is_dt [] [] [] [0; 1] [0; 0] ∅) 2
         (best_guess_index st)) ∧
  (∃ st,
     search_upto fit_nan_at_0 [] [] [] [0; 1] [0; 0] 2 ∅ = Some st ∧
     best_guess_index st = 0%nat ∧ loss st = F_nan ∧
     loss_at fit_nan_at_0 [] [] [] [0; 1] [0; 0] ∅ 1 = Some (F_fin 1) ∧
     ¬ first_minimum (loss_at fit_nan_at_0 [] [] [] [0; 1] [0; 0] ∅) 2
         (best_guess_index st)).
Proof.
  split.
  - destruct run_losses_0_1 as (st & Hst & Hb & Hl).
    exists st. rewrite Hb. do 3 (split; [done|]). split.
    + rewrite (loss_at_value _ _ _ _ _ _ _ _ 0 0) by done.
      by rewrite fit_loss_is_dt_value.
    + intros (_ & lk & Hlk & _ & Hmin).
      rewrite (loss_at_value _ _ _ _ _ _ _ _ 1 0) in Hlk by done.
      rewrite fit_loss_is_dt_value in Hlk. injection Hlk as <-.
      destruct (Hmin 0%nat (F_fin 0)) as [Hge _]; [lia | | done |].
      * rewrite (loss_at_value _ _ _ _ _ _ _ _ 0 0) by done.
        by rewrite fit_loss_is_dt_value.
      * apply np_lt_fin_false in Hge. lra.
  - destruct run_losses_nan_1 as (st & Hst & Hb & Hl).
    exists st. rewrite Hb. do 3 (split; [done|]). split.
    + rewrite (loss_at_value _ _ _ _ _ _ _ _ 1 0) by done.
      by rewrite fit_nan_at_0_value_1.
    + intros (_ & lk & Hlk & Hnan & _).
      rewrite (loss_at_value _ _ _ _ _ _ _ _ 0 0) in Hlk by done.
      rewrite fit_nan_at_0_value_0 in Hlk. by injection Hlk as <-.
Qed.

Lemma fit_0_then_nan_value_0 X Y aux c p :
  fit_0_then_nan X Y (candidate_aux aux 0 c) p = (p, F_fin 0).
Proof.
  unfold fit_0_then_nan. rewrite candidate_aux_dt. simpl.
  by destruct (Req_dec_T 0 0).
Qed.

Lemma fit_0_then_nan_value_1 X Y aux c p :
  fit_0_then_nan X Y (candidate_aux aux 1 c) p = (p, F_nan).
Proof.
  unfold fit_0_then_nan. rewrite candidate_aux_dt. simpl.
  destruct (Req_dec_T 1 0); [lra|]. by destruct (Req_dec_T 1 1).
Qed.

Lemma fit_0_then_nan_value_2 X Y aux c p :
  fit_0_then_nan X Y (candidate_aux aux 2 c) p = (p, F_fin 1).
Proof.
  unfold fit_0_then_nan. rewrite candidate_aux_dt. simpl.
  destruct (Req_dec_T 2 0); [lra|]. destruct (Req_dec_T 2 1); [lra | done].
Qed.

Lemma loss_inf_nan_at X Y guess gd gc aux i l :
  loss_at fit_inf_nan_then_dt X Y guess gd gc aux i = Some l →
  ∃ d, gd !! i = Some d ∧
       l = if Req_dec_T d 0 then F_pinf
           else if Req_dec_T d 1 then F_nan else F_fin (d - 2).
Proof.
  unfold loss_at, fit_at. destruct (gd !! i) as [d|]; [|done].
  destruct (gc !! i) as [c|]; [|done].
  cbn [mbind option_bind fmap option_fmap option_map].
  unfold fit_inf_nan_then_dt. rewrite candidate_aux_dt. cbn [default snd].
  intros [= <-]. by exists d.
Qed.

(** The run on the losses 0 then plus infinity: the second candidate is
    retained. *)
Lemma fit_inf_nan_then_dt_value_0 X Y aux c p :
  fit_inf_nan_then_dt X Y (candidate_aux aux 0 c) p = (p, F_pinf).
Proof.
  unfold fit_inf_nan_then_dt. rewrite candidate_aux_dt. simpl.
  by destruct (Req_dec_T 0 0).
Qed.

Lemma fit_inf_nan_then_dt_value_2 X Y aux c p :
  fit_inf_nan_then_dt X Y (candidate_aux aux 2 c) p = (p, F_fin (2 - 2)).
Proof.
  unfold fit_inf_nan_then_dt. rewrite candidate_aux_dt. simpl.
  destruct (Req_dec_T 2 0); [lra|]. by destruct (Req_dec_T 2 1); [lra|].
Qed.

Lemma run_losses_0_inf :
  ∃ st,
    outer_search fit_inf_nan_then_dt [] [] [] [2; 0] [0; 0] ∅ = Some st ∧
    best_guess_index st = 1%nat ∧ loss st = F_pinf.
Proof.
  pose proof (search_upto_next fit_inf_nan_then_dt [] [] [] [2; 0] [0; 0] ∅
                0 (initial_state ∅) 2 0 eq_refl eq_refl eq_refl eq_refl)
    as H1.
  rewrite fit_inf_nan_then_dt_value_2 in H1.
  simpl fst in H1. simpl snd in H1.
  pose proof (search_upto_next fit_inf_nan_then_dt [] [] [] [2; 0] [0; 0] ∅
                1 _ 0 0 eq_refl H1 eq_refl eq_refl) as H2.
  rewrite fit_inf_nan_then_dt_value_0 in H2.
  simpl fst in H2. simpl snd in H2.
  assert (E0 : np_eq0 (F_fin (2 - 2)) = true) by (apply np_eq0_fin; lra).
  assert (Es : np_eq0 (F_fin 0) = true) by by apply np_eq0_fin.
  destruct (after_candidate_adopt ∅ (initial_state ∅) 0 2 0 []
              (F_fin (2 - 2))) as (L1 & B1 & P1);
    [simpl loss; by rewrite Es|].
  destruct (after_candidate_adopt ∅
              (after_candidate ∅ (initial_state ∅) 0 2 0 [] (F_fin (2 - 2)))
              1 0 0 [] F_pinf) as (L2 & B2 & P2).
  { rewrite L1. by rewrite E0. }
  eexists. split; [exact H2|]. by rewrite B2, L2.
Qed.

(** C5 as stated fails: a NaN loss on the first candidate is adopted and
    never replaced, although the second candidate has the finite loss 1; a
    NaN loss that follows a retained loss of exactly 0 is adopted and never
    replaced, although the first and third candidates have finite losses;
    and an infinite loss that follows a retained loss of exactly 0 is
    adopted and, with no finite loss after it, is the final selection. *)
Lemma nan_loss_is_selected :
  (∃ st,
     outer_search fit_nan_at_0 [] [] [] [0; 1] [0; 0] ∅ = Some st ∧
     best_guess_index st = 0%nat ∧ loss st = F_nan ∧
     is_finite (loss st) = false ∧
     loss_at fit_nan_at_0 [] [] [] [0; 1] [0; 0] ∅ 1 = Some (F_fin 1)) ∧
  (∃ st,
     outer_search fit_0_then_nan [] [] [] [0; 1; 2] [0; 0; 0] ∅ = Some st ∧
     best_guess_index st = 1%nat ∧ loss st = F_nan ∧
     is_finite (loss st) = false ∧
     loss_at fit_0_then_nan [] [] [] [0; 1; 2] [0; 0; 0] ∅ 0
     = Some (F_fin 0) ∧
     loss_at fit_0_then_nan [] [] [] [0; 1; 2] [0; 0; 0] ∅ 2
     = Some (F_fin 1)) ∧
  (∃ st,
     outer_search fit_inf_nan_then_dt [] [] [] [2; 0] [0; 0] ∅ = Some st ∧
     best_guess_index st = 1%nat ∧ loss st = F_pinf ∧
     is_finite (loss st) = false ∧
     ∃ l0, loss_at fit_inf_nan_then_dt [] [] [] [2; 0] [0; 0] ∅ 0 = Some l0 ∧
           is_finite l0 = true).
Proof.
  assert (E0 : np_eq0 (F_fin 0) = true) by by apply np_eq0_fin.
  split; [|split]; cycle 2.
  { destruct run_losses_0_inf as (st & Hst & Hb & Hl).
    exists st. rewrite Hl. do 4 (split; [done|]).
    rewrite (loss_at_value _ _ _ _ _ _ _ _ 2 0) by done.
    rewrite fit_inf_nan_then_dt_value_2. by eexists. }
  - destruct run_losses_nan_1 as (st & Hst & Hb & Hl).
    exists st. rewrite Hl. do 4 (split; [done|]).
    rewrite (loss_at_value _ _ _ _ _ _ _ _ 1 0) by done.
    by rewrite fit_nan_at_0_value_1.
  - pose proof (search_upto_next fit_0_then_nan [] [] []
                  [0; 1; 2] [0; 0; 0] ∅
                  0 (initial_state ∅) 0 0 eq_refl eq_refl eq_refl eq_refl)
      as H1.
    rewrite fit_0_then_nan_value_0 in H1. simpl fst in H1. simpl snd in H1.
    pose proof (search_upto_next fit_0_then_nan [] [] []
                  [0; 1; 2] [0; 0; 0] ∅
                  1 _ 1 0 eq_refl H1 eq_refl eq_refl) as H2.
    rewrite fit_0_then_nan_value_1 in H2. simpl fst in H2. simpl snd in H2.
    pose proof (search_upto_next fit_0_then_nan [] [] []
                  [0; 1; 2] [0; 0; 0] ∅
                  2 _ 2 0 eq_refl H2 eq_refl eq_refl) as H3.
    rewrite fit_0_then_nan_value_2 in H3. simpl fst in H3. simpl snd in H3.
    destruct (after_candidate_adopt ∅ (initial_state ∅) 0 0 0 [] (F_fin 0))
      as (L1 & B1 & P1); [simpl loss; by rewrite E0|].
    destruct (after_candidate_adopt ∅
                (after_candidate ∅ (initial_state ∅) 0 0 0 [] (F_fin 0))
                1 1 0 [] F_nan) as (L2 & B2 & P2).
    { rewrite L1. by rewrite E0. }
    destruct (after_candidate_keep ∅
                (after_candidate ∅
                   (after_candidate ∅ (initial_state ∅) 0 0 0 [] (F_fin 0))
                   1 1 0 [] F_nan)
                2 2 0 [] (F_fin 1)) as (L3 & B3 & P3).
    { by rewrite L2. }
    eexists. split; [exact H3|]. rewrite B3, L3, B2, L2.
    do 3 (split; [done|]). split.
    + rewrite (loss_at_value _ _ _ _ _ _ _ _ 0 0) by done.
      by rewrite fit_0_then_nan_value_0.
    + rewrite (loss_at_value _ _ _ _ _ _ _ _ 2 0) by done.
      by rewrite fit_0_then_nan_value_2.
Qed.

Lemma loss_is_dt_at X Y guess gd gc aux i l :
  loss_at fit_loss_is_dt X Y guess gd gc aux i = Some l →
  ∃ d, gd !! i = Some d ∧ l = F_fin d.
Proof.
  unfold loss_at, fit_at. destruct (gd !! i) as [d|]; [|done].
  destruct (gc !! i) as [c|]; [|done]. cbn [mbind option_bind fmap option_fmap option_map].
  rewrite fit_loss_is_dt_value. intros [= <-]. by exists d.
Qed.

(** The run on the losses 2, 1, 1, 0: a tie between the second and third
    candidates, and a loss of exactly zero on the latest candidate. *)
Lemma best_is_first_minimum_witness :
  ∃ st pk,
    search_upto fit_loss_is_dt [] [] [] [2; 1; 1; 0] [0; 0; 0; 0] 4 ∅
    = Some st ∧
    fit_at fit_loss_is_dt [] [] [] [2; 1; 1; 0] [0; 0; 0; 0] ∅
      (best_guess_index st) = Some (pk, loss st) ∧
    new_params st = Some pk ∧
    first_minimum (loss_at fit_loss_is_dt [] [] [] [2; 1; 1; 0] [0; 0; 0; 0] ∅)
      4 (best_guess_index st).
Proof.
  refine (proj2 (proj2 (best_is_first_minimum fit_loss_is_dt [] [] []
                          [2; 1; 1; 0] [0; 0; 0; 0] ∅ eq_refl 4 _)) _ _).
  - simpl. lia.
  - intros l Hl. by destruct (loss_is_dt_at _ _ _ _ _ _ _ _ Hl) as (d & _ & ->).
  - intros i l Hi Hl.
    destruct (loss_is_dt_at _ _ _ _ _ _ _ _ Hl) as (d & Hd & ->).
    apply np_eq0_fin_false.
    destruct i as [|[|[|i]]]; [| | |lia]; injection Hd as <-; lra.
Defined.

Lemma inf_nan_0_1_losses i l :
  loss_at fit_inf_nan_then_dt [] [] [] [0; 1; 2; 3] [0; 0; 0; 0] ∅ i
  = Some l →
  (i = 0%nat ∧ l = F_pinf) ∨ (i = 1%nat ∧ l = F_nan) ∨
  (i = 2%nat ∧ l = F_fin (2 - 2)) ∨ (i = 3%nat ∧ l = F_fin (3 - 2)).
Proof.
  intros Hl. destruct (loss_inf_nan_at _ _ _ _ _ _ _ _ Hl) as (d & Hd & ->).
  destruct i as [|[|[|[|i]]]]; [| | | |done]; injection Hd as <-.
  - left. by destruct (Req_dec_T 0 0); [|lra].
  - right. left. destruct (Req_dec_T 1 0); [lra|].
    by destruct (Req_dec_T 1 1); [|lra].
  - right. right. left. destruct (Req_dec_T 2 0); [lra|].
    by destruct (Req_dec_T 2 1); [lra|].
  - right. right. right. destruct (Req_dec_T 3 0); [lra|].
    by destruct (Req_dec_T 3 1); [lra|].
Qed.

(** The run on the losses plus infinity, NaN, 0, 1: the two candidates of
    non-finite loss are not the final selection. *)
Lemma finite_loss_selected_witness :
  ∃ st pk,
    outer_search fit_inf_nan_then_dt [] [] [] [0; 1; 2; 3] [0; 0; 0; 0] ∅
    = Some st ∧
    fit_at fit_inf_nan_then_dt [] [] [] [0; 1; 2; 3] [0; 0; 0; 0] ∅
      (best_guess_index st) = Some (pk, loss st) ∧
    new_params st = Some pk ∧
    is_finite (loss st) = true ∧
    loss_at fit_inf_nan_then_dt [] [] [] [0; 1; 2; 3] [0; 0; 0; 0] ∅ 0
    = Some F_pinf ∧
    loss_at fit_inf_nan_then_dt [] [] [] [0; 1; 2; 3] [0; 0; 0; 0] ∅ 1
    = Some F_nan.
Proof.
  assert (L3 : loss_at fit_inf_nan_then_dt [] [] [] [0; 1; 2; 3]
                 [0; 0; 0; 0] ∅ 3 = Some (F_fin (3 - 2))).
  { rewrite (loss_at_value _ _ _ _ _ _ _ _ 3 0) by done.
    unfold fit_inf_nan_then_dt. rewrite candidate_aux_dt. simpl.
    destruct (Req_dec_T 3 0); [lra|]. by destruct (Req_dec_T 3 1); [lra|]. }
  assert (L0 : loss_at fit_inf_nan_then_dt [] [] [] [0; 1; 2; 3]
                 [0; 0; 0; 0] ∅ 0 = Some F_pinf).
  { rewrite (loss_at_value _ _ _ _ _ _ _ _ 0 0) by done.
    unfold fit_inf_nan_then_dt. rewrite candidate_aux_dt. simpl.
    by destruct (Req_dec_T 0 0); [|lra]. }
  assert (L1 : loss_at fit_inf_nan_then_dt [] [] [] [0; 1; 2; 3]
                 [0; 0; 0; 0] ∅ 1 = Some F_nan).
  { rewrite (loss_at_value _ _ _ _ _ _ _ _ 1 0) by done.
    unfold fit_inf_nan_then_dt. rewrite candidate_aux_dt. simpl.
    destruct (Req_dec_T 1 0); [lra|]. by destruct (Req_dec_T 1 1); [|lra]. }
  destruct (finite_loss_selected fit_inf_nan_then_dt [] [] []
              [0; 1; 2; 3] [0; 0; 0; 0] ∅ eq_refl)
    as (st & pk & Hst & Hfit & Hp & Hiff).
  - intros i l Hl.
    destruct (inf_nan_0_1_losses i l Hl)
      as [[_ ->] | [[_ ->] | [[_ ->] | [_ ->]]]];
      (split; [done|]); intros x [= <-]; lra.
  - by exists 3%nat, (F_fin (3 - 2)).
  - exists st, pk. do 3 (split; [done|]). split; [|by split].
    apply Hiff. split.
    + intros l Hl. rewrite L0 in Hl. by injection Hl as <-.
    + intros i l l' Hl Hz Hl'.
      destruct (inf_nan_0_1_losses i l Hl)
        as [[_ ->] | [[_ ->] | [[-> ->] | [-> ->]]]]; try done.
      rewrite L3 in Hl'. injection Hl' as <-. split; [done|].
      by exists 3%nat, (F_fin (3 - 2)).
Defined.

End SearchRuns.

(** ** The frame of the search on the auxiliary parameters *)

(** C9: each iteration of the outer search loop assigns dt and cvert, once
    each and nothing else: the dictionary after the iteration is the one
    before it with dt and cvert set to the values of the iteration's
    candidate.  So every other auxiliary entry is, after every iteration, as
    it was at the start; and after the whole run (loop and write-back) the
    entries c3, r, dt_min, dt_max and the four cutoffs still hold their
    initial values. *)
Theorem aux_frame scipy_optimize X Y guess span_dt span_cvert
    (aux0 : gmap string R) :
  length span_cvert = length span_dt →
  ∃ gd gc,
    Search.downsample span_dt span_cvert = Some (gd, gc) ∧
    (∀ n, (n ≤ length gd)%nat →
       ∃ st,
         Search.search_upto scipy_optimize X Y guess gd gc n aux0 = Some st ∧
         Search.aux_writes st = concat (replicate n ["dt"; "cvert"]) ∧
         (∀ k : string, k ≠ "dt" → k ≠ "cvert" →
                        Search.aux_params st !! k = aux0 !! k) ∧
         Forall (λ k, Search.aux_params st !! k = aux0 !! k)
                SpecSearch.frame_keys) ∧
    (∀ n st, (n < length gd)%nat →
       Search.search_upto scipy_optimize X Y guess gd gc n aux0 = Some st →
       ∃ d c st',
         gd !! n = Some d ∧ gc !! n = Some c ∧
         Search.search_upto scipy_optimize X Y guess gd gc (S n) aux0
         = Some st' ∧
         Search.aux_params st' =
         <["cvert" := c]> (<["dt" := d]> (Search.aux_params st)) ∧
         Search.aux_writes st' = Search.aux_writes st ++ ["dt"; "cvert"]) ∧
    (∀ st',
       Search.run scipy_optimize X Y guess span_dt span_cvert aux0
       = Returns st' →
       Forall (λ k, Search.aux_params st' !! k = aux0 !! k)
              SpecSearch.frame_keys).
Proof.
  intros Hlen.
  assert (∃ gd gc, Search.downsample span_dt span_cvert = Some (gd, gc))
    as (gd & gc & Hds).
  { destruct (decide (Search.max_itterations < length span_dt)%nat).
    - rewrite downsample_large by done. by eexists _, _.
    - rewrite downsample_small by lia. by eexists _, _. }
  destruct (downsample_at_most_200 _ _ _ _ Hds) as [_ Hgl].
  symmetry in Hgl.
  exists gd, gc. split; [done|]. split; [|split].
  - intros n Hn. by apply search_frame.
  - intros n st Hn Hst.
    destruct (search_upto_defined scipy_optimize X Y guess gd gc aux0 Hgl n)
      as (st0 & Hst0 & Hframed & _); [lia|].
    rewrite Hst in Hst0. injection Hst0 as <-.
    destruct (search_upto_step scipy_optimize X Y guess gd gc aux0 Hgl n st
                Hn Hst) as (d & c & p & l & Hd & Hc & _ & Hnext).
    exists d, c, (SpecSearch.after_candidate aux0 st n d c p l).
    do 3 (split; [done|]). split; [|done].
    cbn [Search.aux_params SpecSearch.after_candidate].
    symmetry. by apply candidate_aux_framed.
  - intros st' Hrun. unfold Search.run in Hrun. rewrite Hds in Hrun.
    cbn [mbind outcome_bind of_option] in Hrun.
    unfold Search.outer_search in Hrun.
    destruct (search_frame scipy_optimize X Y guess gd gc aux0 Hgl
                (length gd)) as (st & Hst & _ & Hf & _); [lia|].
    rewrite Hst in Hrun. cbn [mbind outcome_bind of_option] in Hrun.
    apply finish_frame in Hrun as [_ Hfin].
    unfold SpecSearch.frame_keys.
    repeat constructor; (rewrite Hfin by done); by apply Hf.
Qed.

(** ** Reading the parameter file *)

Section Reader.
Import Params.

Variable np_float64 : string → option R.

Local Abbreviation read_line := (Params.read_line np_float64).
Local Abbreviation read_lines := (Params.read_lines np_float64).

(** *** The string methods *)

Lemma is_space_lower c : is_space (lower_char c) = is_space c.
Proof. destruct c as [[] [] [] [] [] [] [] []]; reflexivity. Qed.

Lemma lower_lstrip s : lower (lstrip s) = lstrip (lower s).
Proof.
  induction s as [|c s IH]; [done|].
  simpl. rewrite is_space_lower. by destruct (is_space c).
Qed.

Lemma lower_append s1 s2 :
  lower (String.append s1 s2) = String.append (lower s1) (lower s2).
Proof. induction s1 as [|c s1 IH]; simpl; [done | by rewrite IH]. Qed.

Lemma lower_string_rev s : lower (string_rev s) = string_rev (lower s).
Proof.
  induction s as [|c s IH]; [done|].
  simpl. by rewrite lower_append, IH.
Qed.

Lemma lower_strip s : lower (strip s) = strip (lower s).
Proof.
  unfold strip.
  by rewrite lower_string_rev, lower_lstrip, lower_string_rev, lower_lstrip.
Qed.

Lemma split_nonempty sep s : ∃ h t, split sep s = h :: t.
Proof.
  induction s as [|c s (h & t & IH)]; simpl; [by eexists _, _|].
  destruct (Ascii.eqb c sep); [by eexists _, _|].
  rewrite IH. by eexists _, _.
Qed.

Lemma index_elem_of x l :
  x ∈ l → ∃ i, index x l = Some i ∧ (i < length l)%nat.
Proof.
  induction l as [|y l IH]; intros Hx; [by apply elem_of_nil in Hx|].
  simpl. destruct (decide (x = y)) as [->|Hne].
  - exists 0%nat. split; [done | simpl; lia].
  - apply elem_of_cons in Hx as [->|Hx]; [done|].
    destruct (IH Hx) as (i & -> & Hi). exists (S i). split; [done|].
    simpl. lia.
Qed.

Lemma key_of_defined line : ∃ k, key_of line = Some k.
Proof.
  unfold key_of, row_of.
  destruct (split_nonempty "="%char line) as (h & t & ->). by eexists.
Qed.

Lemma tuned_not_user k : k ∈ TUNED_PARAMS → k ∉ USER_DEFINED_PARAMS.
Proof.
  unfold TUNED_PARAMS. rewrite !elem_of_cons, elem_of_nil.
  intros [->|[->|[->|[->|[]]]]]; by apply (bool_decide_unpack _).
Qed.

(** *** One line *)

Lemma present_keys_skipped line fp :
  skipped line = true → present_keys (line :: fp) = present_keys fp.
Proof.
  intros H. unfold present_keys, data_lines. rewrite filter_cons.
  case_decide; [congruence | done].
Qed.

Lemma present_keys_data line fp k :
  skipped line = false → key_of line = Some k →
  present_keys (line :: fp) = k :: present_keys fp.
Proof.
  intros H Hk. unfold present_keys, data_lines. rewrite filter_cons.
  case_decide; [|done]. simpl. by rewrite Hk.
Qed.

Lemma data_lines_skipped line fp :
  skipped line = true → data_lines (line :: fp) = data_lines fp.
Proof.
  intros H. unfold data_lines. rewrite filter_cons.
  case_decide; [congruence | done].
Qed.

Lemma data_lines_data line fp :
  skipped line = false → data_lines (line :: fp) = line :: data_lines fp.
Proof.
  intros H. unfold data_lines. rewrite filter_cons. by case_decide.
Qed.

Lemma read_line_skipped st line :
  skipped line = true → read_line st line = Returns st.
Proof. intros H. unfold Params.read_line. destruct st. by rewrite H. Qed.

(** A data line with an unrecognised key stops the program. *)
Lemma read_line_unrecognised st line k :
  skipped line = false → key_of line = Some k → ¬ recognised k →
  read_line st line = SysExit 1.
Proof.
  intros Hs Hk Hnr. unfold Params.read_line. destruct st as [ps d].
  rewrite Hs. unfold key_of in Hk.
  destruct (row_of line !! 0%nat) as [r0|]; [|done].
  simpl in Hk. injection Hk as <-.
  cbn [mbind outcome_bind of_option].
  destruct (decide (_ ∈ TUNED_PARAMS)) as [Ht|_];
    [destruct Hnr; by left|].
  destruct (decide (_ ∈ USER_DEFINED_PARAMS)) as [Hu|_];
    [destruct Hnr; by right | done].
Qed.

(** What a data line that is read leaves behind. *)
Lemma read_line_returns ps d line ps' d' :
  skipped line = false → read_line (ps, d) line = Returns (ps', d') →
  ∃ k, key_of line = Some k ∧ recognised k ∧
       (∀ j, j ∈ dom d' → j ∈ dom d ∨ j = k).
Proof.
  intros Hs. unfold Params.read_line. rewrite Hs. unfold key_of.
  destruct (row_of line !! 0%nat) as [r0|];
    cbn [mbind outcome_bind of_option option_bind]; [|done].
  destruct (decide (_ ∈ TUNED_PARAMS)) as [Ht|Hnt].
  - destruct (index (lower (strip r0)) TUNED_PARAMS) as [i|];
      cbn [mbind outcome_bind of_option]; [|done].
    destruct (row_of line !! 1%nat) as [r1|];
      cbn [mbind outcome_bind of_option]; [|done].
    destruct (np_float64 (strip r1)) as [v|];
      cbn [mbind outcome_bind of_option]; [|done].
    intros [= <- <-].
    eexists. split; [done|]. split; [by left | by left].
  - destruct (decide (_ ∈ USER_DEFINED_PARAMS)) as [Hu|Hnu]; [|done].
    destruct (row_of line !! 1%nat) as [r1|];
      cbn [mbind outcome_bind of_option]; [|done].
    destruct (np_float64 (strip r1)) as [v|];
      cbn [mbind outcome_bind of_option]; [|done].
    intros [= <- <-].
    eexists. split; [done|]. split; [by right|].
    intros j. rewrite dom_insert_L, elem_of_union, elem_of_singleton.
    tauto.
Qed.

(** A data line with a recognised key and a value is read. *)
Lemma read_line_good ps d line k :
  skipped line = false → key_of line = Some k → recognised k →
  has_value np_float64 line →
  ∃ ps' d', read_line (ps, d) line = Returns (ps', d') ∧
    length ps' = length ps ∧
    (∀ j, j ∈ dom d' ↔ j ∈ dom d ∨ (j = k ∧ k ∈ USER_DEFINED_PARAMS)).
Proof.
  intros Hs Hk Hrec (r1 & v & Hr1 & Hv).
  unfold Params.read_line. rewrite Hs. unfold key_of in Hk.
  destruct (row_of line !! 0%nat) as [r0|]; [|done].
  simpl in Hk. injection Hk as <-.
  cbn [mbind outcome_bind of_option].
  destruct (decide (_ ∈ TUNED_PARAMS)) as [Ht|Hnt].
  - rewrite lower_strip.
    destruct (index_elem_of _ _ Ht) as (i & -> & Hi).
    cbn [mbind outcome_bind of_option]. rewrite Hr1.
    cbn [mbind outcome_bind of_option]. rewrite Hv.
    cbn [mbind outcome_bind of_option].
    eexists _, _. split; [done|]. split; [by rewrite length_insert|].
    intros j. split; [by left|]. intros [?|[_ Hu]]; [assumption|].
    destruct (tuned_not_user _ Ht Hu).
  - destruct Hrec as [?|Hu]; [contradiction|].
    destruct (decide (_ ∈ USER_DEFINED_PARAMS)); [|contradiction].
    rewrite Hr1. cbn [mbind outcome_bind of_option]. rewrite Hv.
    cbn [mbind outcome_bind of_option].
    eexists _, _. split; [done|]. split; [done|].
    intros j. rewrite dom_insert_L, elem_of_union, elem_of_singleton.
    tauto.
Qed.

(** *** The loop over the lines *)

Lemma read_lines_returns fp ps d ps' d' :
  read_lines fp (ps, d) = Returns (ps', d') →
  (∀ k, k ∈ present_keys fp → recognised k) ∧
  (∀ j, j ∈ dom d' → j ∈ dom d ∨ j ∈ present_keys fp).
Proof.
  revert ps d. induction fp as [|line fp IH]; intros ps d H.
  - injection H as <- <-. split; [|by left].
    intros k Hk. by apply elem_of_nil in Hk.
  - cbn [Params.read_lines] in H.
    destruct (skipped line) eqn:Hs.
    + rewrite read_line_skipped in H by done.
      rewrite present_keys_skipped by done. by apply IH in H.
    + destruct (read_line (ps, d) line) as [[ps1 d1]| |] eqn:Hl;
        [|done|done].
      cbn [mbind outcome_bind] in H.
      apply read_line_returns in Hl as (k & Hk & Hrec & Hdom); [|done].
      rewrite (present_keys_data _ _ k) by done.
      apply IH in H as [Hall Hd']. split.
      * intros j [->|Hj]%elem_of_cons; [done | by apply Hall].
      * intros j Hj. rewrite elem_of_cons.
        destruct (Hd' j Hj) as [Hj1|?]; [|tauto].
        destruct (Hdom j Hj1); tauto.
Qed.

Lemma read_lines_good fp ps d :
  (∀ k, k ∈ present_keys fp → recognised k) →
  (∀ line, line ∈ data_lines fp → has_value np_float64 line) →
  ∃ ps' d', read_lines fp (ps, d) = Returns (ps', d') ∧
    length ps' = length ps ∧
    (∀ j, j ∈ dom d' ↔
          j ∈ dom d ∨ (j ∈ present_keys fp ∧ j ∈ USER_DEFINED_PARAMS)).
Proof.
  revert ps d. induction fp as [|line fp IH]; intros ps d Hrec Hval.
  - exists ps, d. repeat split; try done; [by left|].
    intros [?|[Hj _]]; [done | by apply elem_of_nil in Hj].
  - cbn [Params.read_lines]. destruct (skipped line) eqn:Hs.
    + rewrite read_line_skipped by done. cbn [mbind outcome_bind].
      rewrite present_keys_skipped in * by done.
      rewrite data_lines_skipped in Hval by done. by apply IH.
    + destruct (key_of_defined line) as (k & Hk).
      rewrite (present_keys_data _ _ k) in * by done.
      rewrite data_lines_data in Hval by done.
      destruct (read_line_good ps d line k) as (ps1 & d1 & -> & Hl1 & Hd1);
        [done | done | apply Hrec; by left | apply Hval; by left |].
      cbn [mbind outcome_bind].
      destruct (IH ps1 d1) as (ps' & d' & -> & Hl' & Hd').
      { intros j Hj. apply Hrec. by right. }
      { intros l Hl. apply Hval. by right. }
      exists ps', d'. split; [done|]. split; [congruence|].
      intros j. rewrite Hd', Hd1, elem_of_cons. split.
      * intros [[?|[-> ?]]|[? ?]]; tauto.
      * intros [?|[[->|?] ?]]; tauto.
Qed.

End Reader.

Section ReadParameters.
Import Params.

Lemma read_parameters_returns np_float64 fp stdin ps d :
  read_parameters_from_file np_float64 fp stdin = Returns (ps, d) →
  (∀ k, k ∈ present_keys fp → recognised k) ∧
  (∀ k, k ∈ USER_DEFINED_PARAMS → k ∈ present_keys fp).
Proof.
  unfold read_parameters_from_file.
  destruct (read_lines np_float64 fp _) as [[ps1 d1]| |] eqn:Hl;
    cbn [mbind outcome_bind]; [|done|done].
  apply read_lines_returns in Hl as [Hrec Hdom].
  case_decide as Hmiss; [done|]. intros _. split; [done|].
  intros k Hk. destruct (decide (k ∈ dom d1)) as [Hin|Hnin].
  - destruct (Hdom k Hin) as [Hempty|?]; [|done].
    by rewrite dom_empty_L in Hempty.
  - destruct Hmiss. apply Nat.neq_0_lt_0. apply size_non_empty_iff.
    intros Hemp. apply (proj1 (elem_of_equiv_empty _) Hemp k).
    apply elem_of_difference. split; assumption.
Qed.

(** C8 (amended): a file that leaves out one of the eight auxiliary keys, or
    presents a key outside the tunable and auxiliary sets, never loads: the
    program ends with [sys.exit(1)] or an uncaught exception.  A file with
    the eight auxiliary keys and no other unrecognised key loads when, in
    addition, every data line has a value that parses as a number and the
    user confirms with y. *)
Theorem read_parameters_spec np_float64 fp stdin :
  ((∃ k, k ∈ present_keys fp ∧ ¬ recognised k) →
   ∀ r, read_parameters_from_file np_float64 fp stdin ≠ Returns r) ∧
  ((∃ k, k ∈ USER_DEFINED_PARAMS ∧ k ∉ present_keys fp) →
   ∀ r, read_parameters_from_file np_float64 fp stdin ≠ Returns r) ∧
  ((∀ k, k ∈ present_keys fp → recognised k) →
   (∀ k, k ∈ USER_DEFINED_PARAMS → k ∈ present_keys fp) →
   (∀ line, line ∈ data_lines fp → has_value np_float64 line) →
   confirm stdin = Returns "y" →
   ∃ parameters d,
     read_parameters_from_file np_float64 fp stdin = Returns (parameters, d) ∧
     length parameters = 4%nat ∧ dom d = USER_DEFINED_PARAMS).
Proof.
  split; [|split].
  - intros (k & Hk & Hnr) [ps d] H.
    apply read_parameters_returns in H as [Hrec _]. by apply Hnr, Hrec.
  - intros (k & Hk & Hnp) [ps d] H.
    apply read_parameters_returns in H as [_ Hall]. by apply Hnp, Hall.
  - intros Hrec Hall Hval Hyes. unfold read_parameters_from_file.
    destruct (read_lines_good np_float64 fp
                (replicate (length TUNED_PARAMS) 0) ∅ Hrec Hval)
      as (ps & d & -> & Hlen & Hdom).
    cbn [mbind outcome_bind].
    assert (dom d = USER_DEFINED_PARAMS) as Hd.
    { apply set_eq. intros k. rewrite Hdom, dom_empty_L. split.
      - intros [Hk|[_ ?]]; [by apply elem_of_empty in Hk | done].
      - intros Hk. right. split; [by apply Hall | done]. }
    rewrite Hd. case_decide as Hmiss.
    { exfalso. apply size_pos_elem_of in Hmiss as (k & Hk).
      apply elem_of_difference in Hk as [? ?]. contradiction. }
    rewrite Hyes. cbn [mbind outcome_bind].
    case_decide; [|done]. by exists ps, d.
Qed.

Import Examples.

Lemma complete_file_keys :
  (∀ k, k ∈ present_keys complete_file → recognised k) ∧
  (∀ k, k ∈ USER_DEFINED_PARAMS → k ∈ present_keys complete_file) ∧
  (∀ k, k ∈ present_keys (complete_file ++ ["k1"]) → recognised k) ∧
  (∀ k, k ∈ USER_DEFINED_PARAMS →
        k ∈ present_keys (complete_file ++ ["k1"])).
Proof.
  assert (P1 : present_keys complete_file =
    ["dt_min"; "dt_max"; "c3"; "r"; "graph_left_cutoff";
     "graph_right_cutoff"; "optimization_left_cutoff";
     "optimization_right_cutoff"]) by by vm_compute.
  assert (P2 : present_keys (complete_file ++ ["k1"]) =
    ["dt_min"; "dt_max"; "c3"; "r"; "graph_left_cutoff";
     "graph_right_cutoff"; "optimization_left_cutoff";
     "optimization_right_cutoff"; "k1"]) by by vm_compute.
  rewrite P1, P2. unfold recognised, USER_DEFINED_PARAMS, TUNED_PARAMS.
  repeat split; intros k; rewrite ?elem_of_list_to_set;
    rewrite !elem_of_cons, !elem_of_nil; tauto.
Qed.

(** C8 as stated fails: a file with the eight auxiliary keys and no
    unrecognised key does not load when the user answers n, and does not
    load, whatever the user answers, when a line names the tunable key k1
    without a value. *)
Lemma complete_file_not_loaded :
  (∀ k, k ∈ present_keys complete_file → recognised k) ∧
  (∀ k, k ∈ USER_DEFINED_PARAMS → k ∈ present_keys complete_file) ∧
  read_parameters_from_file parse_any complete_file ["n"] = SysExit 1 ∧
  (∀ k, k ∈ present_keys (complete_file ++ ["k1"]) → recognised k) ∧
  (∀ k, k ∈ USER_DEFINED_PARAMS →
        k ∈ present_keys (complete_file ++ ["k1"])) ∧
  read_parameters_from_file parse_any (complete_file ++ ["k1"]) ["y"]
  = Uncaught.
Proof.
  destruct complete_file_keys as (K1 & K2 & K3 & K4).
  repeat split; try done; by vm_compute.
Qed.

(** The complete file loads when the user confirms. *)
Lemma read_parameters_spec_witness :
  ∃ parameters d,
    read_parameters_from_file parse_any complete_file ["maybe"; "y"]
    = Returns (parameters, d) ∧
    length parameters = 4%nat ∧ dom d = USER_DEFINED_PARAMS.
Proof.
  destruct complete_file_keys as (K1 & K2 & _).
  refine (proj2 (proj2 (read_parameters_spec parse_any complete_file
                          ["maybe"; "y"])) K1 K2 _ _).
  - intros line Hl.
    assert (D : data_lines complete_file =
      ["dt_min = 1"; "dt_max = 1"; "C3 = 1"; "r = 1";
       "graph_left_cutoff = 1"; "graph_right_cutoff = 1";
       "optimization_left_cutoff = 1"; "optimization_right_cutoff = 1"])
      by by vm_compute.
    rewrite D in Hl. unfold has_value, parse_any.
    repeat (apply elem_of_cons in Hl as [->|Hl];
            [by eexists _, _; split; [vm_compute; reflexivity|] |]).
    by apply elem_of_nil in Hl.
  - by vm_compute.
Defined.

End ReadParameters.

(** * Further properties of the program *)

(** ** The model at the transition time, and where it is defined *)

Section ModelEdges.

(** X1: The model returns a value exactly when it is given at least four
    parameters and the four auxiliary entries dt, c3, cvert and r: a missing
    entry is an error even for the terms that do not use it. *)
Theorem saturation_function_defined_iff t (parameters : list R)
    (aux : gmap string R) :
  is_Some (saturation_function t parameters aux) ↔
  (4 ≤ length parameters)%nat ∧
  is_Some (aux !! "dt") ∧ is_Some (aux !! "c3") ∧
  is_Some (aux !! "cvert") ∧ is_Some (aux !! "r").
Proof.
  unfold saturation_function, mod_maxwell, s_curve, steady. split.
  - intros [v Hv].
    destruct parameters as [|K1 [|N0 [|N1 [|N2 rest]]]]; try done.
    simpl in Hv.
    destruct (aux !! "dt"); [|done]. destruct (aux !! "c3"); [|done].
    destruct (aux !! "cvert"); [|done]. destruct (aux !! "r"); [|done].
    simpl. repeat split; try done. lia.
  - intros (Hlen & [dt ->] & [c3 ->] & [cvert ->] & [r ->]).
    destruct parameters as [|K1 [|N0 [|N1 [|N2 rest]]]]; simpl in Hlen;
      try lia.
    simpl. by eexists.
Qed.

Lemma saturation_function_defined_iff_witness :
  is_Some (saturation_function 0 [1; 1; 1; 1] (mk_aux 1 1 0 0)) ↔
  (4 ≤ length [1; 1; 1; 1])%nat ∧
  is_Some (mk_aux 1 1 0 0 !! "dt") ∧ is_Some (mk_aux 1 1 0 0 !! "c3") ∧
  is_Some (mk_aux 1 1 0 0 !! "cvert") ∧ is_Some (mk_aux 1 1 0 0 !! "r").
Proof. exact (saturation_function_defined_iff 0 [1; 1; 1; 1] _). Defined.



(** X4: The components df_dN0, df_dN1 and df_dN2 returned by
    [get_saturation_gradient] are the partial derivatives of
    [saturation_function] in N0, N1 and N2. *)
Theorem gradient_N0_N1_N2_are_derivatives aux dt c3 cvert r K1 N0 N1 N2 t :
  aux_has aux dt c3 cvert r →
  K1 ≠ 0 → N0 ≠ 0 → N1 ≠ 0 → N2 ≠ 0 →
  1 + c3 * exp ((- t + dt) * r) ≠ 0 →
  ∃ g0 g1 g2 g3,
    get_saturation_gradient t [K1; N0; N1; N2] aux = Some [g0; g1; g2; g3] ∧
    derivable_pt_lim (λ x, model_value t [K1; x; N1; N2] aux) N0 g1 ∧
    derivable_pt_lim (λ x, model_value t [K1; N0; x; N2] aux) N1 g2 ∧
    derivable_pt_lim (λ x, model_value t [K1; N0; N1; x] aux) N2 g3.
Proof.
  intros. by apply (gradient_N_components_exact aux dt c3 cvert r).
Qed.

Lemma gradient_N0_N1_N2_are_derivatives_witness :
  ∃ g0 g1 g2 g3,
    get_saturation_gradient 0 [1; 1; 1; 1] (mk_aux 1 1 0 0)
    = Some [g0; g1; g2; g3] ∧
    derivable_pt_lim (λ x, model_value 0 [1; x; 1; 1] (mk_aux 1 1 0 0)) 1 g1 ∧
    derivable_pt_lim (λ x, model_value 0 [1; 1; x; 1] (mk_aux 1 1 0 0)) 1 g2 ∧
    derivable_pt_lim (λ x, model_value 0 [1; 1; 1; x] (mk_aux 1 1 0 0)) 1 g3.
Proof.
  apply (gradient_N0_N1_N2_are_derivatives _ 1 1 0 0 1 1 1 1 0);
    [apply mk_aux_has | lra | lra | lra | lra |].
  apply gate_denominator_nonzero. lra.
Defined.

(** X5: The partial derivative of [saturation_function] in K1, in closed form:
    ((1 - E) / K1^2 - (t - dt) E / (K1 N0)) times the gate, with
    E = exp(K1 (dt - t) / N0). *)
Theorem saturation_function_derivative_in_K1
    aux dt c3 cvert r K1 N0 N1 N2 t :
  aux_has aux dt c3 cvert r →
  K1 ≠ 0 → N0 ≠ 0 → N1 ≠ 0 → N2 ≠ 0 →
  1 + c3 * exp ((- t + dt) * r) ≠ 0 →
  derivable_pt_lim (λ x, model_value t [x; N0; N1; N2] aux) K1
    (((1 - exp (K1 * (dt - t) / N0)) / K1 ^ 2
      - (t - dt) * exp (K1 * (dt - t) / N0) / (K1 * N0))
     * (1 / (1 + c3 * exp ((- t + dt) * r)))).
Proof. intros. by apply (saturation_dK1 aux dt c3 cvert r). Qed.

Lemma saturation_function_derivative_in_K1_witness :
  derivable_pt_lim (λ x, model_value 0 [x; 1; 1; 1] (mk_aux 1 1 0 0)) 1
    (((1 - exp (1 * (1 - 0) / 1)) / 1 ^ 2
      - (0 - 1) * exp (1 * (1 - 0) / 1) / (1 * 1))
     * (1 / (1 + 1 * exp ((- 0 + 1) * 0)))).
Proof.
  apply (saturation_function_derivative_in_K1 _ 1 1 0 0 1 1 1 1 0);
    [apply mk_aux_has | lra | lra | lra | lra |].
  apply gate_denominator_nonzero. lra.
Defined.

End ModelEdges.

(** ** The shapes of the data and the number of parameters *)

Section ObjectiveProperties.
Import Numpy Objective SpecObjective.

Lemma over_times_length {A} (f : R → option A) X l :
  over_times f X = Some l → length l = length X ∧ is_Some (f 0).
Proof.
  unfold over_times. destruct (f 0) as [a|] eqn:E; [|done]. simpl.
  intros H. apply length_mapM in H. split; [done | by eexists].
Qed.

Lemma obj_function_shape_mismatch X Y aux parameters :
  length X ≠ length Y → length X ≠ 1%nat → length Y ≠ 1%nat →
  get_obj_function X Y aux parameters = None.
Proof.
  intros Hne HX HY. unfold get_obj_function.
  destruct (saturation_function_arr X parameters aux) as [m|] eqn:Hm;
    [|done].
  unfold saturation_function_arr in Hm.
  apply over_times_length in Hm as [Hm _]. simpl.
  unfold np_sub, np_binop. case_decide as Hl; [congruence|].
  destruct Y as [|y [|y' Y]]; destruct m as [|a [|a' m]]; simpl in *;
    congruence.
Qed.

(** X8: Data arrays of different lengths, neither of length 1, are rejected by
    the objective: numpy cannot broadcast them. *)
Theorem get_obj_function_shape_mismatch X Y aux parameters :
  length X ≠ length Y → length X ≠ 1%nat → length Y ≠ 1%nat →
  get_obj_function X Y aux parameters = None.
Proof. apply obj_function_shape_mismatch. Qed.

Lemma get_obj_function_shape_mismatch_witness :
  get_obj_function [1; 2; 3] [1; 2] (mk_aux 1 1 0 0) [1; 1; 1; 1] = None.
Proof.
  apply get_obj_function_shape_mismatch; simpl; lia.
Defined.

(** X9: [get_gradient] returns only when it is given exactly four parameters,
    and then returns four entries: with fewer the model raises, with more
    the loop indexes a fifth row of the gradient. *)
Theorem get_gradient_needs_four_parameters X Y parameters aux g :
  get_gradient X Y parameters aux = Some g →
  length parameters = 4%nat ∧ length g = 4%nat.
Proof.
  unfold get_gradient, get_saturation_gradient_arr.
  destruct (over_times _ X) as [gs|] eqn:Hgs; [|done].
  apply over_times_length in Hgs as [_ [g0 Hg0]].
  assert (4 ≤ length parameters)%nat as Hge.
  { unfold get_saturation_gradient in Hg0.
    destruct parameters as [|? [|? [|? [|? ?]]]]; try done. simpl. lia. }
  cbn [mbind option_bind]. intros Hm.
  pose proof (length_mapM _ _ _ Hm) as Hlen. rewrite length_seq in Hlen.
  assert (length parameters ≤ 4)%nat as Hle.
  { destruct (decide (length parameters ≤ 4)%nat) as [?|Hgt]; [done|].
    apply mapM_Some_1 in Hm.
    destruct (Forall2_lookup_l _ _ _ 4%nat 4%nat Hm) as (y & _ & Hy).
    { apply lookup_seq. lia. }
    unfold obj_grad_entry in Hy. simpl in Hy. done. }
  lia.
Qed.

Lemma get_gradient_needs_four_parameters_witness :
  ∃ g, get_gradient [0] [0] [1; 1; 1; 1] (mk_aux 1 1 1 0) = Some g ∧
       length [1; 1; 1; 1] = 4%nat ∧ length g = 4%nat.
Proof.
  eexists. split.
  - exact (get_gradient_value _ 1 1 1 0 1 1 1 1 [0] [0] (mk_aux_has 1 1 1 0)
             eq_refl).
  - exact (get_gradient_needs_four_parameters _ _ _ _ _
             (get_gradient_value _ 1 1 1 0 1 1 1 1 [0] [0] (mk_aux_has 1 1 1 0)
                eq_refl)).
Defined.

(** X10: The entries of [get_gradient] for N0, N1 and N2 are the partial
    derivatives of the objective of [get_obj_function]. *)
Theorem objective_gradient_N0_N1_N2_are_derivatives
    aux dt c3 cvert r K1 N0 N1 N2 X Y :
  aux_has aux dt c3 cvert r →
  K1 ≠ 0 → N0 ≠ 0 → N1 ≠ 0 → N2 ≠ 0 → 0 <= c3 →
  length X = length Y →
  ∃ g0 g1 g2 g3,
    get_gradient_function X Y aux [K1; N0; N1; N2] = Some [g0; g1; g2; g3] ∧
    derivable_pt_lim
      (λ x, default 0 (get_obj_function X Y aux [K1; x; N1; N2])) N0 g1 ∧
    derivable_pt_lim
      (λ x, default 0 (get_obj_function X Y aux [K1; N0; x; N2])) N1 g2 ∧
    derivable_pt_lim
      (λ x, default 0 (get_obj_function X Y aux [K1; N0; N1; x])) N2 g3.
Proof. intros. by apply (objective_gradient_N_exact aux dt c3 cvert r). Qed.

Lemma objective_gradient_N0_N1_N2_are_derivatives_witness :
  ∃ g0 g1 g2 g3,
    get_gradient_function [0] [0] (mk_aux 1 1 1 0) [1; 1; 1; 1]
    = Some [g0; g1; g2; g3] ∧
    derivable_pt_lim
      (λ x, default 0 (get_obj_function [0] [0] (mk_aux 1 1 1 0)
                         [1; x; 1; 1])) 1 g1 ∧
    derivable_pt_lim
      (λ x, default 0 (get_obj_function [0] [0] (mk_aux 1 1 1 0)
                         [1; 1; x; 1])) 1 g2 ∧
    derivable_pt_lim
      (λ x, default 0 (get_obj_function [0] [0] (mk_aux 1 1 1 0)
                         [1; 1; 1; x])) 1 g3.
Proof.
  apply (objective_gradient_N0_N1_N2_are_derivatives _ 1 1 1 0 1 1 1 1
           [0] [0]); [apply mk_aux_has | lra | lra | lra | lra | lra | done].
Defined.

End ObjectiveProperties.

(** ** Trimming the data to a closed range of times *)

Section TrimProperties.
Import Data SpecData.

Lemma where_from_index (cond : R → bool) (X : list R) :
  ∀ (P A : list R), (length X ≤ length A)%nat →
    mapM (λ i, (P ++ A) !! i) (where_from (length P) cond X) =
    Some ((filter (λ s, cond s.1 = true) (zip X A)).*2).
Proof.
  induction X as [|x X IH]; intros P A Hlen; [done|].
  destruct A as [|a A]; [simpl in Hlen; lia|].
  simpl in Hlen. cbn [where_from zip zip_with].
  assert (mapM (λ i, (P ++ a :: A) !! i)
            (where_from (S (length P)) cond X) =
          Some ((filter (λ s, cond s.1 = true) (zip X A)).*2)) as Hrest.
  { specialize (IH (P ++ [a]) A). rewrite <- app_assoc in IH.
    rewrite length_app, Nat.add_1_r in IH. apply IH. lia. }
  rewrite filter_cons. cbn [fst]. destruct (cond x) eqn:Hc.
  - rewrite decide_True by done. cbn [mapM].
    rewrite lookup_app_r by lia. rewrite Nat.sub_diag. cbn [lookup list_lookup].
    cbn [mbind option_bind]. rewrite Hrest. done.
  - rewrite decide_False by done. exact Hrest.
Qed.

Lemma np_index_where (cond : R → bool) (X A : list R) :
  (length X ≤ length A)%nat →
  np_index A (np_where cond X) =
  Some ((filter (λ s, cond s.1 = true) (zip X A)).*2).
Proof. apply (where_from_index cond X []). Qed.

Lemma filter_zip_fst (cond : R → bool) (X : list R) :
  ∀ Y : list R, (length X ≤ length Y)%nat →
    (filter (λ s, cond s.1 = true) (zip X Y)).*1 =
    filter (λ x, cond x = true) X.
Proof.
  induction X as [|x X IH]; intros [|y Y] Hlen; simpl in Hlen; try done;
    [lia|].
  cbn [zip zip_with]. rewrite !filter_cons. cbn [fst].
  destruct (decide (cond x = true)); cbn [fmap list_fmap fst];
    rewrite IH by lia; done.
Qed.

Lemma filter_zip_self (cond : R → bool) (X : list R) :
  (filter (λ s, cond s.1 = true) (zip X X)).*2 =
  filter (λ x, cond x = true) X.
Proof.
  induction X as [|x X IH]; [done|].
  cbn [zip zip_with]. rewrite !filter_cons. cbn [fst].
  destruct (decide (cond x = true)); cbn [fmap list_fmap snd];
    rewrite <- IH; done.
Qed.

Lemma np_index_where_self (cond : R → bool) (X : list R) :
  np_index X (np_where cond X) = Some (filter (λ x, cond x = true) X).
Proof. rewrite np_index_where by done. by rewrite filter_zip_self. Qed.

Lemma in_range_filter l r (S : list (R * R)) :
  filter (λ s, le_cutoff r s.1 = true)
         (filter (λ s, ge_cutoff l s.1 = true) S) =
  filter (λ s, in_range l r s = true) S.
Proof.
  rewrite list_filter_filter. apply list_filter_iff. intros s.
  unfold in_range. rewrite andb_true_iff. tauto.
Qed.

Lemma trim_data_equal_lengths X Y l r :
  length X = length Y →
  trim_data X Y l r =
  Some ((samples_in_range X Y l r).*1, (samples_in_range X Y l r).*2).
Proof.
  intros Hlen. unfold trim_data.
  rewrite (np_index_where _ X Y) by lia. cbn [mbind option_bind].
  rewrite np_index_where_self. cbn [mbind option_bind].
  set (F := filter (λ s, ge_cutoff l s.1 = true) (zip X Y)).
  assert (filter (λ x, ge_cutoff l x = true) X = F.*1) as ->.
  { unfold F. by rewrite filter_zip_fst by lia. }
  rewrite (np_index_where _ (F.*1) (F.*2)) by (by rewrite !length_fmap).
  cbn [mbind option_bind]. rewrite np_index_where_self.
  cbn [mbind option_bind]. rewrite zip_fst_snd.
  rewrite <- (filter_zip_fst (le_cutoff r) (F.*1) (F.*2))
    by (by rewrite !length_fmap).
  rewrite zip_fst_snd. unfold F. rewrite in_range_filter. done.
Qed.

(** X12: On arrays of equal lengths [trim_data] returns exactly the samples whose
    time lies in the closed range, both cutoffs included, in their order and
    with each time still beside its own value. *)
Theorem trim_data_keeps_samples_in_range X Y left_cutoff right_cutoff :
  length X = length Y →
  ∃ new_X new_Y,
    trim_data X Y left_cutoff right_cutoff = Some (new_X, new_Y) ∧
    zip new_X new_Y = samples_in_range X Y left_cutoff right_cutoff ∧
    length new_X = length new_Y ∧
    ∀ t y, (t, y) ∈ zip new_X new_Y ↔
           (t, y) ∈ zip X Y ∧ left_cutoff <= t <= right_cutoff.
Proof.
  intros Hlen. eexists _, _. split; [by apply trim_data_equal_lengths|].
  rewrite zip_fst_snd. split; [done|]. split; [by rewrite !length_fmap|].
  intros t y. unfold samples_in_range. rewrite list_elem_of_filter.
  unfold in_range, ge_cutoff, le_cutoff. cbn [fst].
  destruct (Rge_dec t left_cutoff), (Rle_dec t right_cutoff); simpl;
    split; intros [? ?]; split; try done; lra.
Qed.

Lemma trim_data_keeps_samples_in_range_witness :
  ∃ new_X new_Y,
    trim_data [1; 2; 3] [10; 20; 30] 2 3 = Some (new_X, new_Y) ∧
    zip new_X new_Y = samples_in_range [1; 2; 3] [10; 20; 30] 2 3 ∧
    length new_X = length new_Y ∧
    ∀ t y, (t, y) ∈ zip new_X new_Y ↔
           (t, y) ∈ zip [1; 2; 3] [10; 20; 30] ∧ 2 <= t <= 3.
Proof.
  exact (trim_data_keeps_samples_in_range [1; 2; 3] [10; 20; 30] 2 3 eq_refl).
Defined.

Lemma where_from_defined (cond : R → bool) (L X : list R) :
  ∀ n, is_Some (mapM (λ i, L !! i) (where_from n cond X)) ↔
       ∀ k x, X !! k = Some x → cond x = true → (n + k < length L)%nat.
Proof.
  induction X as [|x X IH]; intros n.
  - split; [intros _ k x Hk; done | intros _; by eexists].
  - cbn [where_from]. destruct (cond x) eqn:Hc.
    + rewrite mapM_is_Some, Forall_cons. cbn [compose].
      rewrite lookup_lt_is_Some, <- mapM_is_Some, IH. split.
      * intros [H0 Hrest] [|k] y Hk Hy; [lia|].
        specialize (Hrest k y Hk Hy). lia.
      * intros H. split.
        -- specialize (H 0%nat x eq_refl Hc). lia.
        -- intros k y Hk Hy. specialize (H (S k) y Hk Hy). lia.
    + rewrite IH. split.
      * intros Hrest [|k] y Hk Hy.
        -- injection Hk as ->. congruence.
        -- specialize (Hrest k y Hk Hy). lia.
      * intros H k y Hk Hy. specialize (H (S k) y Hk Hy). lia.
Qed.

Lemma ge_cutoff_true l x : ge_cutoff l x = true ↔ l <= x.
Proof. unfold ge_cutoff. destruct (Rge_dec x l); split; try done; lra. Qed.

Lemma le_cutoff_true r x : le_cutoff r x = true ↔ x <= r.
Proof. unfold le_cutoff. destruct (Rle_dec x r); split; try done; lra. Qed.

Lemma trim_data_second_stage (new_X new_Y : list R) r :
  length new_X = length new_Y →
  (new_Y' ← np_index new_Y (np_where (le_cutoff r) new_X);
   new_X' ← np_index new_X (np_where (le_cutoff r) new_X);
   Some (new_X', new_Y')) =
  Some ((filter (λ s, le_cutoff r s.1 = true) (zip new_X new_Y)).*1,
        (filter (λ s, le_cutoff r s.1 = true) (zip new_X new_Y)).*2).
Proof.
  intros Hlen. rewrite (np_index_where _ new_X new_Y) by lia.
  cbn [mbind option_bind]. rewrite np_index_where_self. cbn [mbind option_bind].
  by rewrite filter_zip_fst by lia.
Qed.

(** X13: [trim_data] raises exactly when some time at or after the left cutoff
    has no value beside it in [Y]; the right cutoff plays no part in
    that. *)
Theorem trim_data_defined_iff X Y left_cutoff right_cutoff :
  is_Some (trim_data X Y left_cutoff right_cutoff) ↔
  ∀ i t, X !! i = Some t → left_cutoff <= t → (i < length Y)%nat.
Proof.
  unfold trim_data.
  pose proof (where_from_defined (ge_cutoff left_cutoff) Y X 0%nat) as Hd.
  fold (np_where (ge_cutoff left_cutoff) X) in Hd.
  fold (np_index Y (np_where (ge_cutoff left_cutoff) X)) in Hd.
  rewrite np_index_where_self.
  destruct (np_index Y (np_where (ge_cutoff left_cutoff) X))
    as [new_Y|] eqn:HY.
  - cbn [mbind option_bind].
    assert (length (filter (λ x, ge_cutoff left_cutoff x = true) X)
            = length new_Y) as Hlen.
    { pose proof (np_index_where_self (ge_cutoff left_cutoff) X) as HX.
      apply length_mapM in HX. apply length_mapM in HY. congruence. }
    rewrite (trim_data_second_stage _ _ _ Hlen). split; [|by eexists].
    intros _ i t Hi Ht.
    apply (proj1 Hd (ltac:(by eexists)) i t Hi).
    by apply ge_cutoff_true.
  - cbn [mbind option_bind]. split; [by intros [? ?]|].
    intros H. destruct (proj2 Hd) as [? ?]; [|done].
    intros k x Hk Hx. apply (H k x Hk). by apply ge_cutoff_true.
Qed.

Lemma trim_data_defined_iff_witness :
  is_Some (trim_data [1; 2; 3] [10; 20] 3 5) ↔
  ∀ i t, [1; 2; 3] !! i = Some t → 3 <= t → (i < length [10; 20])%nat.
Proof. exact (trim_data_defined_iff [1; 2; 3] [10; 20] 3 5). Defined.

Lemma trim_data_example :
  trim_data [1; 2; 3] [10; 20; 30] 2 3 = Some ([2; 3], [20; 30]).
Proof.
  rewrite trim_data_equal_lengths by done.
  unfold samples_in_range. cbn [zip zip_with].
  rewrite filter_cons_False, filter_cons_True, filter_cons_True, filter_nil;
    [done | | | ];
    unfold in_range; cbn [fst];
    rewrite ?andb_true_iff, ?ge_cutoff_true, ?le_cutoff_true; lra.
Qed.

(** X14: Whenever [trim_data] returns, the times it returns are times of [X] in
    their order, every one of them inside the closed range, and there is
    one value for each. *)
Theorem trim_data_times_in_range X Y left_cutoff right_cutoff new_X new_Y :
  trim_data X Y left_cutoff right_cutoff = Some (new_X, new_Y) →
  sublist new_X X ∧
  Forall (λ t, left_cutoff <= t <= right_cutoff) new_X ∧
  length new_Y = length new_X.
Proof.
  unfold trim_data. rewrite np_index_where_self.
  destruct (np_index Y (np_where (ge_cutoff left_cutoff) X))
    as [Y1|] eqn:HY; [|done].
  cbn [mbind option_bind].
  assert (length (filter (λ x, ge_cutoff left_cutoff x = true) X)
          = length Y1) as Hlen.
  { pose proof (np_index_where_self (ge_cutoff left_cutoff) X) as HX.
    apply length_mapM in HX. apply length_mapM in HY. congruence. }
  rewrite (trim_data_second_stage _ _ _ Hlen). intros [= <- <-].
  rewrite filter_zip_fst by lia. split; [|split].
  - etrans; apply sublist_filter.
  - apply Forall_forall. intros t Ht.
    apply list_elem_of_filter in Ht as [Hr Ht].
    apply list_elem_of_filter in Ht as [Hl _].
    apply ge_cutoff_true in Hl. apply le_cutoff_true in Hr. lra.
  - rewrite <- (filter_zip_fst (le_cutoff right_cutoff) _ Y1) by lia.
    by rewrite !length_fmap.
Qed.

Lemma trim_data_times_in_range_witness :
  sublist [2; 3] [1; 2; 3] ∧ Forall (λ t, 2 <= t <= 3) [2; 3] ∧
  length [20; 30] = length [2; 3].
Proof.
  apply (trim_data_times_in_range [1; 2; 3] [10; 20; 30] 2 3).
  exact trim_data_example.
Defined.

Lemma in_range_narrow l r l' r' (s : R * R) :
  in_range l' r' s = true ∧ in_range l r s = true ↔
  in_range (Rmax l l') (Rmin r r') s = true.
Proof.
  unfold in_range. rewrite !andb_true_iff, !ge_cutoff_true, !le_cutoff_true.
  pose proof (Rmax_l l l'). pose proof (Rmax_r l l').
  pose proof (Rmin_l r r'). pose proof (Rmin_r r r').
  split.
  - intros [[? ?] [? ?]]. split.
    + by apply Rmax_lub.
    + by apply Rmin_glb.
  - intros [? ?]. repeat split; lra.
Qed.

Lemma samples_in_range_narrow X Y l r l' r' :
  samples_in_range (samples_in_range X Y l r).*1
                   (samples_in_range X Y l r).*2 l' r' =
  samples_in_range X Y (Rmax l l') (Rmin r r').
Proof.
  unfold samples_in_range at 1. rewrite zip_fst_snd.
  unfold samples_in_range. rewrite list_filter_filter.
  apply list_filter_iff. apply in_range_narrow.
Qed.

(** X15: Trimming what [trim_data] returned is trimming the original data to the
    intersection of the two ranges; in particular trimming twice to the same
    range changes nothing. *)
Theorem trim_data_nested X Y l r l' r' new_X new_Y :
  length X = length Y →
  trim_data X Y l r = Some (new_X, new_Y) →
  trim_data new_X new_Y l' r' = trim_data X Y (Rmax l l') (Rmin r r') ∧
  trim_data new_X new_Y l r = Some (new_X, new_Y).
Proof.
  intros Hlen. rewrite trim_data_equal_lengths by done. intros [= <- <-].
  assert (∀ a b, trim_data (samples_in_range X Y l r).*1
                   (samples_in_range X Y l r).*2 a b =
                 trim_data X Y (Rmax l a) (Rmin r b)) as Hn.
  { intros a b. rewrite (trim_data_equal_lengths _ _ a b)
      by (by rewrite !length_fmap).
    rewrite (trim_data_equal_lengths X Y) by done.
    by rewrite samples_in_range_narrow. }
  split; [apply Hn|]. rewrite Hn.
  rewrite Rmax_left, Rmin_left by lra. by apply trim_data_equal_lengths.
Qed.

Lemma trim_data_nested_witness :
  trim_data [2; 3] [20; 30] 3 4 = trim_data [1; 2; 3] [10; 20; 30]
                                    (Rmax 2 3) (Rmin 3 4) ∧
  trim_data [2; 3] [20; 30] 2 3 = Some ([2; 3], [20; 30]).
Proof.
  apply (trim_data_nested [1; 2; 3] [10; 20; 30] 2 3 3 4); [done|].
  exact trim_data_example.
Defined.

End TrimProperties.

(** ** Loading the data file *)

Section LoadProperties.
Import Data SpecData.
Variable np_float64 : string → option R.

(** The fields of the data row [row] parse to the sample [(t, v)]. *)
Local Abbreviation row_parses row t v :=
  (∃ r0 r1, row !! 0%nat = Some r0 ∧ row !! 1%nat = Some r1 ∧
            np_float64 r0 = Some t ∧ np_float64 r1 = Some v).

Lemma load_rows_spec rows : ∀ time f5 T F,
  load_rows np_float64 rows false time f5 = Some (T, F) ↔
  ∃ Ts Fs, T = time ++ Ts ∧ F = f5 ++ Fs ∧
           length Ts = length rows ∧ length Fs = length rows ∧
           ∀ i row, rows !! i = Some row →
             ∃ t v, Ts !! i = Some t ∧ Fs !! i = Some v ∧ row_parses row t v.
Proof.
  induction rows as [|row rows IH]; intros time f5 T F.
  - cbn [load_rows]. split.
    + intros [= <- <-]. exists [], []. rewrite !app_nil_r.
      repeat split. intros i row Hi. done.
    + intros (Ts & Fs & -> & -> & HT & HF & _).
      destruct Ts, Fs; try done. by rewrite !app_nil_r.
  - cbn [load_rows]. split.
    + destruct (row !! 0%nat) as [r0|] eqn:H0; [|done].
      cbn [mbind option_bind].
      destruct (np_float64 r0) as [t|] eqn:Ht; [|done].
      cbn [mbind option_bind].
      destruct (row !! 1%nat) as [r1|] eqn:H1; [|done].
      cbn [mbind option_bind].
      destruct (np_float64 r1) as [v|] eqn:Hv; [|done].
      cbn [mbind option_bind]. intros Hrest.
      apply IH in Hrest as (Ts & Fs & -> & -> & HT & HF & Hrows).
      exists (t :: Ts), (v :: Fs). rewrite <- !app_assoc.
      split; [done|]. split; [done|]. cbn [length].
      split; [by rewrite HT|]. split; [by rewrite HF|].
      intros [|i] row' Hi.
      * injection Hi as <-. exists t, v. do 2 (split; [done|]).
        by exists r0, r1.
      * by apply Hrows.
    + intros (Ts & Fs & -> & -> & HT & HF & Hrows).
      destruct Ts as [|t Ts]; [done|]. destruct Fs as [|v Fs]; [done|].
      destruct (Hrows 0%nat row eq_refl)
        as (t' & v' & [= <-] & [= <-] & r0 & r1 & H0 & H1 & Ht & Hv).
      rewrite H0. cbn [mbind option_bind]. rewrite Ht.
      cbn [mbind option_bind]. rewrite H1. cbn [mbind option_bind].
      rewrite Hv. cbn [mbind option_bind]. apply IH.
      exists Ts, Fs. rewrite <- !app_assoc. cbn [length] in HT, HF.
      split; [done|]. split; [done|]. split; [lia|]. split; [lia|].
      intros i row' Hi. apply (Hrows (S i) row' Hi).
Qed.

Lemma load_data_columns_aux first rows T F :
  load_data np_float64 (first :: rows) = Some (T, F) →
  length T = length rows ∧ length F = length rows.
Proof.
  unfold load_data. cbn [load_rows]. rewrite load_rows_spec.
  intros (Ts & Fs & -> & -> & ? & ? & _). done.
Qed.

(** X16: [load_data] returns exactly when every row after the first has two
    leading fields that parse as numbers; the two arrays are then the two
    parsed columns, row by row.  The first row is dropped whatever it
    holds. *)
Theorem load_data_columns first rows T F :
  load_data np_float64 (first :: rows) = Some (T, F) ↔
  length T = length rows ∧ length F = length rows ∧
  ∀ i row, rows !! i = Some row →
    ∃ t v, T !! i = Some t ∧ F !! i = Some v ∧ row_parses row t v.
Proof.
  unfold load_data. cbn [load_rows]. rewrite load_rows_spec. split.
  - intros (Ts & Fs & -> & -> & H). exact H.
  - intros H. by exists T, F.
Qed.

(** X17: Whatever [load_data] returns can be trimmed to any range: the two
    arrays have the same length, so [trim_data] does not raise on them and
    returns the loaded samples of that range. *)
Theorem load_data_then_trim rows T F left_cutoff right_cutoff :
  load_data np_float64 rows = Some (T, F) →
  ∃ new_X new_Y,
    trim_data T F left_cutoff right_cutoff = Some (new_X, new_Y) ∧
    zip new_X new_Y = samples_in_range T F left_cutoff right_cutoff.
Proof.
  intros Hload.
  assert (length T = length F) as Hlen.
  { destruct rows as [|first rows].
    - by injection Hload as <- <-.
    - apply load_data_columns_aux in Hload. lia. }
  eexists _, _. split; [by apply trim_data_equal_lengths|].
  by rewrite zip_fst_snd.
Qed.

End LoadProperties.

Lemma load_data_then_trim_witness :
  ∃ new_X new_Y,
    Data.trim_data [1] [1] 0 2 = Some (new_X, new_Y) ∧
    zip new_X new_Y = SpecData.samples_in_range [1] [1] 0 2.
Proof.
  apply (load_data_then_trim (λ _, Some 1) [["time"; "f5"]; ["1"; "1"]]).
  reflexivity.
Defined.

(** ** What the search loop records, and what it retains *)

Section SearchTrace.
Import Search SpecSearch.

Variable scipy_optimize :
  list R → list R → gmap string R → list R → list R * np_float.
Variables X Y guess : list R.
Variables gd gc : list R.
Variable aux0 : gmap string R.
Hypothesis Hlen : length gd = length gc.

Local Abbreviation upto := (search_upto scipy_optimize X Y guess gd gc).
Local Abbreviation fit := (fit_at scipy_optimize X Y guess gd gc aux0).
Local Abbreviation loss_of :=
  (SpecSearch.loss_at scipy_optimize X Y guess gd gc aux0).

Lemma search_invariant n :
  (n ≤ length gd)%nat →
  ∃ st, upto n aux0 = Some st ∧
        (length (loss_array st) = n ∧
         ∀ i, (i < n)%nat →
           ∃ d l, gd !! i = Some d ∧ loss_of i = Some l ∧
                  loss_array st !! i = Some (d, l)) ∧
        ((0 < n)%nat →
         ∃ p, (best_guess_index st < n)%nat ∧ new_params st = Some p ∧
              fit (best_guess_index st) = Some (p, loss st)).
Proof.
  induction n as [|n IH]; intros Hn.
  - exists (initial_state aux0). split; [done|]. split; [|lia].
    split; [done|]. intros i Hi. lia.
  - destruct IH as (st & Hst & [Hl Hrows] & Hret); [lia|].
    destruct (search_upto_step scipy_optimize X Y guess gd gc aux0 Hlen
                n st) as (d & c & p & l & Hd & Hc & Hfit & Hnext);
      [lia | done |].
    eexists. split; [exact Hnext|]. split; [split|].
    + cbn [loss_array after_candidate]. rewrite length_app, Hl.
      simpl. lia.
    + intros i Hi. cbn [loss_array after_candidate].
      destruct (decide (i = n)) as [->|Hne].
      * exists d, l. split; [done|]. split.
        -- unfold SpecSearch.loss_at. by rewrite Hfit.
        -- rewrite lookup_app_r by lia. by rewrite Hl, Nat.sub_diag.
      * destruct (Hrows i) as (d' & l' & ? & ? & Hrow); [lia|].
        exists d', l'. split; [done|]. split; [done|].
        rewrite lookup_app_l by lia. done.
    + intros _. unfold after_candidate. cbn.
      destruct (np_eq0 (loss st) || np_lt l (loss st)) eqn:Hadopt.
      * exists p. split; [lia|]. done.
      * destruct n as [|n].
        { injection Hst as <-. simpl in Hadopt.
          unfold np_eq0 in Hadopt. simpl in Hadopt.
          destruct (Req_dec_T 0 0); done. }
        destruct Hret as (p' & Hb & Hp & Hf); [lia|].
        exists p'. split; [lia|]. done.
Qed.

(** X18: After [n] iterations the table written to dtVsLoss.csv holds one row
    per candidate treated, in the order of the candidates: the dt of the
    candidate and the loss of its fit. *)
Theorem loss_array_is_the_trace n :
  (n ≤ length gd)%nat →
  ∃ st, search_upto scipy_optimize X Y guess gd gc n aux0 = Some st ∧
        length (loss_array st) = n ∧
        ∀ i, (i < n)%nat →
          ∃ d l, gd !! i = Some d ∧
                 loss_at scipy_optimize X Y guess gd gc aux0 i = Some l ∧
                 loss_array st !! i = Some (d, l).
Proof.
  intros Hn. destruct (search_invariant n Hn) as (st & Hst & Ht & _).
  by exists st.
Qed.

(** X19: After at least one iteration the retained index, parameters and loss
    belong together: they are the index of a candidate already treated, the
    parameters its fit returned and the loss of that fit, which is also the
    loss in the candidate's row of the table.  No condition on the losses is
    needed for this. *)
Theorem retained_is_one_candidate n :
  (0 < n ≤ length gd)%nat →
  ∃ st p d,
    search_upto scipy_optimize X Y guess gd gc n aux0 = Some st ∧
    (best_guess_index st < n)%nat ∧
    new_params st = Some p ∧
    fit_at scipy_optimize X Y guess gd gc aux0 (best_guess_index st)
    = Some (p, loss st) ∧
    loss_array st !! best_guess_index st = Some (d, loss st).
Proof.
  intros [Hpos Hn].
  destruct (search_invariant n Hn) as (st & Hst & [_ Hrows] & Hret).
  destruct (Hret Hpos) as (p & Hb & Hp & Hf).
  destruct (Hrows _ Hb) as (d & l & _ & Hl & Hrow).
  unfold SpecSearch.loss_at in Hl. rewrite Hf in Hl. injection Hl as <-.
  by exists st, p, d.
Qed.

End SearchTrace.

Lemma loss_array_is_the_trace_witness :
  ∃ st, Search.search_upto Examples.fit_loss_is_dt [] [] [] [1; 2] [10; 20]
          2 ∅ = Some st ∧
        length (Search.loss_array st) = 2%nat ∧
        ∀ i, (i < 2)%nat →
          ∃ d l, [1; 2] !! i = Some d ∧
                 SpecSearch.loss_at Examples.fit_loss_is_dt [] [] []
                   [1; 2] [10; 20] ∅ i = Some l ∧
                 Search.loss_array st !! i = Some (d, l).
Proof.
  apply (loss_array_is_the_trace Examples.fit_loss_is_dt [] [] []
           [1; 2] [10; 20] ∅ eq_refl 2).
  simpl. lia.
Defined.

Lemma retained_is_one_candidate_witness :
  ∃ st p d,
    Search.search_upto Examples.fit_loss_is_dt [] [] [] [1; 2] [10; 20]
      2 ∅ = Some st ∧
    (Search.best_guess_index st < 2)%nat ∧
    Search.new_params st = Some p ∧
    SpecSearch.fit_at Examples.fit_loss_is_dt [] [] [] [1; 2] [10; 20] ∅
      (Search.best_guess_index st) = Some (p, Search.loss st) ∧
    Search.loss_array st !! Search.best_guess_index st
    = Some (d, Search.loss st).
Proof.
  apply (retained_is_one_candidate Examples.fit_loss_is_dt [] [] []
           [1; 2] [10; 20] ∅ eq_refl 2).
  simpl. lia.
Defined.

(** ** Edge cases of the asymptote finder *)

Section AsymptoteEdges.
Import Asymptote SpecAsymptote.

Variables (aux : gmap string R) (dt c3 cvert r K1 N0 N1 N2 : R).
Hypothesis Haux : aux_has aux dt c3 cvert r.

Local Abbreviation p := [K1; N0; N1; N2].
Local Abbreviation f := (λ t, model_value t [K1; N0; N1; N2] aux).

Lemma ref_nonneg : 0 <= ref f dt.
Proof. unfold ref. apply Rabs_pos. Qed.

(** At i = 1 the loop compares the reference change with itself. *)
Lemma deltadelta_1 : Rabs (deltadelta f dt 1) = ref f dt.
Proof.
  unfold deltadelta, forward_slope, ref. simpl INR.
  by replace (dt * 1) with dt by lra.
Qed.

Lemma not_accepted_1 : ¬ accepted f dt 1.
Proof.
  unfold accepted. rewrite deltadelta_1. pose proof ref_nonneg. lra.
Qed.

Lemma deltadelta_dt_0 i : dt = 0 → Rabs (deltadelta f dt i) = ref f dt.
Proof.
  intros ->. unfold deltadelta, forward_slope, ref.
  by replace (0 * INR i) with 0 by lra.
Qed.

Lemma asymtote_loop_returns indices v :
  asymtote_loop p aux dt (ref f dt) indices = Returns v →
  ∃ i, i ∈ indices ∧ accepted f dt i ∧ v = answer f dt i.
Proof.
  induction indices as [|i rest IH]; [done|].
  rewrite (asymtote_loop_cons aux dt c3 cvert r K1 N0 N1 N2 Haux).
  destruct (accepted_dec _ _ _ _ _ _ i) as [Ha|Hn].
  - intros [= <-]. exists i. split; [left|done].
  - intros H. destruct (IH H) as (j & Hj & Hrest).
    exists j. split; [by right | done].
Qed.

(** X20: When the candidate time dt is 0, or the curve has no change of slope
    around dt, no index passes the threshold: the finder prints its message
    and exits with status 1. *)
Theorem getAsymtote_Y_exits_at_dt_0 :
  dt = 0 ∨ ref f dt = 0 → getAsymtote_Y p aux = SysExit 1.
Proof.
  intros H. rewrite (getAsymtote_Y_loop aux dt c3 cvert r K1 N0 N1 N2 Haux).
  apply (asymtote_loop_none aux dt c3 cvert r K1 N0 N1 N2 Haux).
  apply Forall_forall. intros i _. unfold accepted.
  destruct H as [H0 | H0].
  - rewrite (deltadelta_dt_0 i H0). pose proof ref_nonneg. lra.
  - rewrite H0. pose proof (Rabs_pos (deltadelta f dt i)). lra.
Qed.

(** X21: The first index tried, i = 1, never passes: a value that is returned is
    the answer at an index from 2 on, the reference change is not zero and
    dt is not zero. *)
Theorem getAsymtote_Y_returns_from_2_on v :
  getAsymtote_Y p aux = Returns v →
  ∃ i, (2 ≤ i < 100)%nat ∧ accepted f dt i ∧ v = answer f dt i ∧
       (∀ j, (1 ≤ j < i)%nat → ¬ accepted f dt j) ∧
       dt ≠ 0 ∧ ref f dt ≠ 0.
Proof.
  intros Hv.
  assert (dt ≠ 0 ∧ ref f dt ≠ 0) as Hnz.
  { split; intros H0.
    - rewrite (getAsymtote_Y_loop aux dt c3 cvert r K1 N0 N1 N2 Haux),
        (asymtote_loop_none aux dt c3 cvert r K1 N0 N1 N2 Haux) in Hv;
        [done|].
      apply Forall_forall. intros i _. unfold accepted.
      rewrite (deltadelta_dt_0 i H0). pose proof ref_nonneg. lra.
    - rewrite (getAsymtote_Y_loop aux dt c3 cvert r K1 N0 N1 N2 Haux),
        (asymtote_loop_none aux dt c3 cvert r K1 N0 N1 N2 Haux) in Hv;
        [done|].
      apply Forall_forall. intros i _. unfold accepted.
      rewrite H0. pose proof (Rabs_pos (deltadelta f dt i)). lra. }
  assert (∃ i, (1 ≤ i < 100)%nat ∧ accepted f dt i) as Hex.
  { rewrite (getAsymtote_Y_loop aux dt c3 cvert r K1 N0 N1 N2 Haux) in Hv.
    apply asymtote_loop_returns in Hv as (i & Hi & Ha & _).
    apply elem_of_seq in Hi. exists i. split; [lia | done]. }
  destruct (first_accepted_exists aux dt K1 N0 N1 N2 Hex)
    as (i & Hi & Ha & Hfirst).
  exists i.
  assert (i ≠ 1%nat) by (intros ->; by apply not_accepted_1).
  split; [lia|]. split; [done|]. split; [|by split].
  rewrite (getAsymtote_Y_loop aux dt c3 cvert r K1 N0 N1 N2 Haux),
    (seq_split_at i Hi),
    (asymtote_loop_first aux dt c3 cvert r K1 N0 N1 N2 Haux) in Hv.
  - by injection Hv as <-.
  - apply Forall_forall. intros j Hj. apply elem_of_seq in Hj.
    apply Hfirst. lia.
  - done.
Qed.

End AsymptoteEdges.

(** A curve on which the finder succeeds: with all four parameters 1,
    c3 = 0 and dt at least 100 the model is exp(dt - t) - 1 + cvert, flat
    well before 2 dt, and the index i = 2 passes. *)
Section FlatCurve.
Import Asymptote SpecAsymptote.

Variables (aux : gmap string R) (dt cvert r : R).
Hypothesis Hdt : 100 <= dt.
Hypothesis Haux : aux_has aux dt 0 cvert r.

Lemma flat_curve_value t :
  model_value t [1; 1; 1; 1] aux = exp (dt - t) - 1 + cvert.
Proof.
  unfold model_value.
  rewrite (saturation_function_value _ _ _ _ _ _ _ _ _ _ Haux).
  cbn [default]. unfold Datatypes.id.
  replace (-1 * (t - dt) / (1 / 1)) with (dt - t) by lra.
  rewrite Rmult_0_l. lra.
Qed.

Lemma exp_m100_small : 0 < exp (-100) < 0.01.
Proof.
  split; [apply exp_pos|].
  replace (-100) with (- (100)) by lra. rewrite exp_Ropp.
  pose proof (exp_ineq1 100 ltac:(lra)).
  apply Rmult_lt_reg_r with (exp 100); [lra|].
  rewrite Rinv_l by lra. lra.
Qed.

Lemma exp_mdt_small : 0 < exp (- dt) < 0.01.
Proof.
  split; [apply exp_pos|]. pose proof exp_m100_small as [_ H].
  destruct (Req_dec_T dt 100) as [->|Hne]; [done|].
  apply Rlt_trans with (exp (-100)); [|done].
  apply exp_increasing. lra.
Qed.

Lemma flat_curve_accepted_2 :
  accepted (λ t, model_value t [1; 1; 1; 1] aux) dt 2.
Proof.
  unfold accepted, ref, deltadelta, forward_slope. simpl INR.
  rewrite !flat_curve_value.
  replace (dt - dt) with 0 by lra. rewrite exp_0.
  replace (dt - (dt - 1)) with 1 by lra.
  replace (dt - (dt + 1)) with (-1) by lra.
  replace (dt - dt * (1 + 1)) with (- dt) by lra.
  replace (dt - (dt * (1 + 1) - 1)) with (- dt + 1) by lra.
  replace (dt - (dt * (1 + 1) + 1)) with (- dt + -1) by lra.
  rewrite !exp_plus.
  pose proof exp_mdt_small as [Hw0 Hw1].
  pose proof (exp_ineq1 1 ltac:(lra)) as HE.
  pose proof (exp_pos (-1)) as He.
  set (w := exp (- dt)) in *. set (E := exp 1) in *.
  set (e := exp (-1)) in *.
  replace (1 - 1 + cvert - (E - 1 + cvert) - (e - 1 + cvert - (1 - 1 + cvert)))
    with (- (E + e - 2)) by lra.
  replace (w - 1 + cvert - (w * E - 1 + cvert)
           - (w * e - 1 + cvert - (w - 1 + cvert)))
    with (- (w * (E + e - 2))) by lra.
  rewrite !Rabs_Ropp, Rabs_mult.
  rewrite (Rabs_pos_eq w) by lra. rewrite (Rabs_pos_eq (E + e - 2)) by lra.
  nra.
Qed.

Lemma flat_curve_asymptote :
  getAsymtote_Y [1; 1; 1; 1] aux =
  Returns (answer (λ t, model_value t [1; 1; 1; 1] aux) dt 2).
Proof.
  rewrite (getAsymtote_Y_loop aux dt 0 cvert r 1 1 1 1 Haux).
  change (seq 1 99) with ([1%nat] ++ 2%nat :: seq 3 97).
  apply (asymtote_loop_first aux dt 0 cvert r 1 1 1 1 Haux).
  - constructor; [|constructor].
    apply (not_accepted_1 aux dt 1 1 1 1).
  - apply flat_curve_accepted_2.
Qed.

End FlatCurve.

Lemma getAsymtote_Y_exits_at_dt_0_witness :
  Asymptote.getAsymtote_Y [1; 1; 1; 1] (mk_aux 0 1 0 0) = SysExit 1.
Proof.
  apply (getAsymtote_Y_exits_at_dt_0 (mk_aux 0 1 0 0) 0 1 0 0 1 1 1 1
           (mk_aux_has 0 1 0 0)).
  by left.
Defined.

Lemma getAsymtote_Y_returns_from_2_on_witness :
  let f := λ t, model_value t [1; 1; 1; 1] (mk_aux 100 0 0 0) in
  ∃ i, (2 ≤ i < 100)%nat ∧ SpecAsymptote.accepted f 100 i ∧
       SpecAsymptote.answer f 100 2 = SpecAsymptote.answer f 100 i ∧
       (∀ j, (1 ≤ j < i)%nat → ¬ SpecAsymptote.accepted f 100 j) ∧
       100 ≠ 0 ∧ SpecAsymptote.ref f 100 ≠ 0.
Proof.
  exact (getAsymtote_Y_returns_from_2_on (mk_aux 100 0 0 0) 100 0 0 0
           1 1 1 1 (mk_aux_has 100 0 0 0) _
           (flat_curve_asymptote (mk_aux 100 0 0 0) 100 0 0
              (Rle_refl 100) (mk_aux_has 100 0 0 0))).
Defined.

(** ** The search from the dt window to the write-back *)

Section RunProperties.
Import Search SpecSearch Asymptote.

Variable scipy_optimize :
  list R → list R → gmap string R → list R → list R * np_float.
Variables X Y guess : list R.
Variable aux0 : gmap string R.

Lemma run_small_window span_dt span_cvert :
  (length span_dt ≤ max_itterations)%nat →
  run scipy_optimize X Y guess span_dt span_cvert aux0 = Uncaught.
Proof.
  intros Hn. unfold run. rewrite downsample_small by done. reflexivity.
Qed.

(** The candidates of a window of more than 200 samples. *)
Lemma candidates_lookup (span_dt span_cvert : list R) i :
  (max_itterations < length span_dt)%nat →
  length span_cvert = length span_dt →
  (i < max_itterations)%nat →
  let stride := ((length span_dt - 1) `div` max_itterations)%nat in
  ∃ d c,
    span_dt !! (i * stride)%nat = Some d ∧
    span_cvert !! (i * stride)%nat = Some c ∧
    ((λ i, nth (i * stride) span_dt 0) <$> seq 0 max_itterations) !! i
    = Some d ∧
    ((λ i, nth (i * stride) span_cvert 0) <$> seq 0 max_itterations) !! i
    = Some c.
Proof.
  intros Hn Hlen Hi stride.
  assert (i * stride < length span_dt)%nat as Hin.
  { unfold max_itterations in *.
    assert (200 * stride ≤ length span_dt - 1)%nat
      by (apply Nat.Div0.mul_div_le).
    nia. }
  exists (nth (i * stride) span_dt 0), (nth (i * stride) span_cvert 0).
  split; [by apply lookup_nth_lt|].
  split; [apply lookup_nth_lt; lia|].
  rewrite !list_lookup_fmap, lookup_seq_lt by done. done.
Qed.

(** The write-back on a state whose entries other than dt and cvert are
    those of the start. *)
Lemma finish_value gd gc st d c params :
  (∀ k : string, k ≠ "dt" → k ≠ "cvert" → aux_params st !! k = aux0 !! k) →
  gd !! best_guess_index st = Some d →
  gc !! best_guess_index st = Some c →
  new_params st = Some params →
  finish gd gc st =
  (asymptote_Y ← getAsymtote_Y params (candidate_aux aux0 d c);
   left ← of_option (aux0 !! "optimization_left_cutoff");
   v ← of_option (saturation_function left params (candidate_aux aux0 d c));
   Returns (set_aux "bt" (asymptote_Y - v)
              (set_aux "cvert" c (set_aux "dt" d st)))).
Proof.
  intros Hf Hd Hc Hp. unfold finish. rewrite Hd.
  cbn [mbind outcome_bind of_option].
  cbn [best_guess_index set_aux]. rewrite Hc.
  cbn [mbind outcome_bind of_option].
  cbn [new_params set_aux aux_params]. rewrite Hp.
  cbn [mbind outcome_bind of_option].
  rewrite (candidate_aux_framed aux0 _ d c Hf).
  rewrite (candidate_aux_frame aux0 d c "optimization_left_cutoff")
    by done.
  reflexivity.
Qed.

(** What a run that returns has done. *)
Lemma run_returns span_dt span_cvert st' :
  length span_cvert = length span_dt →
  run scipy_optimize X Y guess span_dt span_cvert aux0 = Returns st' →
  let stride := ((length span_dt - 1) `div` max_itterations)%nat in
  (max_itterations < length span_dt)%nat ∧
  ∃ d c params asymptote_Y left v,
    (best_guess_index st' < max_itterations)%nat ∧
    span_dt !! (best_guess_index st' * stride)%nat = Some d ∧
    span_cvert !! (best_guess_index st' * stride)%nat = Some c ∧
    scipy_optimize X Y (candidate_aux aux0 d c) guess
    = (params, loss st') ∧
    new_params st' = Some params ∧
    getAsymtote_Y params (candidate_aux aux0 d c) = Returns asymptote_Y ∧
    aux0 !! "optimization_left_cutoff" = Some left ∧
    saturation_function left params (candidate_aux aux0 d c) = Some v ∧
    aux_params st' = <["bt" := asymptote_Y - v]> (candidate_aux aux0 d c).
Proof.
  intros Hlen Hrun stride.
  destruct (decide (max_itterations < length span_dt)%nat) as [Hn|Hn];
    [|rewrite run_small_window in Hrun by lia; done].
  split; [done|]. unfold run in Hrun.
  rewrite (downsample_large _ _ Hn Hlen) in Hrun. fold stride in Hrun.
  cbn [mbind outcome_bind of_option] in Hrun.
  set (gd := (λ i, nth (i * stride) span_dt 0) <$> seq 0 max_itterations)
    in *.
  set (gc := (λ i, nth (i * stride) span_cvert 0) <$> seq 0 max_itterations)
    in *.
  assert (length gd = max_itterations) as Hgd
    by (unfold gd; by rewrite length_fmap, length_seq).
  assert (length gd = length gc) as Hg
    by (unfold gd, gc; by rewrite !length_fmap).
  unfold outer_search in Hrun.
  destruct (search_invariant scipy_optimize X Y guess gd gc aux0 Hg
              (length gd)) as (st & Hst & _ & Hret); [lia|].
  destruct (search_upto_defined scipy_optimize X Y guess gd gc aux0 Hg
              (length gd)) as (st0 & Hst0 & Hframed & _); [lia|].
  rewrite Hst in Hst0. injection Hst0 as <-.
  rewrite Hst in Hrun. cbn [mbind outcome_bind of_option] in Hrun.
  destruct Hret as (params & Hb & Hp & Hfit);
    [rewrite Hgd; unfold max_itterations; lia|].
  rewrite Hgd in Hb.
  destruct (candidates_lookup span_dt span_cvert (best_guess_index st)
              Hn Hlen Hb) as (d & c & Hd & Hc & Hgdi & Hgci).
  fold stride in Hd, Hc, Hgdi, Hgci. fold gd in Hgdi. fold gc in Hgci.
  rewrite (finish_value gd gc st d c params Hframed Hgdi Hgci Hp) in Hrun.
  destruct (getAsymtote_Y params (candidate_aux aux0 d c))
    as [asymptote_Y| |] eqn:Hasym; [|done|done].
  cbn [mbind outcome_bind of_option] in Hrun.
  destruct (aux0 !! "optimization_left_cutoff") as [left|] eqn:Hleft;
    [|done].
  cbn [mbind outcome_bind of_option] in Hrun.
  destruct (saturation_function left params (candidate_aux aux0 d c))
    as [v|] eqn:Hv; [|done].
  cbn [mbind outcome_bind of_option] in Hrun. injection Hrun as <-.
  cbn [best_guess_index set_aux loss new_params aux_params].
  exists d, c, params, asymptote_Y, left, v.
  split; [done|]. split; [done|]. split; [done|].
  unfold fit_at in Hfit. rewrite Hgdi, Hgci in Hfit.
  cbn [mbind option_bind] in Hfit. injection Hfit as Hfit.
  split; [done|]. split; [done|]. split; [done|]. split; [done|].
  split; [done|].
  by rewrite (candidate_aux_framed aux0 _ d c Hframed).
Qed.

(** A run on a window of more than 200 samples: the loop runs to its end
    and the write-back reaches the asymptote finder with the retained
    candidate. *)
Lemma run_large_window span_dt span_cvert :
  (max_itterations < length span_dt)%nat →
  length span_cvert = length span_dt →
  let stride := ((length span_dt - 1) `div` max_itterations)%nat in
  ∃ st d c params,
    (best_guess_index st < max_itterations)%nat ∧
    span_dt !! (best_guess_index st * stride)%nat = Some d ∧
    span_cvert !! (best_guess_index st * stride)%nat = Some c ∧
    scipy_optimize X Y (candidate_aux aux0 d c) guess = (params, loss st) ∧
    run scipy_optimize X Y guess span_dt span_cvert aux0 =
    (asymptote_Y ← getAsymtote_Y params (candidate_aux aux0 d c);
     left ← of_option (aux0 !! "optimization_left_cutoff");
     v ← of_option
           (saturation_function left params (candidate_aux aux0 d c));
     Returns (set_aux "bt" (asymptote_Y - v)
                (set_aux "cvert" c (set_aux "dt" d st)))).
Proof.
  intros Hn Hlen stride. unfold run.
  rewrite (downsample_large _ _ Hn Hlen). fold stride.
  cbn [mbind outcome_bind of_option].
  set (gd := (λ i, nth (i * stride) span_dt 0) <$> seq 0 max_itterations).
  set (gc := (λ i, nth (i * stride) span_cvert 0) <$> seq 0 max_itterations).
  assert (length gd = max_itterations) as Hgd
    by (unfold gd; by rewrite length_fmap, length_seq).
  assert (length gd = length gc) as Hg
    by (unfold gd, gc; by rewrite !length_fmap).
  unfold outer_search.
  destruct (search_invariant scipy_optimize X Y guess gd gc aux0 Hg
              (length gd)) as (st & Hst & _ & Hret); [lia|].
  destruct (search_upto_defined scipy_optimize X Y guess gd gc aux0 Hg
              (length gd)) as (st0 & Hst0 & Hframed & _); [lia|].
  rewrite Hst in Hst0. injection Hst0 as <-.
  rewrite Hst. cbn [mbind outcome_bind of_option].
  destruct Hret as (params & Hb & Hp & Hfit);
    [rewrite Hgd; unfold max_itterations; lia|].
  rewrite Hgd in Hb.
  destruct (candidates_lookup span_dt span_cvert (best_guess_index st)
              Hn Hlen Hb) as (d & c & Hd & Hc & Hgdi & Hgci).
  fold stride in Hd, Hc, Hgdi, Hgci. fold gd in Hgdi. fold gc in Hgci.
  exists st, d, c, params.
  split; [done|]. split; [done|]. split; [done|].
  unfold fit_at in Hfit. rewrite Hgdi, Hgci in Hfit.
  cbn [mbind option_bind] in Hfit. injection Hfit as Hfit.
  split; [done|].
  apply (finish_value gd gc st d c params Hframed Hgdi Hgci Hp).
Qed.

End RunProperties.

Section AsymptoteOutcome.
Import Asymptote SpecAsymptote.

Lemma asymtote_loop_outcome aux dt c3 cvert r K1 N0 N1 N2 indices :
  aux_has aux dt c3 cvert r →
  let f := λ t, model_value t [K1; N0; N1; N2] aux in
  asymtote_loop [K1; N0; N1; N2] aux dt (ref f dt) indices = SysExit 1 ∨
  ∃ v, asymtote_loop [K1; N0; N1; N2] aux dt (ref f dt) indices = Returns v.
Proof.
  intros Haux f. induction indices as [|i rest IH]; [by left|].
  rewrite (asymtote_loop_cons aux dt c3 cvert r K1 N0 N1 N2 Haux).
  destruct (accepted_dec _ _ _ _ _ _ i); [right; by eexists | exact IH].
Qed.

Lemma getAsymtote_Y_outcome aux dt c3 cvert r params :
  aux_has aux dt c3 cvert r → length params = 4%nat →
  getAsymtote_Y params aux = SysExit 1 ∨
  ∃ v, getAsymtote_Y params aux = Returns v.
Proof.
  intros Haux Hp.
  destruct params as [|K1 [|N0 [|N1 [|N2 [|? ?]]]]]; try done.
  rewrite (getAsymtote_Y_loop aux dt c3 cvert r K1 N0 N1 N2 Haux).
  by apply (asymtote_loop_outcome aux dt c3 cvert r).
Qed.

End AsymptoteOutcome.

Section RunOutcome.
Import Search SpecSearch Asymptote.

Lemma candidate_aux_has aux c3 r d c :
  aux !! "c3" = Some c3 → aux !! "r" = Some r →
  aux_has (candidate_aux aux d c) d c3 c r.
Proof.
  intros Hc3 Hr. unfold aux_has, candidate_aux.
  repeat split; by simplify_map_eq.
Qed.

(** X22: On a window of more than 200 samples, with c3, r and the left
    optimisation cutoff given and a fit that returns four parameters, the
    run raises no exception: it returns, or the asymptote finder exits with
    status 1. *)
Theorem run_raises_nothing scipy_optimize X Y guess span_dt span_cvert
    (aux0 : gmap string R) :
  (max_itterations < length span_dt)%nat →
  length span_cvert = length span_dt →
  (∀ aux, length (scipy_optimize X Y aux guess).1 = 4%nat) →
  is_Some (aux0 !! "c3") → is_Some (aux0 !! "r") →
  is_Some (aux0 !! "optimization_left_cutoff") →
  run scipy_optimize X Y guess span_dt span_cvert aux0 = SysExit 1 ∨
  ∃ st', run scipy_optimize X Y guess span_dt span_cvert aux0 = Returns st'.
Proof.
  intros Hn Hlen Hfour [c3 Hc3] [r Hr] [left Hleft].
  destruct (run_large_window scipy_optimize X Y guess aux0 span_dt
              span_cvert Hn Hlen)
    as (st & d & c & params & _ & _ & _ & Hfit & ->).
  assert (length params = 4%nat) as Hp.
  { specialize (Hfour (candidate_aux aux0 d c)). by rewrite Hfit in Hfour. }
  pose proof (candidate_aux_has aux0 c3 r d c Hc3 Hr) as Haux.
  destruct (getAsymtote_Y_outcome _ _ _ _ _ params Haux Hp)
    as [-> | [a ->]]; [by left|].
  right. cbn [mbind outcome_bind of_option]. rewrite Hleft.
  cbn [mbind outcome_bind of_option].
  destruct params as [|K1 [|N0 [|N1 [|N2 [|? ?]]]]]; try done.
  rewrite (saturation_function_value _ _ _ _ _ _ _ _ _ _ Haux).
  cbn [mbind outcome_bind of_option]. by eexists.
Qed.

(** X23: On a window of more than 200 samples the stride is at least 1 and the
    200 candidates are the samples at the positions 0, stride, 2 stride, ...,
    each dt with the cvert of the same position; every position lies
    strictly before the last sample of the window, which is therefore never
    tried. *)
Theorem downsample_never_tries_the_last_sample span_dt span_cvert :
  (max_itterations < length span_dt)%nat →
  length span_cvert = length span_dt →
  let stride := ((length span_dt - 1) `div` max_itterations)%nat in
  (1 ≤ stride)%nat ∧
  ∃ guess_dt guess_cvert,
    downsample span_dt span_cvert = Some (guess_dt, guess_cvert) ∧
    length guess_dt = max_itterations ∧
    length guess_cvert = max_itterations ∧
    ∀ i, (i < max_itterations)%nat →
      (i * stride < length span_dt - 1)%nat ∧
      is_Some (guess_dt !! i) ∧
      guess_dt !! i = span_dt !! (i * stride)%nat ∧
      guess_cvert !! i = span_cvert !! (i * stride)%nat.
Proof.
  intros Hn Hlen stride.
  assert (1 ≤ stride)%nat as Hstride.
  { unfold stride, max_itterations in *.
    apply Nat.div_le_lower_bound; lia. }
  split; [done|].
  eexists _, _. split; [by apply downsample_large|]. fold stride.
  split; [by rewrite length_fmap, length_seq|].
  split; [by rewrite length_fmap, length_seq|].
  intros i Hi.
  destruct (candidates_lookup span_dt span_cvert i Hn Hlen Hi)
    as (d & c & Hd & Hc & Hgd & Hgc).
  fold stride in Hd, Hc, Hgd, Hgc. rewrite Hgd, Hgc, Hd, Hc.
  split; [|by split; [eexists|]].
  unfold max_itterations in *.
  assert (200 * stride ≤ length span_dt - 1)%nat
    by (apply Nat.Div0.mul_div_le).
  nia.
Qed.

(** X24: A run that returns has written back the candidate it retained: the
    entries dt and cvert are the sample of the window at the retained index
    times the stride, the retained parameters and loss are those of the fit
    under exactly these two entries, and bt is the asymptote minus the model
    at the left optimisation cutoff, both taken with the retained
    parameters. *)
Theorem run_writes_back_the_retained_candidate scipy_optimize X Y guess
    span_dt span_cvert (aux0 : gmap string R) st' :
  length span_cvert = length span_dt →
  run scipy_optimize X Y guess span_dt span_cvert aux0 = Returns st' →
  let stride := ((length span_dt - 1) `div` max_itterations)%nat in
  (max_itterations < length span_dt)%nat ∧
  ∃ d c params asymptote_Y left v,
    (best_guess_index st' < max_itterations)%nat ∧
    span_dt !! (best_guess_index st' * stride)%nat = Some d ∧
    span_cvert !! (best_guess_index st' * stride)%nat = Some c ∧
    scipy_optimize X Y (candidate_aux aux0 d c) guess
    = (params, loss st') ∧
    new_params st' = Some params ∧
    getAsymtote_Y params (candidate_aux aux0 d c) = Returns asymptote_Y ∧
    aux0 !! "optimization_left_cutoff" = Some left ∧
    saturation_function left params (candidate_aux aux0 d c) = Some v ∧
    aux_params st' = <["bt" := asymptote_Y - v]> (candidate_aux aux0 d c).
Proof. apply run_returns. Qed.

End RunOutcome.

(** ** The program from the loaded data to the write-back *)

Section MainProperties.
Import Data SpecData Search SpecSearch Asymptote Main.

Variable scipy_optimize :
  list R → list R → gmap string R → list R → list R * np_float.
Variables raw_X raw_Y guess : list R.
Variable aux0 : gmap string R.
Hypothesis Hraw : length raw_X = length raw_Y.

(** [main] once the six cutoffs are known. *)
Lemma main_value ol or gl gr dmin dmax :
  aux0 !! "optimization_left_cutoff" = Some ol →
  aux0 !! "optimization_right_cutoff" = Some or →
  aux0 !! "graph_left_cutoff" = Some gl →
  aux0 !! "graph_right_cutoff" = Some gr →
  aux0 !! "dt_min" = Some dmin → aux0 !! "dt_max" = Some dmax →
  main scipy_optimize raw_X raw_Y guess aux0 =
  run scipy_optimize
    (samples_in_range raw_X raw_Y ol or).*1
    (samples_in_range raw_X raw_Y ol or).*2 guess
    (samples_in_range raw_X raw_Y dmin dmax).*1
    (samples_in_range raw_X raw_Y dmin dmax).*2 aux0.
Proof.
  intros Hol Hor Hgl Hgr Hmin Hmax. unfold main.
  rewrite Hol, Hor, Hgl, Hgr, Hmin, Hmax.
  cbn [mbind outcome_bind of_option].
  rewrite !(trim_data_equal_lengths raw_X raw_Y) by done.
  reflexivity.
Qed.

Lemma main_returns_keys st' :
  main scipy_optimize raw_X raw_Y guess aux0 = Returns st' →
  ∃ ol or gl gr,
    aux0 !! "optimization_left_cutoff" = Some ol ∧
    aux0 !! "optimization_right_cutoff" = Some or ∧
    aux0 !! "graph_left_cutoff" = Some gl ∧
    aux0 !! "graph_right_cutoff" = Some gr.
Proof.
  unfold main. intros H.
  destruct (aux0 !! "optimization_left_cutoff") as [ol|]; [|done].
  destruct (aux0 !! "optimization_right_cutoff") as [or|]; [|done].
  cbn [mbind outcome_bind of_option] in H.
  destruct (trim_data raw_X raw_Y ol or) as [[? ?]|]; [|done].
  cbn [mbind outcome_bind of_option] in H.
  destruct (aux0 !! "graph_left_cutoff") as [gl|]; [|done].
  destruct (aux0 !! "graph_right_cutoff") as [gr|]; [|done].
  by exists ol, or, gl, gr.
Qed.

Lemma sample_of_columns (S : list (R * R)) j d c :
  S.*1 !! j = Some d → S.*2 !! j = Some c → (d, c) ∈ S.
Proof.
  rewrite !list_lookup_fmap. destruct (S !! j) as [[d' c']|] eqn:E; [|done].
  intros [= <-] [= <-]. by apply list_elem_of_lookup_2 with j.
Qed.

(** X25: When the program returns, the dt it has written back lies in the
    user's window [dt_min, dt_max], the cvert beside it is the value measured
    at that time, and the parameters it keeps are those fitted, under this dt
    and cvert, to the samples between the two optimisation cutoffs. *)
Theorem main_dt_lies_in_the_window dt_min dt_max st' :
  aux0 !! "dt_min" = Some dt_min → aux0 !! "dt_max" = Some dt_max →
  main scipy_optimize raw_X raw_Y guess aux0 = Returns st' →
  ∃ d c params ol or,
    aux_params st' !! "dt" = Some d ∧
    aux_params st' !! "cvert" = Some c ∧
    dt_min <= d <= dt_max ∧
    (d, c) ∈ zip raw_X raw_Y ∧
    aux0 !! "optimization_left_cutoff" = Some ol ∧
    aux0 !! "optimization_right_cutoff" = Some or ∧
    new_params st' = Some params ∧
    scipy_optimize (samples_in_range raw_X raw_Y ol or).*1
                   (samples_in_range raw_X raw_Y ol or).*2
                   (candidate_aux aux0 d c) guess = (params, loss st').
Proof.
  intros Hmin Hmax Hmain.
  destruct (main_returns_keys st' Hmain) as (ol & or & gl & gr & Hol & Hor
                                             & Hgl & Hgr).
  rewrite (main_value ol or gl gr dt_min dt_max) in Hmain by done.
  apply run_returns in Hmain
    as (_ & d & c & params & a & left & v & _ & Hd & Hc & Hfit & Hp & _ & _
        & _ & Haux); [|by rewrite !length_fmap].
  exists d, c, params, ol, or.
  assert ((d, c) ∈ samples_in_range raw_X raw_Y dt_min dt_max) as Hin
    by (exact (sample_of_columns _ _ _ _ Hd Hc)).
  unfold samples_in_range in Hin.
  apply list_elem_of_filter in Hin as [Hrange Hin].
  unfold in_range in Hrange. cbn [fst] in Hrange.
  apply andb_true_iff in Hrange as [Hge Hle].
  apply ge_cutoff_true in Hge. apply le_cutoff_true in Hle.
  rewrite Haux. unfold candidate_aux at 1 2.
  split; [by simplify_map_eq|]. split; [by simplify_map_eq|].
  split; [lra|]. by repeat split.
Qed.


End MainProperties.

(** ** A run of the whole program *)

Section ExampleRuns.
Import Data SpecData Search SpecSearch Asymptote Main ExampleRun.

Lemma filter_all {A} (P : A → Prop) `{!∀ x, Decision (P x)} (l : list A) :
  Forall P l → filter P l = l.
Proof.
  induction 1 as [|x l Hx _ IH]; [done|].
  by rewrite filter_cons_True, IH.
Qed.

Lemma raw_X_lookup j d : raw_X !! j = Some d → 100 <= d <= 300.
Proof.
  unfold raw_X. rewrite list_lookup_fmap.
  destruct (seq 0 201 !! j) as [i|] eqn:Hi; [|done]. intros [= <-].
  apply lookup_seq in Hi as [-> Hj]. cbn [Nat.add].
  pose proof (pos_INR j) as H0.
  assert (INR j <= INR 200) as H1 by (apply le_INR; lia).
  rewrite (INR_IZR_INZ 200) in H1.
  change (Z.of_nat 200) with 200%Z in H1. lra.
Qed.

Lemma raw_lengths : length raw_X = 201%nat ∧ length raw_Y = 201%nat.
Proof. unfold raw_X, raw_Y. by rewrite !length_fmap, !length_seq. Qed.

Lemma example_samples (l r : R) :
  l <= 100 → 300 <= r →
  samples_in_range raw_X raw_Y l r = zip raw_X raw_Y.
Proof.
  intros Hl Hr. unfold samples_in_range. apply filter_all.
  apply Forall_forall. intros [t v] Hin.
  apply elem_of_zip_l, list_elem_of_lookup_1 in Hin as [j Hj].
  apply raw_X_lookup in Hj.
  unfold in_range. cbn [fst]. apply andb_true_iff.
  split; [apply ge_cutoff_true | apply le_cutoff_true]; lra.
Qed.

Lemma example_aux_has d c : aux_has (candidate_aux aux_params d c) d 0 c 0.
Proof. by apply candidate_aux_has. Qed.

Lemma example_main_is_run (X Y : list R) :
  length X = length Y →
  main fit_ones X Y [1; 1; 1; 1] aux_params =
  run fit_ones (samples_in_range X Y 0 400).*1
    (samples_in_range X Y 0 400).*2 [1; 1; 1; 1]
    (samples_in_range X Y 0 400).*1 (samples_in_range X Y 0 400).*2
    aux_params.
Proof. intros Hlen. by apply (main_value fit_ones X Y _ _ Hlen 0 400 0 400). Qed.

Lemma example_run_returns :
  ∃ st', run fit_ones raw_X raw_Y [1; 1; 1; 1] raw_X raw_Y aux_params
         = Returns st'.
Proof.
  destruct raw_lengths as [HX HY].
  assert (max_itterations < length raw_X)%nat as Hn
    by (rewrite HX; unfold max_itterations; lia).
  assert (length raw_Y = length raw_X) as Hlen by congruence.
  destruct (run_large_window fit_ones raw_X raw_Y [1; 1; 1; 1] aux_params
              raw_X raw_Y Hn Hlen)
    as (st & d & c & params & _ & Hd & _ & Hfit & ->).
  apply raw_X_lookup in Hd as [Hd _].
  unfold fit_ones in Hfit. injection Hfit as <- _.
  rewrite (flat_curve_asymptote _ d c 0 Hd (example_aux_has d c)).
  cbn [mbind outcome_bind of_option].
  replace (aux_params !! "optimization_left_cutoff") with (Some 0)
    by (unfold aux_params; by simplify_map_eq).
  cbn [mbind outcome_bind of_option].
  rewrite (saturation_function_value _ _ _ _ _ _ _ _ _ _
             (example_aux_has d c)).
  cbn [mbind outcome_bind of_option]. by eexists.
Qed.

Lemma example_main_returns :
  ∃ st', main fit_ones raw_X raw_Y [1; 1; 1; 1] aux_params = Returns st'.
Proof.
  destruct raw_lengths as [HX HY].
  rewrite example_main_is_run by congruence.
  rewrite example_samples by lra.
  rewrite fst_zip, snd_zip by lia.
  apply example_run_returns.
Qed.

End ExampleRuns.

Lemma run_raises_nothing_witness :
  Search.run ExampleRun.fit_ones ExampleRun.raw_X ExampleRun.raw_Y
    [1; 1; 1; 1] ExampleRun.raw_X ExampleRun.raw_Y ExampleRun.aux_params
  = SysExit 1 ∨
  ∃ st', Search.run ExampleRun.fit_ones ExampleRun.raw_X ExampleRun.raw_Y
           [1; 1; 1; 1] ExampleRun.raw_X ExampleRun.raw_Y
           ExampleRun.aux_params = Returns st'.
Proof.
  apply run_raises_nothing.
  - rewrite (proj1 raw_lengths). unfold Search.max_itterations. lia.
  - destruct raw_lengths. congruence.
  - intros aux. reflexivity.
  - unfold ExampleRun.aux_params. by simplify_map_eq.
  - unfold ExampleRun.aux_params. by simplify_map_eq.
  - unfold ExampleRun.aux_params. by simplify_map_eq.
Defined.

Lemma run_writes_back_the_retained_candidate_witness :
  ∃ st',
    Search.run ExampleRun.fit_ones ExampleRun.raw_X ExampleRun.raw_Y
      [1; 1; 1; 1] ExampleRun.raw_X ExampleRun.raw_Y ExampleRun.aux_params
    = Returns st' ∧
    (Search.max_itterations < length ExampleRun.raw_X)%nat ∧
    ∃ d c params asymptote_Y left v,
      (Search.best_guess_index st' < Search.max_itterations)%nat ∧
      ExampleRun.raw_X
        !! (Search.best_guess_index st'
            * ((length ExampleRun.raw_X - 1)
               `div` Search.max_itterations))%nat = Some d ∧
      ExampleRun.raw_Y
        !! (Search.best_guess_index st'
            * ((length ExampleRun.raw_X - 1)
               `div` Search.max_itterations))%nat = Some c ∧
      ExampleRun.fit_ones ExampleRun.raw_X ExampleRun.raw_Y
        (SpecSearch.candidate_aux ExampleRun.aux_params d c) [1; 1; 1; 1]
      = (params, Search.loss st') ∧
      Search.new_params st' = Some params ∧
      Asymptote.getAsymtote_Y params
        (SpecSearch.candidate_aux ExampleRun.aux_params d c)
      = Returns asymptote_Y ∧
      ExampleRun.aux_params !! "optimization_left_cutoff" = Some left ∧
      saturation_function left params
        (SpecSearch.candidate_aux ExampleRun.aux_params d c) = Some v ∧
      Search.aux_params st' =
      <["bt" := asymptote_Y - v]>
        (SpecSearch.candidate_aux ExampleRun.aux_params d c).
Proof.
  destruct example_run_returns as [st' Hrun]. exists st'.
  split; [exact Hrun|].
  apply (run_writes_back_the_retained_candidate ExampleRun.fit_ones
           ExampleRun.raw_X ExampleRun.raw_Y [1; 1; 1; 1]
           ExampleRun.raw_X ExampleRun.raw_Y ExampleRun.aux_params st');
    [|exact Hrun].
  destruct raw_lengths. congruence.
Defined.

Lemma main_dt_lies_in_the_window_witness :
  ∃ st' d c params ol or,
    Main.main ExampleRun.fit_ones ExampleRun.raw_X ExampleRun.raw_Y
      [1; 1; 1; 1] ExampleRun.aux_params = Returns st' ∧
    Search.aux_params st' !! "dt" = Some d ∧
    Search.aux_params st' !! "cvert" = Some c ∧
    0 <= d <= 400 ∧
    (d, c) ∈ zip ExampleRun.raw_X ExampleRun.raw_Y ∧
    ExampleRun.aux_params !! "optimization_left_cutoff" = Some ol ∧
    ExampleRun.aux_params !! "optimization_right_cutoff" = Some or ∧
    Search.new_params st' = Some params ∧
    ExampleRun.fit_ones
      (SpecData.samples_in_range ExampleRun.raw_X ExampleRun.raw_Y ol or).*1
      (SpecData.samples_in_range ExampleRun.raw_X ExampleRun.raw_Y ol or).*2
      (SpecSearch.candidate_aux ExampleRun.aux_params d c) [1; 1; 1; 1]
    = (params, Search.loss st').
Proof.
  destruct example_main_returns as [st' Hmain].
  destruct (main_dt_lies_in_the_window ExampleRun.fit_ones
              ExampleRun.raw_X ExampleRun.raw_Y [1; 1; 1; 1]
              ExampleRun.aux_params) with (dt_min := 0) (dt_max := 400)
              (st' := st')
    as (d & c & params & ol & or & H).
  - destruct raw_lengths. congruence.
  - unfold ExampleRun.aux_params. by simplify_map_eq.
  - unfold ExampleRun.aux_params. by simplify_map_eq.
  - exact Hmain.
  - exists st', d, c, params, ol, or. split; [exact Hmain | exact H].
Defined.


Lemma downsample_never_tries_the_last_sample_witness :
  let stride := ((length ExampleRun.raw_X - 1)
                 `div` Search.max_itterations)%nat in
  (1 ≤ stride)%nat ∧
  ∃ guess_dt guess_cvert,
    Search.downsample ExampleRun.raw_X ExampleRun.raw_Y
    = Some (guess_dt, guess_cvert) ∧
    length guess_dt = Search.max_itterations ∧
    length guess_cvert = Search.max_itterations ∧
    ∀ i, (i < Search.max_itterations)%nat →
      (i * stride < length ExampleRun.raw_X - 1)%nat ∧
      is_Some (guess_dt !! i) ∧
      guess_dt !! i = ExampleRun.raw_X !! (i * stride)%nat ∧
      guess_cvert !! i = ExampleRun.raw_Y !! (i * stride)%nat.
Proof.
  apply downsample_never_tries_the_last_sample.
  - rewrite (proj1 raw_lengths). unfold Search.max_itterations. lia.
  - destruct raw_lengths. congruence.
Defined.

(** ** What the parameter reader loads *)

Section ReaderValues.
Import Params.

Variable np_float64 : string → option R.

Local Abbreviation read_line := (Params.read_line np_float64).
Local Abbreviation read_lines := (Params.read_lines np_float64).

Lemma index_lookup x l i : index x l = Some i → l !! i = Some x.
Proof.
  revert i. induction l as [|y l IH]; intros i; [done|].
  simpl. destruct (decide (x = y)) as [->|Hne].
  - by intros [= <-].
  - destruct (index x l) as [j|]; [|done]. intros [= <-]. by apply IH.
Qed.

(** The effect of one data line that is read: one tunable parameter, or
    one auxiliary entry, is assigned the value parsed on the line. *)
Lemma read_line_effect ps d line ps' d' :
  skipped line = false → read_line (ps, d) line = Returns (ps', d') →
  ∃ k r1 v,
    key_of line = Some k ∧ row_of line !! 1%nat = Some r1 ∧
    np_float64 (strip r1) = Some v ∧
    ((∃ i, index k TUNED_PARAMS = Some i ∧ ps' = <[i := v]> ps ∧ d' = d) ∨
     (k ∈ USER_DEFINED_PARAMS ∧ (∀ i, index k TUNED_PARAMS ≠ Some i) ∧
      ps' = ps ∧ d' = <[k := v]> d)).
Proof.
  intros Hs. unfold Params.read_line. rewrite Hs. unfold key_of.
  destruct (row_of line !! 0%nat) as [r0|];
    cbn [mbind outcome_bind of_option option_bind]; [|done].
  destruct (decide (_ ∈ TUNED_PARAMS)) as [Ht|Hnt].
  - rewrite lower_strip.
    destruct (index (strip (lower r0)) TUNED_PARAMS) as [i|] eqn:Hi;
      cbn [mbind outcome_bind of_option]; [|done].
    destruct (row_of line !! 1%nat) as [r1|];
      cbn [mbind outcome_bind of_option]; [|done].
    destruct (np_float64 (strip r1)) as [v|] eqn:Hv;
      cbn [mbind outcome_bind of_option]; [|done].
    intros [= <- <-]. exists (strip (lower r0)), r1, v.
    do 3 (split; [done|]). left. by exists i.
  - destruct (decide (_ ∈ USER_DEFINED_PARAMS)) as [Hu|Hnu]; [|done].
    destruct (row_of line !! 1%nat) as [r1|];
      cbn [mbind outcome_bind of_option]; [|done].
    destruct (np_float64 (strip r1)) as [v|] eqn:Hv;
      cbn [mbind outcome_bind of_option]; [|done].
    intros [= <- <-]. exists (strip (lower r0)), r1, v.
    do 3 (split; [done|]). right. split; [exact Hu|]. split; [|by split].
    intros i Hi. apply Hnt. apply index_lookup in Hi.
    by apply list_elem_of_lookup_2 with i.
Qed.

(** What the loop over the lines keeps: the number of parameters, the keys
    of [d] inside the auxiliary set, and every entry whose key no data line
    presents. *)
Lemma read_lines_effect fp : ∀ ps d ps' d',
  read_lines fp (ps, d) = Returns (ps', d') →
  length ps' = length ps ∧
  (∀ j, j ∈ dom d' → j ∈ dom d ∨ j ∈ USER_DEFINED_PARAMS) ∧
  (∀ k, k ∉ present_keys fp →
        d' !! k = d !! k ∧
        ∀ i, index k TUNED_PARAMS = Some i → ps' !! i = ps !! i).
Proof.
  induction fp as [|line fp IH]; intros ps d ps' d' H.
  - injection H as <- <-. split; [done|]. split; [by left | done].
  - cbn [Params.read_lines] in H. destruct (skipped line) eqn:Hs.
    + rewrite read_line_skipped in H by done.
      rewrite present_keys_skipped by done. by apply IH in H.
    + destruct (read_line (ps, d) line) as [[ps1 d1]| |] eqn:Hl;
        [|done|done].
      cbn [mbind outcome_bind] in H.
      apply read_line_effect in Hl as (k0 & r1 & v & Hk0 & _ & _ & Heff);
        [|done].
      rewrite (present_keys_data _ _ k0) by done.
      apply IH in H as (Hlen & Hdom & Hkeep).
      destruct Heff as [(i0 & Hi0 & -> & ->) | (Hu & Hnt & -> & ->)].
      * split; [by rewrite Hlen, length_insert|]. split; [done|].
        intros k Hk. apply not_elem_of_cons in Hk as [Hne Hk].
        destruct (Hkeep k Hk) as [Hd Hps]. split; [done|].
        intros i Hi. rewrite (Hps i Hi).
        apply list_lookup_insert_ne. intros <-.
        apply index_lookup in Hi0, Hi. congruence.
      * split; [done|]. split.
        -- intros j Hj. destruct (Hdom j Hj) as [Hj1|?]; [|by right].
           apply elem_of_dom in Hj1.
           destruct (decide (j = k0)) as [->|Hne]; [by right|].
           rewrite lookup_insert_ne in Hj1 by done. left.
           by apply elem_of_dom.
        -- intros k Hk. apply not_elem_of_cons in Hk as [Hne Hk].
           destruct (Hkeep k Hk) as [Hd Hps].
           split; [by rewrite Hd, lookup_insert_ne|done].
Qed.

Lemma read_lines_data_lines fp st :
  read_lines fp st = read_lines (data_lines fp) st.
Proof.
  revert st. induction fp as [|line fp IH]; intros st; [done|].
  destruct (skipped line) eqn:Hs.
  - rewrite data_lines_skipped by done. cbn [Params.read_lines].
    rewrite read_line_skipped by done. apply IH.
  - rewrite data_lines_data by done. cbn [Params.read_lines].
    destruct (read_line st line); cbn [mbind outcome_bind]; [apply IH|done..].
Qed.

Lemma read_lines_app fp1 fp2 st :
  read_lines (fp1 ++ fp2) st = st' ← read_lines fp1 st; read_lines fp2 st'.
Proof.
  revert st. induction fp1 as [|line fp1 IH]; intros st; [done|].
  cbn [app Params.read_lines].
  destruct (read_line st line); cbn [mbind outcome_bind]; [apply IH|done..].
Qed.

Lemma read_parameters_inv fp stdin ps d :
  read_parameters_from_file np_float64 fp stdin = Returns (ps, d) →
  read_lines fp (replicate (length TUNED_PARAMS) 0, ∅) = Returns (ps, d) ∧
  USER_DEFINED_PARAMS ⊆ dom d ∧ confirm stdin = Returns "y".
Proof.
  unfold read_parameters_from_file.
  destruct (Params.read_lines np_float64 fp _) as [[ps1 d1]| |];
    cbn [mbind outcome_bind]; [|done|done].
  case_decide as Hmiss; [done|].
  destruct (confirm stdin) as [user_in| |] eqn:Hc;
    cbn [mbind outcome_bind]; [|done|done].
  case_decide as Hy; [|done]. intros [= <- <-]. subst user_in.
  split; [done|]. split; [|done].
  intros k Hk. destruct (decide (k ∈ dom d1)) as [Hin|Hnin]; [done|].
  destruct Hmiss. apply Nat.neq_0_lt_0. apply size_non_empty_iff.
  intros Hemp. apply (proj1 (elem_of_equiv_empty _) Hemp k).
  apply elem_of_difference. split; assumption.
Qed.

(** X27: Whenever the reader returns, it returns four tunable parameters and a
    dictionary with exactly the eight auxiliary keys, and the first answer
    among y and n on standard input was y. *)
Theorem read_parameters_result_shape fp stdin parameters d :
  read_parameters_from_file np_float64 fp stdin = Returns (parameters, d) →
  length parameters = 4%nat ∧ dom d = USER_DEFINED_PARAMS ∧
  confirm stdin = Returns "y".
Proof.
  intros H. apply read_parameters_inv in H as (Hl & Hsub & Hy).
  apply read_lines_effect in Hl as (Hlen & Hdom & _).
  split; [by rewrite Hlen|]. split; [|done].
  apply set_eq. intros k. split; [|by apply Hsub].
  intros Hk. destruct (Hdom k Hk) as [He|?]; [|done].
  by rewrite dom_empty_L in He.
Qed.

(** X28: Comment lines and blank lines have no effect: the reader behaves on a
    file as on the file with these lines removed. *)
Theorem read_parameters_ignores_skipped_lines fp stdin :
  read_parameters_from_file np_float64 fp stdin =
  read_parameters_from_file np_float64 (data_lines fp) stdin.
Proof.
  unfold read_parameters_from_file. by rewrite read_lines_data_lines.
Qed.

(** X29: A tunable parameter that no line of the file names is not an error, as
    a missing auxiliary key is: it is returned as 0. *)
Theorem read_parameters_missing_tunable_is_0 fp stdin parameters d k i :
  read_parameters_from_file np_float64 fp stdin = Returns (parameters, d) →
  index k TUNED_PARAMS = Some i → k ∉ present_keys fp →
  parameters !! i = Some 0.
Proof.
  intros H Hi Hk. apply read_parameters_inv in H as (Hl & _ & _).
  apply read_lines_effect in Hl as (_ & _ & Hkeep).
  destruct (Hkeep k Hk) as [_ Hps]. rewrite (Hps i Hi).
  apply index_lookup, lookup_lt_Some in Hi.
  apply lookup_replicate. split; [done | exact Hi].
Qed.

(** X30: The value loaded for a key is the one parsed on the last data line that
    names it: into the dictionary for an auxiliary key, at the key's position
    among the parameters for a tunable one. *)
Theorem read_parameters_last_line_wins before line after stdin
    parameters d k :
  read_parameters_from_file np_float64 (before ++ line :: after) stdin
  = Returns (parameters, d) →
  skipped line = false → key_of line = Some k → k ∉ present_keys after →
  ∃ r1 v,
    row_of line !! 1%nat = Some r1 ∧ np_float64 (strip r1) = Some v ∧
    ((k ∈ USER_DEFINED_PARAMS ∧ d !! k = Some v) ∨
     (∃ i, index k TUNED_PARAMS = Some i ∧ parameters !! i = Some v)).
Proof.
  intros H Hs Hk Hafter. apply read_parameters_inv in H as (Hl & _ & _).
  rewrite read_lines_app in Hl.
  destruct (Params.read_lines np_float64 before _) as [[ps0 d0]| |] eqn:H0;
    cbn [mbind outcome_bind] in Hl; [|done|done].
  cbn [Params.read_lines] in Hl.
  destruct (read_line (ps0, d0) line) as [[ps1 d1]| |] eqn:H1;
    cbn [mbind outcome_bind] in Hl; [|done|done].
  apply read_lines_effect in H0 as (Hlen0 & _ & _).
  apply read_line_effect in H1 as (k' & r1 & v & Hk' & Hr1 & Hv & Heff);
    [|done].
  rewrite Hk in Hk'. injection Hk' as <-.
  apply read_lines_effect in Hl as (_ & _ & Hkeep).
  destruct (Hkeep k Hafter) as [Hd Hps].
  exists r1, v. do 2 (split; [done|]).
  destruct Heff as [(i & Hi & -> & ->) | (Hu & _ & -> & ->)].
  - right. exists i. split; [done|]. rewrite (Hps i Hi).
    apply list_lookup_insert_eq. rewrite Hlen0, length_replicate.
    by apply index_lookup, lookup_lt_Some in Hi.
  - left. split; [done|]. rewrite Hd. apply lookup_insert_eq.
Qed.

End ReaderValues.

Lemma complete_file_loads :
  ∃ parameters d,
    Params.read_parameters_from_file Examples.parse_any
      Examples.complete_file ["y"] = Returns (parameters, d).
Proof.
  destruct complete_file_keys as (K1 & K2 & _).
  destruct (read_lines_good Examples.parse_any Examples.complete_file
              (replicate (length Params.TUNED_PARAMS) 0) ∅ K1)
    as (ps & d & Hl & _ & Hdom).
  { intros line Hline.
    assert (D : Params.data_lines Examples.complete_file =
      ["dt_min = 1"; "dt_max = 1"; "C3 = 1"; "r = 1";
       "graph_left_cutoff = 1"; "graph_right_cutoff = 1";
       "optimization_left_cutoff = 1"; "optimization_right_cutoff = 1"])
      by by vm_compute.
    rewrite D in Hline. unfold Params.has_value, Examples.parse_any.
    repeat (apply elem_of_cons in Hline as [->|Hline];
            [by eexists _, _; split; [vm_compute; reflexivity|] |]).
    by apply elem_of_nil in Hline. }
  exists ps, d. unfold Params.read_parameters_from_file. rewrite Hl.
  cbn [mbind outcome_bind].
  assert (dom d = Params.USER_DEFINED_PARAMS) as Hd.
  { apply set_eq. intros k. rewrite Hdom, dom_empty_L. split.
    - intros [Hk|[_ ?]]; [|assumption].
      exfalso. exact (not_elem_of_empty (C := gset string) k Hk).
    - intros Hk. right. split; [by apply K2 | assumption]. }
  rewrite Hd. case_decide as Hmiss.
  { exfalso. apply size_pos_elem_of in Hmiss as (k & Hk).
    apply elem_of_difference in Hk as [? ?]. contradiction. }
  reflexivity.
Qed.

Lemma read_parameters_result_shape_witness :
  ∃ parameters d,
    Params.read_parameters_from_file Examples.parse_any
      Examples.complete_file ["y"] = Returns (parameters, d) ∧
    length parameters = 4%nat ∧ dom d = Params.USER_DEFINED_PARAMS ∧
    Params.confirm ["y"] = Returns "y".
Proof.
  destruct complete_file_loads as (parameters & d & H).
  exists parameters, d. split; [exact H|].
  exact (read_parameters_result_shape Examples.parse_any
           Examples.complete_file ["y"] parameters d H).
Defined.

Lemma read_parameters_missing_tunable_is_0_witness :
  ∃ parameters d,
    Params.read_parameters_from_file Examples.parse_any
      Examples.complete_file ["y"] = Returns (parameters, d) ∧
    parameters !! 0%nat = Some 0.
Proof.
  destruct complete_file_loads as (parameters & d & H).
  exists parameters, d. split; [exact H|].
  apply (read_parameters_missing_tunable_is_0 Examples.parse_any
           Examples.complete_file ["y"] parameters d "k1" 0 H).
  - reflexivity.
  - apply (bool_decide_unpack _). by vm_compute.
Defined.

Lemma read_parameters_last_line_wins_witness :
  ∃ parameters d r1 v,
    Params.read_parameters_from_file Examples.parse_any
      Examples.complete_file ["y"] = Returns (parameters, d) ∧
    Params.row_of "dt_max = 1" !! 1%nat = Some r1 ∧
    Examples.parse_any (Params.strip r1) = Some v ∧
    (("dt_max" ∈ Params.USER_DEFINED_PARAMS ∧ d !! "dt_max" = Some v) ∨
     (∃ i, Params.index "dt_max" Params.TUNED_PARAMS = Some i ∧
           parameters !! i = Some v)).
Proof.
  destruct complete_file_loads as (parameters & d & H).
  destruct (read_parameters_last_line_wins Examples.parse_any
              ["# parameters"; "dt_min = 1"] "dt_max = 1"
              ["C3 = 1"; "r = 1"; "graph_left_cutoff = 1";
               "graph_right_cutoff = 1"; "optimization_left_cutoff = 1";
               "optimization_right_cutoff = 1"] ["y"] parameters d "dt_max")
    as (r1 & v & Hr1 & Hv & Hval).
  - exact H.
  - by vm_compute.
  - by vm_compute.
  - apply (bool_decide_unpack _). by vm_compute.
  - exists parameters, d, r1, v.
    split; [exact H|]. split; [exact Hr1|]. split; [exact Hv | exact Hval].
Defined.

(** ** The frame of the search on a run of the whole program *)

Lemma downsample_full_length span_dt span_cvert gd gc :
  (Search.max_itterations < length span_dt)%nat →
  Search.downsample span_dt span_cvert = Some (gd, gc) →
  length gd = Search.max_itterations.
Proof.
  intros Hn. unfold Search.downsample. case_decide; [|lia]. intros E.
  apply pick_guesses_length in E. rewrite length_seq in E.
  simpl length in E. lia.
Qed.

(** The frame on the run of [ExampleRun]: 201 samples, hence 200 candidates
    and 200 iterations, on a dictionary that holds the eight auxiliary
    entries, and the run returns. *)
Lemma aux_frame_witness :
  (∃ st',
     Search.run ExampleRun.fit_ones ExampleRun.raw_X ExampleRun.raw_Y
       [1; 1; 1; 1] ExampleRun.raw_X ExampleRun.raw_Y ExampleRun.aux_params
     = Returns st') ∧
  ∃ gd gc,
    Search.downsample ExampleRun.raw_X ExampleRun.raw_Y = Some (gd, gc) ∧
    length gd = 200%nat ∧
    (∀ n, (n ≤ length gd)%nat →
       ∃ st,
         Search.search_upto ExampleRun.fit_ones ExampleRun.raw_X
           ExampleRun.raw_Y [1; 1; 1; 1] gd gc n ExampleRun.aux_params
         = Some st ∧
         Search.aux_writes st = concat (replicate n ["dt"; "cvert"]) ∧
         (∀ k : string, k ≠ "dt" → k ≠ "cvert" →
            Search.aux_params st !! k = ExampleRun.aux_params !! k) ∧
         Forall (λ k, Search.aux_params st !! k = ExampleRun.aux_params !! k)
                SpecSearch.frame_keys) ∧
    (∀ n st, (n < length gd)%nat →
       Search.search_upto ExampleRun.fit_ones ExampleRun.raw_X
         ExampleRun.raw_Y [1; 1; 1; 1] gd gc n ExampleRun.aux_params
       = Some st →
       ∃ d c st',
         gd !! n = Some d ∧ gc !! n = Some c ∧
         Search.search_upto ExampleRun.fit_ones ExampleRun.raw_X
           ExampleRun.raw_Y [1; 1; 1; 1] gd gc (S n) ExampleRun.aux_params
         = Some st' ∧
         Search.aux_params st' =
         <["cvert" := c]> (<["dt" := d]> (Search.aux_params st)) ∧
         Search.aux_writes st' = Search.aux_writes st ++ ["dt"; "cvert"]) ∧
    (∀ st',
       Search.run ExampleRun.fit_ones ExampleRun.raw_X ExampleRun.raw_Y
         [1; 1; 1; 1] ExampleRun.raw_X ExampleRun.raw_Y ExampleRun.aux_params
       = Returns st' →
       Forall (λ k, Search.aux_params st' !! k = ExampleRun.aux_params !! k)
              SpecSearch.frame_keys).
Proof.
  split; [exact example_run_returns|].
  destruct (aux_frame ExampleRun.fit_ones ExampleRun.raw_X ExampleRun.raw_Y
              [1; 1; 1; 1] ExampleRun.raw_X ExampleRun.raw_Y
              ExampleRun.aux_params)
    as (gd & gc & Hds & Hloop & Hstep & Hrun).
  - destruct raw_lengths. congruence.
  - exists gd, gc. split; [exact Hds|]. split.
    + apply (downsample_full_length ExampleRun.raw_X ExampleRun.raw_Y gd gc);
        [|exact Hds].
      rewrite (proj1 raw_lengths). unfold Search.max_itterations. lia.
    + split; [exact Hloop|]. split; [exact Hstep | exact Hrun].
Defined.
